(** * electorate-mailer: the matching, grouping and rendering core of app.py

    A shallow embedding of [src/app.py] and the properties its specification
    states about it.

    Conventions of the embedding.
    - A Python [str] is the list of its code points, [list ascii]; the
      characters are read as the code points U+0000 to U+00FF.  Whitespace,
      digits and case are those Python assigns to these code points.
    - A pandas row is a function from column label to cell; every cell is a
      string (the tables are string-typed, and [str(x)] of a string is [x]).
      Looking up a label that is not a column raises in pandas; [main] checks
      the required columns before [process_files] is called.
    - A Python [dict] is an association list in insertion order with unique
      keys; assigning to an existing key replaces the value in place.
    - [datetime.strptime] is modelled by the regular expression CPython's
      [_strptime] compiles for a format, matched by a backtracking matcher,
      with the month names of the C locale.
    - A call that can raise returns a [result]: the value, or the
      exception.  The exceptions met are the ValueError that lxml raises
      when python-docx sets a text with a character XML does not allow,
      and the IndexError of [ZipFile.writestr] on an empty entry name.
    - A document is the list of paragraphs added to it, a page break being
      a paragraph of its own; an archive is the list of its entries, each
      under the name [zipfile] keeps (cut at the first U+0000).
      Serialisation to bytes ([doc.save], compression) is not modelled.
    - [ZipFile.writestr] treats an empty entry name differently from one
      version of CPython to another; the functions that reach it take the
      behaviour as the argument [name_indexed]. *)

From Stdlib Require Import Ascii String DecimalString.
From Stdlib Require Import List ZArith Lia Bool Arith.
From Stdlib Require Import Permutation Sorted.
Import ListNotations.

Set Implicit Arguments.

(** ** Python strings *)

Module PyStr.

Definition str := list ascii.

(** A string literal. *)
Definition lit (s : string) : str := list_ascii_of_string s.

Fixpoint eqb (a b : str) : bool :=
  match a, b with
  | [], [] => true
  | x :: a', y :: b' => Ascii.eqb x y && eqb a' b'
  | _, _ => false
  end.

(** [c.isspace()] on U+0000..U+00FF: TAB LF VT FF CR, FS GS RS US, SPACE,
    NEL (U+0085) and NBSP (U+00A0). *)
Definition isspace (c : ascii) : bool :=
  let n := nat_of_ascii c in
  ((9 <=? n) && (n <=? 13)) || ((28 <=? n) && (n <=? 32))
  || (n =? 133) || (n =? 160).

Fixpoint lstrip (s : str) : str :=
  match s with
  | [] => []
  | c :: s' => if isspace c then lstrip s' else s
  end.

Definition rstrip (s : str) : str := rev (lstrip (rev s)).

(** [s.strip()] *)
Definition strip (s : str) : str := rstrip (lstrip s).

(** [s.split(sep)] for a one-character separator. *)
Fixpoint split (sep : ascii) (s : str) : list str :=
  match s with
  | [] => [[]]
  | c :: s' =>
      if Ascii.eqb c sep then [] :: split sep s'
      else match split sep s' with
           | hd :: tl => (c :: hd) :: tl
           | [] => [[c]]
           end
  end.

(** [sep.join(l)]; stated for any kind of element, so that it also puts
    a separator between the parts of a document. *)
Fixpoint join {A} (sep : list A) (l : list (list A)) : list A :=
  match l with
  | [] => []
  | [x] => x
  | x :: rest => x ++ sep ++ join sep rest
  end.

(** [s.startswith(p)] *)
Fixpoint startswith (p s : str) : bool :=
  match p, s with
  | [], _ => true
  | x :: p', y :: s' => Ascii.eqb x y && startswith p' s'
  | _ :: _, [] => false
  end.

(** [p in s] *)
Fixpoint contains (p s : str) : bool :=
  startswith p s || match s with [] => false | _ :: s' => contains p s' end.

(** The scan of [s.replace(old, new)] for a non-empty [old]: left to
    right, each occurrence found is replaced and the scan resumes after it
    ([skip] counts the characters of the occurrence still to pass). *)
Fixpoint replace_scan (old new : str) (skip : nat) (s : str) : str :=
  match s with
  | [] => []
  | c :: s' =>
      match skip with
      | S n => replace_scan old new n s'
      | O => if startswith old s
             then new ++ replace_scan old new (length old - 1) s'
             else c :: replace_scan old new 0 s'
      end
  end.

(** [s.replace(old, new)]; an empty [old] matches before every character
    and at the end. *)
Definition replace (old new s : str) : str :=
  match old with
  | [] => new ++ flat_map (fun c => c :: new) s
  | _ :: _ => replace_scan old new 0 s
  end.

(** Python's [s.split(sep)] for a non-empty multi-character [sep], by the
    same scan; used to state what [replace] does. *)
Fixpoint split_scan (sep : str) (skip : nat) (s : str) : list str :=
  match s with
  | [] => [[]]
  | c :: s' =>
      match skip with
      | S n => split_scan sep n s'
      | O => if startswith sep s
             then [] :: split_scan sep (length sep - 1) s'
             else match split_scan sep 0 s' with
                  | hd :: tl => (c :: hd) :: tl
                  | [] => [[c]]
                  end
      end
  end.

Definition split_str (sep s : str) : list str := split_scan sep 0 s.

(** [re.sub(r'[...]', '', s)] for a character class: every character of
    the class is a match, and each match is replaced by the empty string. *)
Fixpoint re_sub_class (cls : ascii -> bool) (s : str) : str :=
  match s with
  | [] => []
  | c :: s' => if cls c then re_sub_class cls s' else c :: re_sub_class cls s'
  end.

End PyStr.
Import PyStr.

(** ** Python dictionaries *)

Module PyDict.

Definition dict (V : Type) := list (str * V).

Fixpoint get {V} (k : str) (d : dict V) : option V :=
  match d with
  | [] => None
  | (k', v) :: d' => if eqb k' k then Some v else get k d'
  end.

(** [d[k] = v] *)
Fixpoint set {V} (k : str) (v : V) (d : dict V) : dict V :=
  match d with
  | [] => [(k, v)]
  | (k', v') :: d' =>
      if eqb k' k then (k', v) :: d' else (k', v') :: set k v d'
  end.

(** [k in d] *)
Definition mem {V} (k : str) (d : dict V) : bool :=
  match get k d with Some _ => true | None => false end.

(** [d.keys()] *)
Definition keys {V} (d : dict V) : list str := map fst d.

(** [d.get(k, default)] *)
Definition get_default {V} (k : str) (default : V) (d : dict V) : V :=
  match get k d with Some v => v | None => default end.

End PyDict.

(** ** [sorted(l, key=...)]: a stable sort that compares keys with [<] only *)

Module PySort.

Section Sorted.
Variables (A K : Type) (key : A -> K) (lt : K -> K -> bool).

(** [x] goes before the first element whose key is not below its own, so
    an element never overtakes an earlier one with an equal key. *)
Fixpoint insert (x : A) (l : list A) : list A :=
  match l with
  | [] => [x]
  | y :: l' => if lt (key y) (key x) then y :: insert x l' else x :: l
  end.

Fixpoint sorted (l : list A) : list A :=
  match l with
  | [] => []
  | x :: l' => insert x (sorted l')
  end.

(** No element is followed, anywhere later, by one with a smaller key. *)
Definition ascending (l : list A) : Prop :=
  StronglySorted (fun x y => lt (key y) (key x) = false) l.
End Sorted.

End PySort.

(** ** [datetime.datetime] *)

Module Datetime.

Record datetime := mk_datetime {
  year : Z; month : Z; day : Z;
  hour : Z; minute : Z; second : Z; microsecond : Z }.

Definition is_leap (y : Z) : bool :=
  (y mod 4 =? 0)%Z && (negb (y mod 100 =? 0)%Z || (y mod 400 =? 0)%Z).

Definition days_in_month (y m : Z) : Z :=
  if (m =? 2)%Z then (if is_leap y then 29 else 28)%Z
  else if (m =? 4)%Z || (m =? 6)%Z || (m =? 9)%Z || (m =? 11)%Z then 30%Z
  else 31%Z.

(** [datetime(y, m, d)]: [None] is the [ValueError] of a year outside
    MINYEAR..MAXYEAR, a month outside 1..12 or a day outside the month. *)
Definition make (y m d : Z) : option datetime :=
  if ((1 <=? y) && (y <=? 9999) && (1 <=? m) && (m <=? 12)
      && (1 <=? d) && (d <=? days_in_month y m))%Z
  then Some (mk_datetime y m d 0 0 0 0)
  else None.

(** [datetime.min] *)
Definition min : datetime := mk_datetime 1 1 1 0 0 0 0.

Definition fields (d : datetime) : list Z :=
  [year d; month d; day d; hour d; minute d; second d; microsecond d].

Fixpoint lex_compare (a b : list Z) : comparison :=
  match a, b with
  | [], [] => Eq
  | [], _ :: _ => Lt
  | _ :: _, [] => Gt
  | x :: a', y :: b' =>
      match (x ?= y)%Z with
      | Eq => lex_compare a' b'
      | c => c
      end
  end.

(** Datetimes compare field by field, most significant first. *)
Definition compare (a b : datetime) : comparison :=
  lex_compare (fields a) (fields b).

Definition ltb (a b : datetime) : bool :=
  match compare a b with Lt => true | _ => false end.

Definition leb (a b : datetime) : bool := negb (ltb b a).

Definition eqb (a b : datetime) : bool :=
  match compare a b with Eq => true | _ => false end.

End Datetime.

(** ** Regular expressions, as far as [_strptime] needs them *)

Module Regex.

Inductive regex :=
| Lit (c : ascii)               (* a literal character, case ignored *)
| Class (p : ascii -> bool)     (* [\d], [\s], [[1-9]] *)
| Seq (r1 r2 : regex)
| Alt (r1 r2 : regex)           (* [r1|r2]: [r1] is tried first *)
| Eps
| Fail
| Plus (p : ascii -> bool)      (* greedy [c+] over a class *)
| Group (name : ascii) (r : regex).  (* [(?P<name>r)] *)

(** [ch.lower()] on U+0000..U+00FF. *)
Definition lower (c : ascii) : ascii :=
  let n := nat_of_ascii c in
  if ((65 <=? n) && (n <=? 90))
     || ((192 <=? n) && (n <=? 222) && negb (n =? 215))
  then ascii_of_nat (n + 32) else c.

Definition groups := list (ascii * str).

Fixpoint group (name : ascii) (g : groups) : option str :=
  match g with
  | [] => None
  | (n, t) :: g' => if Ascii.eqb n name then Some t else group name g'
  end.

Section Matcher.
Variable R : Type.

(** [p+], greedy: as many characters as possible first, one fewer on
    each backtrack, at least one. *)
Fixpoint plus_class (p : ascii -> bool) (k : str -> option R) (s : str)
  : option R :=
  match s with
  | [] => None
  | c :: s' =>
      if p c then
        match plus_class p k s' with
        | Some r => Some r
        | None => k s'
        end
      else None
  end.

(** Backtracking match of [r] at the start of [s]; [k] is what remains
    to be matched, given the rest of the input and the groups so far. *)
Fixpoint rmatch (r : regex) (s : str) (g : groups)
         (k : str -> groups -> option R) : option R :=
  match r with
  | Lit c =>
      match s with
      | x :: s' => if Ascii.eqb (lower x) c then k s' g else None
      | [] => None
      end
  | Class p =>
      match s with
      | x :: s' => if p x then k s' g else None
      | [] => None
      end
  | Seq r1 r2 => rmatch r1 s g (fun s' g' => rmatch r2 s' g' k)
  | Alt r1 r2 =>
      match rmatch r1 s g k with
      | Some x => Some x
      | None => rmatch r2 s g k
      end
  | Eps => k s g
  | Fail => None
  | Plus p => plus_class p (fun s' => k s' g) s
  | Group n r1 =>
      rmatch r1 s g
        (fun s' g' => k s' ((n, firstn (length s - length s') s) :: g'))
  end.
End Matcher.

(** What it means for an expression to match a prefix of [s], leaving [s']
    and extending the groups [g] to [g']; the matcher above searches these
    matches in the order of the engine. *)
Inductive matches : regex -> str -> groups -> str -> groups -> Prop :=
| M_Lit c x s g :
    lower x = c -> matches (Lit c) (x :: s) g s g
| M_Class (p : ascii -> bool) x s g :
    p x = true -> matches (Class p) (x :: s) g s g
| M_Seq r1 r2 s g s1 g1 s2 g2 :
    matches r1 s g s1 g1 -> matches r2 s1 g1 s2 g2 ->
    matches (Seq r1 r2) s g s2 g2
| M_Alt_l r1 r2 s g s' g' :
    matches r1 s g s' g' -> matches (Alt r1 r2) s g s' g'
| M_Alt_r r1 r2 s g s' g' :
    matches r2 s g s' g' -> matches (Alt r1 r2) s g s' g'
| M_Eps s g : matches Eps s g s g
| M_Plus (p : ascii -> bool) x w s g :
    forallb p (x :: w) = true -> matches (Plus p) (x :: w ++ s) g s g
| M_Group n r s g s' g' :
    matches r s g s' g' ->
    matches (Group n r) s g s'
            ((n, firstn (length s - length s') s) :: g').

(** [re.match(s)]: the first match in backtracking order, as the unmatched
    rest of [s] and the named groups. *)
Definition re_match (r : regex) (s : str) : option (str * groups) :=
  rmatch r s [] (fun s' g => Some (s', g)).

Definition alts (l : list regex) : regex := fold_right Alt Fail l.
Definition seqs (l : list regex) : regex := fold_right Seq Eps l.
Definition literal (s : str) : regex := seqs (map (fun c => Lit (lower c)) s).
Definition range (lo hi : ascii) (c : ascii) : bool :=
  (nat_of_ascii lo <=? nat_of_ascii c) && (nat_of_ascii c <=? nat_of_ascii hi).
(** [\d] on U+0000..U+00FF: the decimal digits are 0-9. *)
Definition digit : ascii -> bool := range "0" "9".

End Regex.

(** ** [datetime.strptime] *)

Module Strptime.
Import Regex.

(** [calendar.month_abbr] and [calendar.month_name] of the C locale, in
    lower case as [LocaleTime] keeps them; index 0 is the empty string. *)
Definition a_month : list str :=
  map lit [EmptyString; "jan"; "feb"; "mar"; "apr"; "may"; "jun";
           "jul"; "aug"; "sep"; "oct"; "nov"; "dec"]%string.

Definition f_month : list str :=
  map lit [EmptyString; "january"; "february"; "march"; "april"; "may"; "june";
           "july"; "august"; "september"; "october"; "november";
           "december"]%string.

(** [TimeRE.__seqToRE]: the alternatives, longest first. *)
Definition seqToRE (to_convert : list str) (directive : ascii) : regex :=
  let to_convert :=
    PySort.sorted (@length ascii) (fun a b => b <? a) to_convert in
  Group directive (alts (map literal to_convert)).

(** The expression of [%d]: the day of the month, with or without a
    leading zero, or with a leading space. *)
Definition day_re : regex :=
  alts [Seq (Lit "3") (Class (range "0" "1"));
        Seq (Class (range "1" "2")) (Class digit);
        Seq (Lit "0") (Class (range "1" "9"));
        Class (range "1" "9");
        Seq (Lit " ") (Class (range "1" "9"))].

(** The expression of [%Y]: four digits. *)
Definition year_re : regex :=
  seqs [Class digit; Class digit; Class digit; Class digit].

(** The entries of [TimeRE] the two formats of [parse_date] use; any other
    directive is not modelled and counts as a bad directive. *)
Definition directive (d : ascii) : option regex :=
  if Ascii.eqb d "d" then Some (Group "d" day_re)
  else if Ascii.eqb d "Y" then Some (Group "Y" year_re)
  else if Ascii.eqb d "B" then Some (seqToRE (tl f_month) "B")
  else if Ascii.eqb d "b" then Some (seqToRE (tl a_month) "b")
  else None.

(** [TimeRE.pattern]: a run of whitespace in the format becomes [\s+], a
    directive becomes its expression, any other character is a literal. *)
Fixpoint pattern (format : str) : option regex :=
  match format with
  | [] => Some Eps
  | c :: rest =>
      if isspace c then
        match rest with
        | c' :: _ =>
            if isspace c' then pattern rest
            else option_map (Seq (Plus isspace)) (pattern rest)
        | [] => Some (Plus isspace)
        end
      else if Ascii.eqb c "%" then
        match rest with
        | d :: rest' =>
            match directive d, pattern rest' with
            | Some r, Some r' => Some (Seq r r')
            | _, _ => None
            end
        | [] => None
        end
      else option_map (Seq (Lit (lower c))) (pattern rest)
  end.

Fixpoint digits_value (acc : Z) (s : str) : option Z :=
  match s with
  | [] => Some acc
  | c :: s' =>
      if digit c
      then digits_value (10 * acc + Z.of_nat (nat_of_ascii c - 48))%Z s'
      else None
  end.

(** [int(s)] for an unsigned decimal numeral, surrounding whitespace
    ignored; [None] is [ValueError]. *)
Definition py_int (s : str) : option Z :=
  match strip s with
  | [] => None
  | t => digits_value 0 t
  end.

(** [l.index(x)] *)
Fixpoint index (x : str) (l : list str) : option Z :=
  match l with
  | [] => None
  | y :: l' => if eqb y x then Some 0%Z
               else option_map Z.succ (index x l')
  end.

(** A field that a group of the match sets, with the value it has when the
    format has no such group. *)
Definition field (g : groups) (name : ascii) (conv : str -> option Z)
           (default : option Z) : option (option Z) :=
  match group name g with
  | Some t => option_map Some (conv t)
  | None => Some default
  end.

(** The conversion of the groups of a match into a date. *)
Definition convert (g : groups) : option Datetime.datetime :=
  match field g "Y" py_int None with
  | None => None
  | Some year =>
  match field g "B" (fun t => index (map lower t) f_month) (Some 1%Z) with
  | None | Some None => None
  | Some (Some month_B) =>
  match field g "b" (fun t => index (map lower t) a_month) (Some month_B) with
  | None | Some None => None
  | Some (Some month) =>
  match field g "d" py_int (Some 1%Z) with
  | None | Some None => None
  | Some (Some day) =>
      let year :=
        match year with
        | Some y => y
        | None => if ((month =? 2) && (day =? 29))%Z then 1904%Z else 1900%Z
        end in
      Datetime.make year month day
  end end end end.

(** [datetime.strptime(data_string, format)]; [None] is [ValueError]: a
    bad format, no match, unconverted data after the match, or a date that
    does not exist. *)
Definition strptime (data_string format : str) : option Datetime.datetime :=
  match pattern format with
  | None => None
  | Some format_regex =>
      match re_match format_regex data_string with
      | None => None
      | Some (_ :: _, _) => None
      | Some ([], found) => convert found
      end
  end.

End Strptime.

(** ** Exceptions *)

Module Py.
Import PyStr.

(** The exceptions that the program meets, with their message. *)
Inductive exn :=
| ValueError (msg : str)
| IndexError (msg : str).

(** [str(e)] *)
Definition message (e : exn) : str :=
  match e with
  | ValueError msg => msg
  | IndexError msg => msg
  end.

(** The outcome of a call: the value returned, or the exception raised. *)
Inductive result (A : Type) :=
| Ok (a : A)
| Raise (e : exn).

Arguments Ok {A} a.
Arguments Raise {A} e.

Definition bind {A B} (r : result A) (f : A -> result B) : result B :=
  match r with
  | Ok a => f a
  | Raise e => Raise e
  end.

(** A loop over [l] that updates [a]; an exception in the body ends it. *)
Fixpoint for_each {A B} (body : A -> B -> result A) (l : list B) (a : A)
  : result A :=
  match l with
  | [] => Ok a
  | x :: l' => bind (body a x) (for_each body l')
  end.

End Py.

(** ** Documents ([python-docx]) *)

Module Docx.
Import Py.

(** A run: the text given to [add_run] with its [bold] setting, or the
    run of [add_run().add_break(WD_BREAK.PAGE)], which holds a page break
    and no text. *)
Inductive run :=
| mk_run (text : str) (bold : option bool)
| page_break.

Inductive block :=
| Paragraph (runs : list run).

Record Document := mk_document {
  normal_font : option str;     (* [styles['Normal'].font.name] *)
  body : list block }.

(** [Document()] *)
Definition new : Document := mk_document None [].

Definition set_normal_font (doc : Document) (name : str) : Document :=
  mk_document (Some name) (body doc).

Definition add_block (doc : Document) (b : block) : Document :=
  mk_document (normal_font doc) (body doc ++ [b]).

(** The characters that lxml accepts in the text of an element: TAB, LF,
    CR and everything from U+0020 on.  (A TAB, LF or CR does not reach
    lxml: [add_run] turns it into a tab or a line break of the run.) *)
Definition xml_char (c : ascii) : bool :=
  let n := nat_of_ascii c in
  (n =? 9) || (n =? 10) || (n =? 13) || (32 <=? n).

Definition xml_compatible (text : str) : bool := forallb xml_char text.

(** What lxml raises for any other text. *)
Definition xml_error : exn :=
  ValueError (lit "All strings must be XML compatible: Unicode or ASCII, no NULL bytes or control characters").

(** The paragraph that [add_paragraph(text)] makes: it gets a run only
    for a non-empty text. *)
Definition plain_paragraph (text : str) : block :=
  Paragraph match text with [] => [] | _ :: _ => [mk_run text None] end.

(** A paragraph of one run, set bold. *)
Definition bold_paragraph (text : str) : block :=
  Paragraph [mk_run text (Some true)].

(** The paragraph of a page break. *)
Definition PageBreak : block := Paragraph [page_break].

(** [doc.add_paragraph()] *)
Definition add_empty_paragraph (doc : Document) : Document :=
  add_block doc (Paragraph []).

(** [doc.add_paragraph(text)] *)
Definition add_paragraph (doc : Document) (text : str) : result Document :=
  if xml_compatible text then Ok (add_block doc (plain_paragraph text))
  else Raise xml_error.

(** [doc.add_paragraph().add_run(text).bold = True] *)
Definition add_bold_paragraph (doc : Document) (text : str)
  : result Document :=
  if xml_compatible text then Ok (add_block doc (bold_paragraph text))
  else Raise xml_error.

(** [doc.add_page_break()]: a new paragraph with a run that holds a page
    break. *)
Definition add_page_break (doc : Document) : Document :=
  add_block doc PageBreak.

End Docx.

(** ** Archives ([zipfile]) *)

Module Zipfile.
Import Py.

Definition nul : ascii := "000".

(** [ZipInfo(filename)]: the name ends before the first U+0000. *)
Fixpoint zip_name (filename : str) : str :=
  match filename with
  | [] => []
  | c :: rest => if Ascii.eqb c nul then [] else c :: zip_name rest
  end.

(** [zip_file.writestr(filename, data)], on the entries written so far.
    To see whether the entry is a directory, CPython 3.11 reads the last
    character of the name by index, which raises IndexError for an empty
    name; an interpreter that tests the ending of the name instead writes
    the entry under the empty name.  [name_indexed] says which of the two
    the interpreter does. *)
Definition writestr {D} (name_indexed : bool) (entries : list (str * D))
           (filename : str) (data : D) : result (list (str * D)) :=
  match zip_name filename with
  | [] =>
      if name_indexed
      then Raise (IndexError (lit "string index out of range"))
      else Ok (entries ++ [([], data)])
  | name => Ok (entries ++ [(name, data)])
  end.

End Zipfile.

(** ** app.py *)

Module App.
Import PyDict Py Docx Zipfile.

(** A row of a table, as [iterrows] yields it: column label to cell. *)
Definition Series := str -> str.

Record DataFrame := mk_DataFrame {
  columns : list str;
  iterrows : list Series }.

(** The value [mp_dict] keeps for a representative. *)
Record mp_info := mk_mp_info {
  Electorate : str;
  Salutation : str;
  First_name : str;
  Last_name : str;
  Fullname : str }.

(** The copy of a letter that goes into a bucket. *)
Record letter_copy := mk_letter {
  Submission_Date : str;
  Your_letter : str;
  POSTCODE : str;
  STATE : str }.

(** The truth value of a string or a list: non-empty. *)
Definition truthy {A} (s : list A) : bool :=
  match s with [] => false | _ :: _ => true end.

Definition newline : ascii := "010".
Definition dquote : ascii := "034".

(** app.py:11-21 *)
Definition parse_date (date_str : str) : Datetime.datetime :=
  match Strptime.strptime date_str (lit "%b %d, %Y") with
  | Some d => d
  | None =>
      match Strptime.strptime date_str (lit "%B %d, %Y") with
      | Some d => d
      | None => Datetime.min
      end
  end.

(** app.py:23-26 *)
Definition replace_mp_name_in_letter (letter_content salutation last_name : str)
  : str :=
  let mp_greeting := salutation ++ lit " " ++ last_name in
  replace (lit "[MP Name]") mp_greeting letter_content.

(** The body of the loop of app.py:39-66, for the letter at index [i] of
    [n] sorted letters. *)
Definition add_letter (mp : mp_info) (n : nat) (doc : Document)
           (il : nat * letter_copy) : result Document :=
  let (i, l) := il in
  bind (add_bold_paragraph doc (lit "Date: " ++ Submission_Date l))
    (fun doc =>
  let doc := add_empty_paragraph doc in
  let letter_content :=
    replace_mp_name_in_letter (Your_letter l) (Salutation mp) (Last_name mp) in
  bind (add_paragraph doc letter_content)
    (fun doc =>
  let doc := add_empty_paragraph doc in
  bind (add_bold_paragraph doc (POSTCODE l ++ lit ", " ++ STATE l))
    (fun doc =>
  Ok (if (Z.of_nat i <? Z.of_nat n - 1)%Z then add_page_break doc
      else doc)))).

(** app.py:37 *)
Definition sorted_by_date (letters : list letter_copy) : list letter_copy :=
  PySort.sorted (fun x => parse_date (Submission_Date x)) Datetime.ltb
                letters.

(** app.py:28-73; the result is the document that is saved, or the
    exception that a text of a letter raises. *)
Definition create_docx_for_electorate (electorate : str) (mp : mp_info)
           (letters : list letter_copy) : result Document :=
  let doc := set_normal_font new (lit "Roboto") in
  let sorted_letters := sorted_by_date letters in
  for_each (add_letter mp (length sorted_letters))
           (combine (seq 0 (length sorted_letters)) sorted_letters) doc.

(** app.py:82-84 *)
Definition mp_key_of (mp : Series) : str :=
  let electorate := mp (lit "State/Electorate") in
  let full_name := mp (lit "First name") ++ lit " " ++ mp (lit "Last name") in
  electorate ++ lit "_" ++ full_name.

Definition mp_info_of (mp : Series) : mp_info :=
  mk_mp_info (mp (lit "State/Electorate")) (mp (lit "Salutation"))
             (mp (lit "First name")) (mp (lit "Last name"))
             (mp (lit "First name") ++ lit " " ++ mp (lit "Last name")).

(** app.py:79-91 (and again app.py:233-244) *)
Definition build_mp_dict (mps_df : DataFrame) : dict mp_info :=
  fold_left (fun mp_dict mp => set (mp_key_of mp) (mp_info_of mp) mp_dict)
            (iterrows mps_df) [].

(** app.py:97-111: the candidate tokens of a letter. *)
Definition extract_electorates (letter : Series) : list str :=
  let electorate_raw := letter (lit "ELECTORATE") in
  let temp_electorates :=
    fold_left (fun temp part => temp ++ map strip (split "," part))
              (split newline electorate_raw) [] in
  let electorates :=
    map strip (filter (fun e => truthy (strip e)) temp_electorates) in
  let state := strip (letter (lit "STATE")) in
  if truthy state then electorates ++ [state] else electorates.

(** app.py:115 *)
Definition matching_mps (mp_dict : dict mp_info) (electorate : str)
  : list str :=
  filter (fun key => match get key mp_dict with
                     | Some info => eqb (Electorate info) electorate
                     | None => false
                     end)
         (keys mp_dict).

Definition letter_of (letter : Series) : letter_copy :=
  mk_letter (letter (lit "Submission Date")) (letter (lit "Your letter"))
            (letter (lit "POSTCODE")) (letter (lit "STATE")).

(** app.py:119-127 *)
Definition append_letter (electorate_letters : dict (list letter_copy))
           (mp_key : str) (l : letter_copy) : dict (list letter_copy) :=
  let electorate_letters :=
    if mem mp_key electorate_letters then electorate_letters
    else set mp_key [] electorate_letters in
  match get mp_key electorate_letters with
  | Some bucket => set mp_key (bucket ++ [l]) electorate_letters
  | None => electorate_letters   (* not reached: the bucket exists *)
  end.

(** app.py:118-127: the letter goes to each of the matching keys. *)
Definition for_mp_keys (l : letter_copy) (matching_mps : list str)
           (electorate_letters : dict (list letter_copy))
  : dict (list letter_copy) :=
  fold_left (fun electorate_letters mp_key =>
               append_letter electorate_letters mp_key l)
            matching_mps electorate_letters.

(** app.py:113-127: for each token of the letter. *)
Definition for_electorates (mp_dict : dict mp_info) (letter : Series)
           (electorates : list str)
           (electorate_letters : dict (list letter_copy))
  : dict (list letter_copy) :=
  fold_left (fun electorate_letters electorate =>
               for_mp_keys (letter_of letter)
                           (matching_mps mp_dict electorate)
                           electorate_letters)
            electorates electorate_letters.

(** app.py:95-127: for each letter. *)
Definition for_letters (mp_dict : dict mp_info) (rows : list Series)
           (electorate_letters : dict (list letter_copy))
  : dict (list letter_copy) :=
  fold_left (fun electorate_letters letter =>
               for_electorates mp_dict letter (extract_electorates letter)
                               electorate_letters)
            rows electorate_letters.

(** app.py:94-127: the assignment map. *)
Definition group_letters (mp_dict : dict mp_info) (letters_df : DataFrame)
  : dict (list letter_copy) :=
  for_letters mp_dict (iterrows letters_df) [].

(** app.py:129-136 *)
Definition generate (mp_dict : dict mp_info)
           (electorate_letters : dict (list letter_copy))
  : result (dict Document) :=
  for_each
    (fun results mp_key =>
       match get mp_key electorate_letters, get mp_key mp_dict with
       | Some letters, Some info =>
           bind (create_docx_for_electorate (Electorate info) info letters)
                (fun doc_buffer => Ok (set mp_key doc_buffer results))
       | _, _ => Ok results
       end)
    (keys mp_dict) [].

(** app.py:75-138 *)
Definition process_files (mps_df letters_df : DataFrame)
  : result (dict Document) :=
  let mp_dict := build_mp_dict mps_df in
  generate mp_dict (group_letters mp_dict letters_df).

(** The character class of the expression of app.py:152-153: less-than,
    greater-than, colon, double quote, slash, backslash, bar, question
    mark and star. *)
Definition forbidden (c : ascii) : bool :=
  existsb (Ascii.eqb c) (lit "<>:" ++ [dquote] ++ lit "/\|?*").

(** app.py:147-154 (and again app.py:297-304) *)
Definition filename_of (mp_dict : dict mp_info) (mp_key : str) : str :=
  let electorate :=
    match get mp_key mp_dict with
    | Some info => Electorate info | None => lit "Unknown" end in
  let fullname :=
    match get mp_key mp_dict with
    | Some info => Fullname info | None => lit "Unknown" end in
  let clean_electorate := re_sub_class forbidden electorate in
  let clean_fullname := re_sub_class forbidden fullname in
  clean_electorate ++ lit ", " ++ clean_fullname ++ lit ".docx".

(** app.py:140-158; the result is the list of archive entries written. *)
Definition create_zip_file (name_indexed : bool) (docx_files : dict Document)
           (mp_dict : dict mp_info) : result (list (str * Document)) :=
  for_each (fun zip_file kd =>
              writestr name_indexed zip_file
                       (filename_of mp_dict (fst kd)) (snd kd))
           docx_files [].

(** What [main] shows: the messages of [st.error], [st.success],
    [st.warning] and [st.info], and the downloads.  Titles, headers, the
    texts of [st.write], previews of the tables, the summary table and the
    labels of the download buttons are left out. *)
Inductive ui :=
| st_error (msg : str)
| st_success (msg : str)
| st_warning (msg : str)
| st_info (msg : str)
| st_download_button (file_name : str) (data : Document)
| st_download_archive (file_name : str) (entries : list (str * Document)).

Definition required_mp_columns : list str :=
  map lit ["Salutation"; "First name"; "Last name"; "State/Electorate"]%string.

Definition required_letter_columns : list str :=
  map lit ["ELECTORATE"; "Submission Date"; "Your letter"; "POSTCODE";
           "STATE"]%string.

(** [[col for col in required if col not in df.columns]] *)
Definition missing_cols (required : list str) (df : DataFrame) : list str :=
  filter (fun col => negb (existsb (eqb col) (columns df))) required.

(** [str(n)] of a length. *)
Definition decimal (n : nat) : str :=
  lit (NilZero.string_of_uint (Nat.to_uint n)).

(** app.py:324-326: what the [except] of the generation shows. *)
Definition processing_error (e : exn) : list ui :=
  [st_error (lit "Error processing files: " ++ message e)].

(** app.py:222-326: what follows a press of the generate button. *)
Definition on_generate (name_indexed : bool) (mps_df letters_df : DataFrame)
  : list ui :=
  match process_files mps_df letters_df with
  | Raise e => processing_error e
  | Ok [] =>
      [st_warning
         (lit "No matching electorates found between MPs and Letters files.")]
  | Ok docx_files =>
      let mp_dict := build_mp_dict mps_df in
      [st_success (lit "Generated " ++ decimal (length docx_files)
                       ++ lit " DOCX files!")]
      ++ map (fun kd => st_download_button (filename_of mp_dict (fst kd))
                                           (snd kd)) docx_files
      ++ match create_zip_file name_indexed docx_files mp_dict with
         | Ok zip_buffer =>
             [st_download_archive (lit "all_electorate_letters.zip")
                                  zip_buffer]
         | Raise e => processing_error e
         end
  end.

(** app.py:160-351, one run of the script: the two uploads, once read as
    tables, and whether the generate button was pressed. *)
Definition main (name_indexed : bool)
           (mps_file letters_file : option DataFrame)
           (generate_clicked : bool) : list ui :=
  match mps_file, letters_file with
  | Some mps_df, Some letters_df =>
      let missing_mp_cols := missing_cols required_mp_columns mps_df in
      let missing_letter_cols :=
        missing_cols required_letter_columns letters_df in
      if truthy missing_mp_cols then
        [st_error (lit "MPs CSV is missing required columns: "
                       ++ join (lit ", ") missing_mp_cols)]
      else if truthy missing_letter_cols then
        [st_error (lit "Letters CSV is missing required columns: "
                       ++ join (lit ", ") missing_letter_cols)]
      else
        [st_success (lit "Files uploaded successfully!");
         st_info (lit "**MPs loaded:** "
                      ++ decimal (length (iterrows mps_df)) ++ lit " records");
         st_info (lit "**Letters loaded:** "
                      ++ decimal (length (iterrows letters_df))
                      ++ lit " records")]
        ++ (if generate_clicked
            then on_generate name_indexed mps_df letters_df else [])
  | _, _ => [st_info (lit "Please upload both CSV files to begin processing.")]
  end.

End App.

Import PyDict Py App.

(** ** Vocabulary of the properties *)

Module Spec.

(** The tokens that come from the ELECTORATE field, in the words of the
    specification: split on newlines, then on commas, trim, drop the
    empty ones. *)
Definition electorate_tokens (raw : str) : list str :=
  filter truthy (map strip (flat_map (split ",") (split newline raw))).

(** The number of (letter, representative) pairs of an assignment map. *)
Definition total_pairs (electorate_letters : dict (list letter_copy)) : nat :=
  list_sum (map (fun kv => length (snd kv)) electorate_letters).

(** How many times [x] occurs in [l]. *)
Definition occurrences (x : str) (l : list str) : nat :=
  length (filter (eqb x) l).

(** [l] without its repetitions. *)
Fixpoint distinct (l : list str) : list str :=
  match l with
  | [] => []
  | x :: l' => x :: filter (fun y => negb (eqb x y)) (distinct l')
  end.

(** The representative keys that match at least one token of a letter. *)
Definition matching_keys (mp_dict : dict mp_info) (letter : Series)
  : list str :=
  distinct (flat_map (matching_mps mp_dict) (extract_electorates letter)).

(** What a bucket holds of one letter: a copy for each occurrence of the
    representative's electorate among the tokens of the letter. *)
Definition copies_for (info : mp_info) (letter : Series) : list letter_copy :=
  repeat (letter_of letter)
         (occurrences (Electorate info) (extract_electorates letter)).

(** The parts of a date text: a run of whitespace; a day of the month as
    the directive [%d] reads it (01 to 31, or 1 to 9); a year of four
    digits; and the number of the month that a name, in any case, stands
    for in a list of month names. *)
Definition blank (w : str) : bool := truthy w && forallb isspace w.

Definition day_text (d : str) : bool :=
  match d with
  | [a] => Regex.range "1" "9" a
  | [a; b] =>
      (Ascii.eqb a "3" && Regex.range "0" "1" b)
      || (Regex.range "1" "2" a && Regex.digit b)
      || (Ascii.eqb a "0" && Regex.range "1" "9" b)
  | _ => false
  end.

Definition year_text (y : str) : bool :=
  (length y =? 4) && forallb Regex.digit y.

Definition month_of (names : list str) (u : str) : option Z :=
  match u with
  | [] => None
  | _ :: _ => Strptime.index (map Regex.lower u) names
  end.

(** The expression of a format "%b %d, %Y" or "%B %d, %Y", for the
    directive [c] of the month and the month names [l], longest first. *)
Definition date_re (c : ascii) (l : list str) : Regex.regex :=
  Regex.Seq (Regex.Group c (Regex.alts (map Regex.literal l)))
    (Regex.Seq (Regex.Plus isspace)
       (Regex.Seq (Regex.Group "d" Strptime.day_re)
          (Regex.Seq (Regex.Lit ",")
             (Regex.Seq (Regex.Plus isspace)
                (Regex.Seq (Regex.Group "Y" Strptime.year_re) Regex.Eps))))).

(** No name is the start of another, and every name is in lower case and
    not empty. *)
Definition prefix_free (l : list str) : bool :=
  forallb (fun a => forallb (fun b => implb (startswith a b) (eqb a b)) l) l.

Definition lower_case (l : list str) : bool :=
  forallb (fun n => truthy n && eqb (map Regex.lower n) n) l.

(** [s] reads "month day, year" with the month taken from [names], and
    [dt] is that date. *)
Definition date_text (names : list str) (s : str) (dt : Datetime.datetime)
  : Prop :=
  exists u w1 d w2 y m dv yv,
    s = u ++ w1 ++ d ++ [","%char] ++ w2 ++ y
    /\ month_of names u = Some m
    /\ blank w1 = true /\ day_text d = true
    /\ blank w2 = true /\ year_text y = true
    /\ Strptime.digits_value 0 d = Some dv
    /\ Strptime.digits_value 0 y = Some yv
    /\ Datetime.make yv m dv = Some dt.

(** A date string that one of the two formats of [parse_date] accepts. *)
Definition parseable (date_str : str) : bool :=
  match Strptime.strptime date_str (lit "%b %d, %Y"),
        Strptime.strptime date_str (lit "%B %d, %Y") with
  | None, None => false
  | _, _ => true
  end.

(** The parsed submission date of a letter, the key of the sort. *)
Definition date_of (l : letter_copy) : Datetime.datetime :=
  parse_date (Submission_Date l).

(** The name under which the document of a representative is archived,
    in the words of the specification. *)
Definition entry_name (info : mp_info) : str :=
  filter (fun c => negb (forbidden c)) (Electorate info) ++ lit ", "
  ++ filter (fun c => negb (forbidden c)) (Fullname info) ++ lit ".docx".

(** The part of a document that renders one letter (app.py:40-62). *)
Definition letter_blocks (mp : mp_info) (l : letter_copy)
  : list Docx.block :=
  [Docx.bold_paragraph (lit "Date: " ++ Submission_Date l);
   Docx.Paragraph [];
   Docx.plain_paragraph
     (replace_mp_name_in_letter (Your_letter l) (Salutation mp) (Last_name mp));
   Docx.Paragraph [];
   Docx.bold_paragraph (POSTCODE l ++ lit ", " ++ STATE l)].

(** A letter whose three texts (the date line, the body after the
    substitution, the line of the postcode and state) lxml accepts. *)
Definition renderable (mp : mp_info) (l : letter_copy) : bool :=
  Docx.xml_compatible (lit "Date: " ++ Submission_Date l)
  && Docx.xml_compatible
       (replace_mp_name_in_letter (Your_letter l) (Salutation mp)
                                  (Last_name mp))
  && Docx.xml_compatible (POSTCODE l ++ lit ", " ++ STATE l).

(** The document of a bucket: the font, and the blocks of the letters in
    sorted order with the paragraph of a page break between two letters. *)
Definition rendered (mp : mp_info) (letters : list letter_copy)
  : Docx.Document :=
  Docx.mk_document
    (Some (lit "Roboto"))
    (join [Docx.PageBreak] (map (letter_blocks mp) (sorted_by_date letters))).

(** The documents of the representatives that have a bucket, in the order
    of the dictionary. *)
Definition documents (mp_dict : dict mp_info)
           (electorate_letters : dict (list letter_copy))
  : dict Docx.Document :=
  fold_left
    (fun results mp_key =>
       match get mp_key electorate_letters, get mp_key mp_dict with
       | Some letters, Some info => set mp_key (rendered info letters) results
       | _, _ => results
       end)
    (keys mp_dict) [].

(** Every letter of every bucket can be rendered for the representative of
    the bucket. *)
Definition all_renderable (mp_dict : dict mp_info)
           (electorate_letters : dict (list letter_copy)) : bool :=
  forallb
    (fun mp_key =>
       match get mp_key electorate_letters, get mp_key mp_dict with
       | Some letters, Some info => forallb (renderable info) letters
       | _, _ => true
       end)
    (keys mp_dict).

(** The name that [create_zip_file] gives to [writestr] for a
    representative, and whether the archive keeps it in full. *)
Definition nul_free (info : mp_info) : Prop :=
  ~ In Zipfile.nul (Electorate info) /\ ~ In Zipfile.nul (Fullname info).

End Spec.

(** ** Inputs used by the examples *)

Module Examples.

(** A row of a table with the four representative columns. *)
Definition mp_row (salutation first_name last_name electorate : str)
  : Series :=
  fun col =>
    if eqb col (lit "Salutation") then salutation
    else if eqb col (lit "First name") then first_name
    else if eqb col (lit "Last name") then last_name
    else if eqb col (lit "State/Electorate") then electorate
    else [].

(** A row of a table with the five letter columns. *)
Definition letter_row (electorate date body postcode state : str) : Series :=
  fun col =>
    if eqb col (lit "ELECTORATE") then electorate
    else if eqb col (lit "Submission Date") then date
    else if eqb col (lit "Your letter") then body
    else if eqb col (lit "POSTCODE") then postcode
    else if eqb col (lit "STATE") then state
    else [].

Definition mps_table (rows : list Series) : DataFrame :=
  mk_DataFrame required_mp_columns rows.

Definition letters_table (rows : list Series) : DataFrame :=
  mk_DataFrame required_letter_columns rows.

(** One senator for NSW, and one letter whose ELECTORATE and STATE are
    both NSW. *)
Definition nsw_senator : DataFrame :=
  mps_table [mp_row (lit "Senator") (lit "Jennifer") (lit "McAllister")
                    (lit "NSW")].

Definition nsw_twice : DataFrame :=
  letters_table [letter_row (lit "NSW") (lit "Jun 28, 2025")
                            (lit "Dear [MP Name], ...") (lit "2154")
                            (lit "NSW")].

(** Two rows with the same electorate and name, and two rows whose keys
    collide around the separator. *)
Definition same_name_twice : DataFrame :=
  mps_table [mp_row (lit "Mr") (lit "Sam") (lit "Lee") (lit "Bean");
             mp_row (lit "Dr") (lit "Sam") (lit "Lee") (lit "Bean")].

Definition colliding_keys : DataFrame :=
  mps_table [mp_row (lit "Ms") (lit "C") (lit "D") (lit "A_B");
             mp_row (lit "Mr") (lit "B_C") (lit "D") (lit "A")].

Definition one_letter (electorate : str) : DataFrame :=
  letters_table [letter_row electorate (lit "Jun 28, 2025")
                            (lit "Dear [MP Name], ...") (lit "2154") []].

Definition dated (date : str) : letter_copy :=
  mk_letter date (lit "Dear [MP Name], ...") (lit "2154") (lit "NSW").

(** A letter dated on the first day of year 1, then one with no date. *)
Definition year_one_first : list letter_copy :=
  [dated (lit "Jan 1, 0001"); dated (lit "not a date")].

(** The dates of the sorting example of the specification. *)
Definition three_dates : list letter_copy :=
  [dated (lit "Jul 10, 2025"); dated (lit "Jun 28, 2025");
   dated (lit "not a date")].

(** A representative table without the Salutation column and a letter
    table without the STATE column. *)
Definition no_salutation : DataFrame :=
  mk_DataFrame (map lit ["First name"; "Last name"; "State/Electorate"]%string)
               [].

Definition no_state : DataFrame :=
  mk_DataFrame (map lit ["ELECTORATE"; "Submission Date"; "Your letter";
                         "POSTCODE"]%string) [].

(** The names of the filename example of the specification. *)
Definition ryan_test : DataFrame :=
  mps_table [mp_row (lit "Ms") (lit "Pat") (lit "O" ++ [dquote] ++ lit "Brien")
                    (lit "Ryan/Test")].

End Examples.

(** ** The summary table of [main] (app.py:250-288) *)

Module Summary.

(** app.py:270-274: one more letter for this token. *)
Definition count_electorate (letter_counts : dict nat) (electorate : str)
  : dict nat :=
  match get electorate letter_counts with
  | Some n => set electorate (n + 1) letter_counts
  | None => set electorate 1 letter_counts
  end.

(** app.py:253-274 *)
Definition letter_counts_of (letters_df : DataFrame) : dict nat :=
  fold_left
    (fun letter_counts letter =>
       fold_left count_electorate (extract_electorates letter) letter_counts)
    (iterrows letters_df) [].

(** A row of the summary: the columns Electorate, MP and Letters. *)
Record summary_row := mk_summary_row {
  row_Electorate : str;
  row_MP : str;
  row_Letters : nat }.

(** app.py:276-285 *)
Definition summary_data (docx_files : dict Docx.Document)
           (mp_dict : dict mp_info) (letter_counts : dict nat)
  : list summary_row :=
  map (fun kd =>
         let mp_key := fst kd in
         let electorate :=
           match get mp_key mp_dict with
           | Some info => Electorate info | None => lit "Unknown" end in
         let fullname :=
           match get mp_key mp_dict with
           | Some info => Fullname info | None => lit "Unknown" end in
         let letter_count := get_default electorate 0 letter_counts in
         mk_summary_row electorate fullname letter_count)
      docx_files.

End Summary.

(** ** Further vocabulary *)

Module Shape.

(** A paragraph that consists of a page break. *)
Definition is_page_break (b : Docx.block) : bool :=
  match b with
  | Docx.Paragraph [Docx.page_break] => true
  | _ => false
  end.

(** Something offered for download. *)
Definition is_download (e : ui) : bool :=
  match e with
  | st_download_button _ _ | st_download_archive _ _ => true
  | _ => false
  end.


(** A table of letters with the given rows. *)
Definition letters_with (like : DataFrame) (rows : list Series) : DataFrame :=
  mk_DataFrame (columns like) rows.

(** [t] occurs in [s] as a run of consecutive characters. *)
Definition within (t s : str) : Prop := exists pre post, s = pre ++ t ++ post.

(** A token as the ELECTORATE field can give one: not empty, no whitespace
    at either end, and neither a comma nor a newline inside. *)
Definition plain_token (t : str) : Prop :=
  t <> [] /\ strip t = t /\ ~ In ","%char t /\ ~ In newline t.

End Shape.

(** ** Inputs used by the further examples *)

Module MoreExamples.
Import Examples.

(** Two representatives of different electorates. *)
Definition bruce_and_hotham : DataFrame :=
  mps_table [mp_row (lit "Mr") (lit "Ann") (lit "Lee") (lit "Bruce");
             mp_row (lit "Ms") (lit "Bob") (lit "Ray") (lit "Hotham")].

(** A letter for Bruce, with no state. *)
Definition bruce_letter : Series :=
  letter_row (lit "Bruce") (lit "Jul 10, 2025") (lit "Dear [MP Name], ...")
             (lit "3175") [].

(** Two letters whose submission dates are in neither format. *)
Definition undated : list letter_copy :=
  [dated (lit "not a date"); dated (lit "28/06/2025")].

(** A letter for NSW with a form feed (U+000C) in its body. *)
Definition form_feed : ascii := "012".

Definition form_feed_letter : DataFrame :=
  letters_table [letter_row (lit "NSW") (lit "Jun 28, 2025")
                            (lit "Dear [MP Name]," ++ [form_feed] ++ lit "...")
                            (lit "2154") []].

(** A representative whose electorate has a character U+0000, and one
    whose electorate starts with it. *)
Definition nul_inside : DataFrame :=
  mps_table [mp_row (lit "Ms") (lit "X") (lit "Y")
                    (lit "A" ++ [Zipfile.nul] ++ lit "B")].

Definition nul_first : DataFrame :=
  mps_table [mp_row (lit "Ms") (lit "X") (lit "Y") (Zipfile.nul :: lit "B")].

End MoreExamples.

(** * Properties *)

Unset Implicit Arguments.

(** ** Strings *)

Section StrLemmas.

Lemma eqb_eq (a b : str) : eqb a b = true <-> a = b.
Proof.
  revert b; induction a as [|x a IH]; intros [|y b]; simpl;
    try (split; [discriminate | discriminate]); try tauto.
  rewrite andb_true_iff, Ascii.eqb_eq, IH.
  split; [intros [-> ->]; reflexivity | intros [= -> ->]; auto].
Qed.

Lemma eqb_refl (a : str) : eqb a a = true.
Proof. apply eqb_eq; reflexivity. Qed.

Lemma eqb_neq (a b : str) : eqb a b = false <-> a <> b.
Proof.
  rewrite <- eqb_eq. destruct (eqb a b); split; congruence.
Qed.

Lemma eqb_sym (a b : str) : eqb a b = eqb b a.
Proof.
  destruct (eqb a b) eqn:E.
  - apply eqb_eq in E; subst; symmetry; apply eqb_refl.
  - destruct (eqb b a) eqn:E'; auto.
    apply eqb_eq in E'; subst. rewrite eqb_refl in E; discriminate.
Qed.

Lemma lstrip_idem (s : str) : lstrip (lstrip s) = lstrip s.
Proof.
  induction s as [|c s IH]; simpl; auto.
  destruct (isspace c) eqn:E; auto. simpl; rewrite E; reflexivity.
Qed.

Lemma lstrip_app_nonspace (x : str) (c : ascii) (y : str) :
  isspace c = false -> lstrip (x ++ c :: y) = lstrip x ++ c :: y.
Proof.
  intros Hc. induction x as [|a x IH]; simpl.
  - rewrite Hc; reflexivity.
  - destruct (isspace a); auto.
Qed.

Lemma lstrip_all_space (s : str) : forallb isspace s = true -> lstrip s = [].
Proof.
  induction s as [|c s IH]; simpl; auto.
  intros H; apply andb_true_iff in H as [-> H]; auto.
Qed.

Lemma lstrip_fixed (s : str) :
  lstrip s = s <-> match s with [] => True | c :: _ => isspace c = false end.
Proof.
  destruct s as [|c s]; simpl; [tauto|].
  destruct (isspace c) eqn:E; split; auto; try discriminate.
  intros H. assert (L : length (lstrip s) = S (length s)) by (rewrite H; auto).
  assert (length (lstrip s) <= length s).
  { clear. induction s as [|a s IH]; simpl; auto.
    destruct (isspace a); simpl; lia. }
  lia.
Qed.

Lemma rstrip_cons_nonspace (c : ascii) (s : str) :
  isspace c = false -> rstrip (c :: s) = c :: rstrip s.
Proof.
  intros Hc. unfold rstrip. simpl.
  rewrite (lstrip_app_nonspace (rev s) c [] Hc), rev_app_distr. reflexivity.
Qed.

Lemma rstrip_idem (s : str) : rstrip (rstrip s) = rstrip s.
Proof.
  unfold rstrip. rewrite rev_involutive, lstrip_idem. reflexivity.
Qed.

Lemma lstrip_strip (s : str) : lstrip (strip s) = strip s.
Proof.
  unfold strip. apply lstrip_fixed.
  pose proof (lstrip_idem s) as Hl. apply lstrip_fixed in Hl.
  destruct (lstrip s) as [|c t] eqn:E; [reflexivity|].
  rewrite (rstrip_cons_nonspace c t Hl). exact Hl.
Qed.

(** Stripping twice is stripping once. *)
Lemma strip_idem (s : str) : strip (strip s) = strip s.
Proof.
  unfold strip at 1. rewrite lstrip_strip.
  unfold strip. apply rstrip_idem.
Qed.

Lemma strip_all_space (s : str) : forallb isspace s = true -> strip s = [].
Proof.
  intros H. unfold strip. rewrite (lstrip_all_space _ H). reflexivity.
Qed.

(** A stripped string neither starts nor ends with whitespace. *)
Lemma strip_ends (s : str) :
  match strip s with [] => True | c :: _ => isspace c = false end
  /\ match rev (strip s) with [] => True | c :: _ => isspace c = false end.
Proof.
  split.
  - apply lstrip_fixed, lstrip_strip.
  - unfold strip, rstrip. rewrite rev_involutive.
    apply lstrip_fixed, lstrip_idem.
Qed.

End StrLemmas.

Section SplitLemmas.

Lemma split_nonempty (sep : ascii) (s : str) : split sep s <> [].
Proof.
  destruct s as [|c s]; simpl; [discriminate|].
  destruct (Ascii.eqb c sep); [discriminate|].
  destruct (split sep s); discriminate.
Qed.

(** Joining the pieces with the separator gives the string back. *)
Lemma join_split (sep : ascii) (s : str) : join [sep] (split sep s) = s.
Proof.
  induction s as [|c s IH]; simpl; auto.
  destruct (Ascii.eqb c sep) eqn:E.
  - apply Ascii.eqb_eq in E; subst c.
    pose proof (split_nonempty sep s) as Hn.
    destruct (split sep s) as [|hd tl]; [congruence|].
    simpl in *. rewrite IH. reflexivity.
  - pose proof (split_nonempty sep s) as Hn.
    destruct (split sep s) as [|hd tl]; [congruence|].
    destruct tl; simpl in *; rewrite <- IH; reflexivity.
Qed.

(** No piece contains the separator. *)
Lemma split_no_sep (sep : ascii) (s : str) :
  Forall (fun piece => ~ In sep piece) (split sep s).
Proof.
  induction s as [|c s IH]; simpl.
  - constructor; auto.
  - destruct (Ascii.eqb c sep) eqn:E.
    + constructor; auto.
    + apply Ascii.eqb_neq in E.
      destruct (split sep s) as [|hd tl]; [repeat constructor; simpl; intuition|].
      inversion IH; subst. constructor; auto.
      simpl; intros [H|H]; auto.
  Qed.

(** A property of all characters of a string holds of all characters of
    its pieces. *)
Lemma split_forallb (P : ascii -> bool) (sep : ascii) (s : str) :
  forallb P s = true ->
  Forall (fun piece => forallb P piece = true) (split sep s).
Proof.
  induction s as [|c s IH]; simpl; intros H.
  - repeat constructor.
  - apply andb_true_iff in H as [Hc Hs]. specialize (IH Hs).
    destruct (Ascii.eqb c sep).
    + constructor; auto.
    + destruct (split sep s) as [|hd tl]; [repeat constructor; simpl; rewrite Hc; auto|].
      inversion IH; subst. constructor; auto. simpl. rewrite Hc; auto.
Qed.

Lemma fold_left_extend {A B} (f : A -> list B) (l : list A) (acc : list B) :
  fold_left (fun temp part => temp ++ f part) l acc = acc ++ flat_map f l.
Proof.
  revert acc; induction l as [|x l IH]; intros acc; simpl.
  - rewrite app_nil_r; reflexivity.
  - rewrite IH, app_assoc; reflexivity.
Qed.

Lemma flat_map_map_inner {A B C} (g : B -> C) (f : A -> list B) (l : list A) :
  flat_map (fun x => map g (f x)) l = map g (flat_map f l).
Proof.
  induction l as [|x l IH]; simpl; auto. rewrite map_app, IH; reflexivity.
Qed.

Lemma filter_strip_stripped (l : list str) :
  map strip (filter (fun e => truthy (strip e)) (map strip l))
  = filter truthy (map strip l).
Proof.
  induction l as [|x l IH]; simpl; auto.
  rewrite strip_idem. destruct (truthy (strip x)); simpl.
  - rewrite strip_idem, IH; reflexivity.
  - exact IH.
Qed.

End SplitLemmas.

(** ** Token extraction (app.py:97-111) *)

Section Tokens.

Import Spec.

Lemma extract_electorates_eq (letter : Series) :
  extract_electorates letter =
    electorate_tokens (letter (lit "ELECTORATE"))
    ++ (if truthy (strip (letter (lit "STATE")))
        then [strip (letter (lit "STATE"))] else []).
Proof.
  unfold extract_electorates, electorate_tokens.
  rewrite fold_left_extend, app_nil_l.
  rewrite flat_map_map_inner, filter_strip_stripped.
  destruct (truthy (strip (letter (lit "STATE")))); auto.
  rewrite app_nil_r; reflexivity.
Qed.

Lemma electorate_tokens_blank (raw : str) :
  forallb isspace raw = true -> electorate_tokens raw = [].
Proof.
  intros H. unfold electorate_tokens.
  assert (Hall : Forall (fun p => forallb isspace p = true)
                        (flat_map (split ",") (split newline raw))).
  { apply Forall_flat_map.
    eapply Forall_impl; [|apply (split_forallb isspace newline raw H)].
    intros p Hp. apply split_forallb; exact Hp. }
  induction Hall as [|p l Hp _ IH]; simpl; auto.
  rewrite (strip_all_space _ Hp). exact IH.
Qed.

(** Every token is non-empty and has no whitespace at either end. *)
Lemma extract_electorates_trimmed (letter : Series) :
  Forall (fun t => truthy t = true /\ strip t = t) (extract_electorates letter).
Proof.
  rewrite extract_electorates_eq. apply Forall_app; split.
  - unfold electorate_tokens.
    induction (flat_map (split ",") (split newline (letter (lit "ELECTORATE"))))
      as [|x l IH]; simpl; auto.
    destruct (truthy (strip x)) eqn:E; auto.
    constructor; auto. split; auto. apply strip_idem.
  - destruct (truthy (strip (letter (lit "STATE")))) eqn:E; auto.
    constructor; auto. split; auto. apply strip_idem.
Qed.

(** C2. The candidate tokens of a letter are the ELECTORATE field split on
    newlines, each segment split on commas, every token trimmed and the
    empty ones dropped, followed by the trimmed STATE field when that is
    not empty; an ELECTORATE field of whitespace only gives no token
    besides the state; and the field "A, B<newline>C" gives A, B, C. *)
Theorem extract_electorates_spec (letter : Series) :
  let raw := letter (lit "ELECTORATE") in
  let state := strip (letter (lit "STATE")) in
  extract_electorates letter =
    filter truthy (map strip (flat_map (split ",") (split newline raw)))
    ++ (if truthy state then [state] else [])
  /\ (forallb isspace raw = true ->
      extract_electorates letter = if truthy state then [state] else [])
  /\ (forall date body postcode,
        extract_electorates
          (Examples.letter_row (lit "A, B" ++ [newline] ++ lit "C")
                               date body postcode [])
        = [lit "A"; lit "B"; lit "C"]).
Proof.
  cbv zeta. split; [apply extract_electorates_eq|]. split.
  - intros H. rewrite extract_electorates_eq.
    fold (electorate_tokens (letter (lit "ELECTORATE"))).
    rewrite (electorate_tokens_blank _ H). reflexivity.
  - intros; reflexivity.
Qed.

Lemma extract_electorates_spec_witness :
  forallb isspace (lit "  ") = true
  /\ extract_electorates
       (Examples.letter_row (lit "  ") [] [] [] (lit " NSW "))
     = [lit "NSW"].
Proof.
  split; [reflexivity|].
  apply (proj1 (proj2 (extract_electorates_spec
           (Examples.letter_row (lit "  ") [] [] [] (lit " NSW "))))).
  reflexivity.
Defined.

End Tokens.

(** ** Replacement of a substring (app.py:23-26) *)

Section ReplaceLemmas.

Lemma startswith_app (p r : str) : startswith p (p ++ r) = true.
Proof.
  induction p as [|x p IH]; simpl; [destruct r; reflexivity|].
  rewrite Ascii.eqb_refl; exact IH.
Qed.

Lemma startswith_inv (p s : str) :
  startswith p s = true -> s = p ++ skipn (length p) s.
Proof.
  revert s; induction p as [|x p IH]; intros [|y s]; simpl; auto;
    try discriminate.
  intros H. apply andb_true_iff in H as [Hx Hp].
  apply Ascii.eqb_eq in Hx; subst y. f_equal. apply IH; exact Hp.
Qed.

Lemma startswith_prefix (p x y : str) :
  startswith p x = true -> startswith p (x ++ y) = true.
Proof.
  intros H. rewrite (startswith_inv p x H), <- app_assoc.
  apply startswith_app.
Qed.

Lemma join_cons_prefix {A} (sep hd : list A) (tl : list (list A)) :
  exists r, join sep (hd :: tl) = hd ++ r.
Proof.
  destruct tl as [|x tl]; simpl.
  - exists []. rewrite app_nil_r; reflexivity.
  - eexists; reflexivity.
Qed.

Lemma join_cons_cons {A} (sep : list A) (c : A) (hd : list A)
      (tl : list (list A)) :
  join sep ((c :: hd) :: tl) = c :: join sep (hd :: tl).
Proof. destruct tl; reflexivity. Qed.

Lemma join_nil_cons {A} (sep : list A) (l : list (list A)) :
  l <> [] -> join sep ([] :: l) = sep ++ join sep l.
Proof. destruct l; [congruence | reflexivity]. Qed.

Variables old new : str.
Hypothesis old_nonempty : old <> [].

Lemma split_scan_nonempty (skip : nat) (s : str) : split_scan old skip s <> [].
Proof.
  revert skip; induction s as [|c s IH]; intros skip; simpl; [discriminate|].
  destruct skip; [|apply IH].
  destruct (startswith old (c :: s)); [discriminate|].
  destruct (split_scan old 0 s); discriminate.
Qed.

(** The scan of [replace] puts [new] where the scan of [split] cuts. *)
Lemma replace_split_scan (skip : nat) (s : str) :
  replace_scan old new skip s = join new (split_scan old skip s).
Proof.
  revert skip; induction s as [|c s IH]; intros skip; simpl; auto.
  destruct skip; [|apply IH].
  destruct (startswith old (c :: s)).
  - rewrite join_nil_cons by apply split_scan_nonempty.
    rewrite IH; reflexivity.
  - specialize (IH 0). pose proof (split_scan_nonempty 0 s) as Hn.
    destruct (split_scan old 0 s) as [|hd tl]; [congruence|].
    rewrite join_cons_cons. f_equal; exact IH.
Qed.

(** The segments, joined again with [old], are the string scanned. *)
Lemma join_split_scan (skip : nat) (s : str) :
  join old (split_scan old skip s) = skipn skip s.
Proof.
  revert skip; induction s as [|c s IH]; intros skip; simpl.
  - destruct skip; reflexivity.
  - destruct skip; [|apply IH].
    destruct (startswith old (c :: s)) eqn:E.
    + rewrite join_nil_cons by apply split_scan_nonempty.
      rewrite IH. apply startswith_inv in E.
      destruct old as [|o old']; [congruence|].
      simpl in E. injection E as -> E.
      simpl. rewrite Nat.sub_0_r. rewrite E at 2. reflexivity.
    + specialize (IH 0). pose proof (split_scan_nonempty 0 s) as Hn.
      destruct (split_scan old 0 s) as [|hd tl]; [congruence|].
      rewrite join_cons_cons. simpl skipn in *. f_equal; exact IH.
Qed.

(** No segment contains [old]. *)
Lemma split_scan_free (skip : nat) (s : str) :
  Forall (fun seg => contains old seg = false) (split_scan old skip s).
Proof.
  revert skip; induction s as [|c s IH]; intros skip; simpl.
  - constructor; auto. simpl. destruct old; [congruence | reflexivity].
  - destruct skip; [|apply IH].
    destruct (startswith old (c :: s)) eqn:E.
    + constructor; [|apply IH].
      simpl. destruct old; [congruence | reflexivity].
    + pose proof (join_split_scan 0 s) as Hj. specialize (IH 0).
      destruct (split_scan old 0 s) as [|hd tl] eqn:Es.
      * exfalso; eapply split_scan_nonempty; eauto.
      * inversion IH as [|? ? Hhd Htl]; subst. constructor; auto.
        simpl. rewrite Hhd, orb_false_r.
        destruct (startswith old (c :: hd)) eqn:E'; auto.
        destruct (join_cons_prefix old hd tl) as [r Hr].
        simpl skipn in Hj.
        assert (Hs : s = hd ++ r) by (rewrite <- Hr; symmetry; exact Hj).
        apply (startswith_prefix _ _ r) in E'.
        simpl app in E'. rewrite <- Hs in E'. congruence.
Qed.

(** A string without [old] is a single segment. *)
Lemma split_scan_absent (s : str) :
  contains old s = false -> split_scan old 0 s = [s].
Proof.
  induction s as [|c s IH]; simpl; auto.
  intros H. apply orb_false_iff in H as [Hs Hc].
  rewrite Hs, (IH Hc). reflexivity.
Qed.

Lemma split_scan_skip (skip : nat) (s : str) :
  split_scan old skip s = split_scan old 0 (skipn skip s).
Proof.
  revert skip; induction s as [|c s IH]; intros [|n]; try reflexivity.
  simpl. apply IH.
Qed.

Lemma startswith_long (p x z : str) :
  length p <= length x -> startswith p (x ++ z) = startswith p x.
Proof.
  revert x; induction p as [|a p IH]; intros [|b x] H; simpl in *; auto; [lia|].
  rewrite IH by lia. reflexivity.
Qed.

Lemma contains_false_startswith (p s : str) :
  contains p s = false -> startswith p s = false.
Proof.
  destruct s; simpl; intros H; apply orb_false_iff in H as [H _]; exact H.
Qed.

Lemma startswith_nth_error (p s : str) (i : nat) :
  startswith p s = true -> i < length p -> nth_error s i = nth_error p i.
Proof.
  intros H Hi. rewrite (startswith_inv p s H).
  apply nth_error_app1; exact Hi.
Qed.

(** From here on the first character of [old] occurs nowhere else in it, as
    the bracket that opens "[MP Name]": two occurrences cannot overlap. *)
Hypothesis old_first_unique :
  match old with [] => False | c :: t => ~ In c t end.

Lemma startswith_no_overlap (x y : str) :
  x <> [] -> contains old x = false -> startswith old (x ++ old ++ y) = false.
Proof.
  intros Hx Hc. destruct old as [|c t] eqn:Eo; [contradiction|].
  destruct (le_dec (length (c :: t)) (length x)) as [Hle|Hgt].
  - rewrite startswith_long by exact Hle.
    apply contains_false_startswith; exact Hc.
  - destruct (startswith (c :: t) (x ++ (c :: t) ++ y)) eqn:E; auto.
    exfalso.
    apply startswith_nth_error with (i := length x) in E; [|simpl in *; lia].
    rewrite nth_error_app2, Nat.sub_diag in E by lia.
    destruct x as [|a x]; [congruence|].
    simpl in E. symmetry in E. apply nth_error_In in E.
    exact (old_first_unique E).
Qed.

(** A segment without [old], followed by [old], is cut off as it is. *)
Lemma split_scan_segment (x y : str) :
  contains old x = false ->
  split_scan old 0 (x ++ old ++ y) = x :: split_scan old 0 y.
Proof.
  induction x as [|a x IH]; intros Hc.
  - simpl app. destruct old as [|c t] eqn:Eo; [contradiction|].
    change (split_scan (c :: t) 0 ((c :: t) ++ y))
      with (if startswith (c :: t) ((c :: t) ++ y)
            then [] :: split_scan (c :: t) (length (c :: t) - 1) (t ++ y)
            else match split_scan (c :: t) 0 (t ++ y) with
                 | hd :: tl => (c :: hd) :: tl
                 | [] => [[c]]
                 end).
    rewrite startswith_app, <- Eo, split_scan_skip, Eo. simpl length.
    replace (S (length t) - 1) with (length t) by lia.
    rewrite skipn_app, skipn_all, Nat.sub_diag. reflexivity.
  - pose proof (startswith_no_overlap (a :: x) y) as Hno.
    change ((a :: x) ++ old ++ y) with (a :: (x ++ old ++ y)) in *.
    simpl split_scan. rewrite Hno; [|discriminate | exact Hc].
    simpl in Hc. apply orb_false_iff in Hc as [_ Hc].
    rewrite (IH Hc). reflexivity.
Qed.

(** Segments without [old], joined with [old], are cut into themselves. *)
Lemma split_join_free (segs : list str) :
  segs <> [] -> Forall (fun seg => contains old seg = false) segs ->
  split_scan old 0 (join old segs) = segs.
Proof.
  intros Hne H. induction H as [|x l Hx Hl IH]; [congruence|].
  destruct l as [|z l].
  - simpl. apply split_scan_absent; exact Hx.
  - change (join old (x :: z :: l)) with (x ++ old ++ join old (z :: l)).
    rewrite split_scan_segment by exact Hx.
    rewrite IH by discriminate. reflexivity.
Qed.

End ReplaceLemmas.

Section Placeholder.

(** C4. Cut the letter body at every occurrence of "[MP Name]": joining the
    segments with "[MP Name]" gives the body back, no segment contains
    "[MP Name]", and the substitution is the same segments joined with the
    salutation, one space and the last name.  Conversely, whatever segments
    without "[MP Name]" a body is made of, joined with "[MP Name]", the
    substitution is these segments joined with the salutation, one space
    and the last name.  So every occurrence is replaced, the rest of the
    body is unchanged, and a body without the token is returned as it
    is. *)
Theorem replace_mp_name_in_letter_spec (letter_content salutation last_name : str) :
  let placeholder := lit "[MP Name]" in
  let segments := split_str placeholder letter_content in
  join placeholder segments = letter_content
  /\ Forall (fun seg => contains placeholder seg = false) segments
  /\ replace_mp_name_in_letter letter_content salutation last_name
     = join (salutation ++ lit " " ++ last_name) segments
  /\ (forall segs,
        segs <> [] ->
        Forall (fun seg => contains placeholder seg = false) segs ->
        replace_mp_name_in_letter (join placeholder segs) salutation last_name
        = join (salutation ++ lit " " ++ last_name) segs)
  /\ (contains placeholder letter_content = false ->
      replace_mp_name_in_letter letter_content salutation last_name
      = letter_content).
Proof.
  cbv zeta.
  assert (Hne : lit "[MP Name]" <> []) by discriminate.
  assert (Hfirst : match lit "[MP Name]" with
                   | [] => False
                   | c :: t => ~ In c t
                   end).
  { simpl. intuition discriminate. }
  assert (Hrep : replace_mp_name_in_letter letter_content salutation last_name
                 = join (salutation ++ lit " " ++ last_name)
                        (split_str (lit "[MP Name]") letter_content)).
  { unfold replace_mp_name_in_letter, split_str.
    rewrite <- replace_split_scan. reflexivity. }
  split; [|split; [|split; [|split]]].
  - exact (join_split_scan (lit "[MP Name]") Hne 0 letter_content).
  - exact (split_scan_free (lit "[MP Name]") Hne 0 letter_content).
  - exact Hrep.
  - intros segs Hsegs Hfree.
    unfold replace_mp_name_in_letter, replace. simpl lit at 1.
    rewrite replace_split_scan.
    rewrite (split_join_free (lit "[MP Name]") Hne Hfirst segs Hsegs Hfree).
    reflexivity.
  - intros H. rewrite Hrep. unfold split_str.
    rewrite (split_scan_absent _ _ H). reflexivity.
Qed.

Lemma replace_mp_name_in_letter_spec_witness :
  contains (lit "[MP Name]") (lit "Dear [Name], [MP]") = false
  /\ replace_mp_name_in_letter (lit "Dear [Name], [MP]") (lit "Mr") (lit "Smith")
     = lit "Dear [Name], [MP]".
Proof.
  split; [reflexivity|].
  apply (proj2 (proj2 (proj2 (proj2 (replace_mp_name_in_letter_spec
           (lit "Dear [Name], [MP]") (lit "Mr") (lit "Smith")))))).
  reflexivity.
Defined.

(** The example of the specification, and a body with two occurrences. *)
Example replace_mp_name_twice :
  replace_mp_name_in_letter (lit "Dear [MP Name], ... yours, [MP Name]")
                            (lit "Mr") (lit "Smith")
  = lit "Dear Mr Smith, ... yours, Mr Smith".
Proof. reflexivity. Qed.

End Placeholder.

(** ** Dictionaries *)

Section DictLemmas.
Context {V : Type}.
Implicit Types (d : dict V) (k : str) (v : V).

Lemma get_set_same k v d : get k (set k v d) = Some v.
Proof.
  induction d as [|[k' v'] d IH]; simpl.
  - rewrite eqb_refl; reflexivity.
  - destruct (eqb k' k) eqn:E; simpl; rewrite E; auto.
Qed.

Lemma get_set_other k k' v d : k <> k' -> get k' (set k v d) = get k' d.
Proof.
  intros Hne. induction d as [|[k0 v0] d IH]; simpl.
  - apply eqb_neq in Hne. rewrite Hne; reflexivity.
  - destruct (eqb k0 k) eqn:E; simpl.
    + apply eqb_eq in E; subst k0.
      apply eqb_neq in Hne. rewrite Hne; reflexivity.
    + rewrite IH; reflexivity.
Qed.

Lemma get_set k k' v d :
  get k' (set k v d) = if eqb k k' then Some v else get k' d.
Proof.
  destruct (eqb k k') eqn:E.
  - apply eqb_eq in E; subst. apply get_set_same.
  - apply eqb_neq in E. apply get_set_other; exact E.
Qed.

Lemma get_None_keys k d : get k d = None <-> ~ In k (keys d).
Proof.
  induction d as [|[k' v'] d IH]; simpl; [tauto|].
  destruct (eqb k' k) eqn:E.
  - apply eqb_eq in E; subst. split; [discriminate | tauto].
  - apply eqb_neq in E. rewrite IH. tauto.
Qed.

Lemma get_Some_keys k d : In k (keys d) <-> exists v, get k d = Some v.
Proof.
  pose proof (get_None_keys k d) as H.
  destruct (get k d) as [v|] eqn:E.
  - split; [eauto|]. intros _.
    destruct (in_dec (list_eq_dec ascii_dec) k (keys d)); auto.
    exfalso. destruct H as [_ H]. specialize (H n). discriminate.
  - split; [intros Hin; exfalso; apply H; auto | intros [v Hv]; discriminate].
Qed.

Lemma get_In k v d : get k d = Some v -> In (k, v) d.
Proof.
  induction d as [|[k' v'] d IH]; simpl; [discriminate|].
  destruct (eqb k' k) eqn:E; auto.
  apply eqb_eq in E; subst. intros [= ->]; auto.
Qed.

Lemma In_get k v d : NoDup (keys d) -> In (k, v) d -> get k d = Some v.
Proof.
  induction d as [|[k' v'] d IH]; simpl; [tauto|].
  intros Hnd [H|H]; inversion Hnd as [|? ? Hnotin Hnd']; subst.
  - injection H as -> ->. rewrite eqb_refl; reflexivity.
  - destruct (eqb k' k) eqn:E; auto.
    apply eqb_eq in E; subst. exfalso. apply Hnotin.
    change k with (fst (k, v)). apply in_map; exact H.
Qed.

(** Assigning to a key keeps the order of the keys; a new key goes last. *)
Lemma keys_set k v d :
  keys (set k v d) = if mem k d then keys d else keys d ++ [k].
Proof.
  unfold mem. induction d as [|[k' v'] d IH]; simpl; auto.
  destruct (eqb k' k) eqn:E; simpl; auto.
  rewrite IH. destruct (get k d); reflexivity.
Qed.

Lemma mem_true k d : mem k d = true <-> In k (keys d).
Proof.
  unfold mem. rewrite get_Some_keys.
  destruct (get k d); split; eauto; try discriminate.
  intros [v Hv]; discriminate.
Qed.

Lemma NoDup_keys_set k v d : NoDup (keys d) -> NoDup (keys (set k v d)).
Proof.
  intros H. rewrite keys_set. destruct (mem k d) eqn:E; auto.
  apply NoDup_app_remove_l with (l := []). simpl.
  apply Permutation_NoDup with (l := k :: keys d).
  - apply Permutation_cons_append.
  - constructor; auto. rewrite <- mem_true, E. discriminate.
Qed.

(** A loop that assigns [f k] to some of the keys [ks]. *)
Lemma get_fold_set (f : str -> option V) (ks : list str) d k :
  get k (fold_left (fun r x => match f x with
                               | Some v => set x v r
                               | None => r
                               end) ks d)
  = if existsb (eqb k) ks
    then match f k with Some v => Some v | None => get k d end
    else get k d.
Proof.
  revert d; induction ks as [|x ks IH]; intros d; simpl; auto.
  rewrite IH. destruct (eqb k x) eqn:E; simpl.
  - apply eqb_eq in E; subst x.
    destruct (f k) as [v|] eqn:Ef.
    + rewrite get_set_same. destruct (existsb (eqb k) ks); reflexivity.
    + destruct (existsb (eqb k) ks); reflexivity.
  - destruct (f x) as [v|]; auto.
    rewrite get_set_other; auto.
    apply eqb_neq in E; congruence.
Qed.

Lemma NoDup_keys_fold_set (f : str -> option V) (ks : list str) d :
  NoDup (keys d) ->
  NoDup (keys (fold_left (fun r x => match f x with
                                     | Some v => set x v r
                                     | None => r
                                     end) ks d)).
Proof.
  revert d; induction ks as [|x ks IH]; intros d H; simpl; auto.
  apply IH. destruct (f x); auto. apply NoDup_keys_set; exact H.
Qed.

Lemma existsb_eqb_In k (ks : list str) : existsb (eqb k) ks = true <-> In k ks.
Proof.
  rewrite existsb_exists. split.
  - intros [x [Hin E]]. apply eqb_eq in E; subst; exact Hin.
  - intros H; exists k; split; auto. apply eqb_refl.
Qed.

End DictLemmas.

(** ** The representative dictionary (app.py:79-91) *)

Section Representatives.
Import Spec.

Lemma find_app {A} (f : A -> bool) (l1 l2 : list A) :
  find f (l1 ++ l2)
  = match find f l1 with Some x => Some x | None => find f l2 end.
Proof.
  induction l1 as [|x l1 IH]; simpl; auto. destruct (f x); auto.
Qed.

Lemma get_fold_rows (rows : list Series) (d : dict mp_info) (key : str) :
  get key (fold_left (fun mp_dict mp => set (mp_key_of mp) (mp_info_of mp) mp_dict)
                     rows d)
  = match find (fun mp => eqb (mp_key_of mp) key) (rev rows) with
    | Some mp => Some (mp_info_of mp)
    | None => get key d
    end.
Proof.
  revert d; induction rows as [|mp rows IH]; intros d; simpl; auto.
  rewrite IH, find_app. simpl.
  destruct (find _ (rev rows)); auto.
  rewrite get_set. destruct (eqb (mp_key_of mp) key); reflexivity.
Qed.

(** The entry of a key is that of the last row with this key. *)
Lemma get_build_mp_dict (mps_df : DataFrame) (key : str) :
  get key (build_mp_dict mps_df)
  = option_map mp_info_of
      (find (fun mp => eqb (mp_key_of mp) key) (rev (iterrows mps_df))).
Proof.
  unfold build_mp_dict. rewrite get_fold_rows.
  destruct (find _ _); reflexivity.
Qed.

Lemma NoDup_keys_build_mp_dict (mps_df : DataFrame) :
  NoDup (keys (build_mp_dict mps_df)).
Proof.
  unfold build_mp_dict.
  assert (H : NoDup (keys (@nil (str * mp_info)))) by constructor.
  revert H. generalize (@nil (str * mp_info)).
  induction (iterrows mps_df) as [|mp rows IH]; intros d H; simpl; auto.
  apply IH, NoDup_keys_set, H.
Qed.

Lemma In_matching_mps (mp_dict : dict mp_info) (electorate key : str) :
  In key (matching_mps mp_dict electorate)
  <-> exists info, get key mp_dict = Some info /\ Electorate info = electorate.
Proof.
  unfold matching_mps. rewrite filter_In, get_Some_keys. split.
  - intros [[info Hinfo] H]. rewrite Hinfo in H.
    apply eqb_eq in H. eauto.
  - intros [info [Hinfo He]]. rewrite Hinfo. split; eauto.
    apply eqb_eq; exact He.
Qed.

Lemma NoDup_matching_mps (mp_dict : dict mp_info) (electorate : str) :
  NoDup (keys mp_dict) -> NoDup (matching_mps mp_dict electorate).
Proof. intros H. apply NoDup_filter; exact H. Qed.

Lemma occurrences_cons (x y : str) (l : list str) :
  occurrences x (y :: l) = (if eqb x y then 1 else 0) + occurrences x l.
Proof. unfold occurrences; simpl. destruct (eqb x y); reflexivity. Qed.

Lemma occurrences_absent (x : str) (l : list str) :
  ~ In x l -> occurrences x l = 0.
Proof.
  induction l as [|y l IH]; intros H; auto.
  rewrite occurrences_cons, IH by (simpl in H; tauto).
  destruct (eqb x y) eqn:E; auto.
  apply eqb_eq in E; subst. simpl in H; tauto.
Qed.

Lemma occurrences_NoDup (x : str) (l : list str) :
  NoDup l -> occurrences x l = if existsb (eqb x) l then 1 else 0.
Proof.
  induction 1 as [|y l Hy _ IH]; auto.
  rewrite occurrences_cons. simpl.
  destruct (eqb x y) eqn:E; simpl; auto.
  apply eqb_eq in E; subst y. rewrite occurrences_absent; auto.
Qed.

(** A key is matched by the one token that is its electorate. *)
Lemma occurrences_matching_mps (mp_dict : dict mp_info) (electorate key : str) :
  NoDup (keys mp_dict) ->
  occurrences key (matching_mps mp_dict electorate)
  = match get key mp_dict with
    | Some info => if eqb (Electorate info) electorate then 1 else 0
    | None => 0
    end.
Proof.
  intros Hnd.
  rewrite (occurrences_NoDup _ _ (NoDup_matching_mps _ electorate Hnd)).
  destruct (existsb (eqb key) (matching_mps mp_dict electorate)) eqn:E.
  - apply existsb_eqb_In, In_matching_mps in E as [info [Hi He]].
    rewrite Hi. subst electorate. rewrite eqb_refl; reflexivity.
  - destruct (get key mp_dict) as [info|] eqn:Hi; auto.
    destruct (eqb (Electorate info) electorate) eqn:He; auto.
    apply eqb_eq in He.
    assert (In key (matching_mps mp_dict electorate))
      by (apply In_matching_mps; eauto).
    apply existsb_eqb_In in H. congruence.
Qed.

(** C6. A token matches exactly the representatives whose State/Electorate
    field is equal to it, character for character: a key is among the
    matches of a token if and only if the dictionary holds it with that
    very string as electorate, that is, if and only if the last row with
    this key has that very string in its State/Electorate column; no key
    is matched twice.  Neither a change of case nor surrounding whitespace
    matches. *)
Theorem matching_mps_exact (mps_df : DataFrame) (token key : str) :
  let mp_dict := build_mp_dict mps_df in
  (In key (matching_mps mp_dict token)
   <-> exists info, get key mp_dict = Some info /\ Electorate info = token)
  /\ (In key (matching_mps mp_dict token)
      <-> exists mp,
            find (fun mp => eqb (mp_key_of mp) key) (rev (iterrows mps_df))
            = Some mp
            /\ mp (lit "State/Electorate") = token)
  /\ NoDup (matching_mps mp_dict token)
  /\ matching_mps (build_mp_dict Examples.nsw_senator) (lit "NSW")
     = [lit "NSW_Jennifer McAllister"]
  /\ matching_mps (build_mp_dict Examples.nsw_senator) (lit "nsw") = []
  /\ matching_mps (build_mp_dict Examples.nsw_senator) (lit "NSW ") = [].
Proof.
  cbv zeta. split; [apply In_matching_mps|]. split.
  - rewrite In_matching_mps, get_build_mp_dict.
    destruct (find _ _) as [mp|]; simpl; split.
    + intros [info [[= <-] H]]. eauto.
    + intros [mp' [[= <-] H]]. eauto.
    + intros [info [H _]]; discriminate.
    + intros [mp' [H _]]; discriminate.
  - split; [apply NoDup_matching_mps, NoDup_keys_build_mp_dict|].
    repeat split; reflexivity.
Qed.

End Representatives.

(** ** Matching and aggregation (app.py:94-127) *)

Section Grouping.
Import Spec.

Lemma fold_left_inv {A B} (P : A -> Prop) (f : A -> B -> A) (l : list B) (a : A) :
  (forall acc x, P acc -> P (f acc x)) -> P a -> P (fold_left f l a).
Proof.
  intros Hf. revert a; induction l as [|x l IH]; intros a Ha; simpl; auto.
Qed.

Lemma fold_left_ext_eq {A B} (f g : A -> B -> A) (l : list B) (a : A) :
  (forall acc x, f acc x = g acc x) -> fold_left f l a = fold_left g l a.
Proof.
  intros H. revert a; induction l as [|x l IH]; intros a; simpl; auto.
  rewrite H; apply IH.
Qed.

Implicit Types (el : dict (list letter_copy)) (l : letter_copy).

(** Appending to the bucket of [k] changes that bucket only. *)
Lemma get_append_letter el k l k' :
  get k' (append_letter el k l)
  = if eqb k k' then Some (get_default k [] el ++ [l]) else get k' el.
Proof.
  unfold append_letter, mem, get_default.
  destruct (get k el) as [b|] eqn:E.
  - rewrite E. apply get_set.
  - rewrite get_set_same, get_set.
    destruct (eqb k k') eqn:E'; auto.
    rewrite get_set, E'. reflexivity.
Qed.

Lemma get_default_append_letter el k l k' :
  get_default k' [] (append_letter el k l)
  = get_default k' [] el ++ (if eqb k k' then [l] else []).
Proof.
  unfold get_default at 1. rewrite get_append_letter.
  destruct (eqb k k') eqn:E.
  - apply eqb_eq in E; subst; reflexivity.
  - rewrite app_nil_r. reflexivity.
Qed.

Lemma NoDup_keys_append_letter el k l :
  NoDup (keys el) -> NoDup (keys (append_letter el k l)).
Proof.
  intros H. unfold append_letter.
  destruct (mem k el).
  - destruct (get k el); auto. apply NoDup_keys_set; exact H.
  - destruct (get k (set k [] el)); apply NoDup_keys_set; auto.
    apply NoDup_keys_set; exact H.
Qed.

Lemma nonempty_append_letter el k l :
  (forall k', get k' el <> Some []) ->
  forall k', get k' (append_letter el k l) <> Some [].
Proof.
  intros H k'. rewrite get_append_letter.
  destruct (eqb k k'); auto.
  intros [= E]. destruct (get_default k [] el); discriminate.
Qed.

Lemma total_pairs_set el k (v : list letter_copy) :
  total_pairs (set k v el) + length (get_default k [] el)
  = total_pairs el + length v.
Proof.
  unfold total_pairs, get_default.
  induction el as [|[k0 b0] el IH]; simpl; [lia|].
  destruct (eqb k0 k) eqn:E; simpl; lia.
Qed.

(** Every append adds one pair. *)
Lemma total_pairs_append_letter el k l :
  total_pairs (append_letter el k l) = S (total_pairs el).
Proof.
  unfold append_letter, mem.
  destruct (get k el) as [b|] eqn:E.
  - rewrite E. pose proof (total_pairs_set el k (b ++ [l])) as H.
    unfold get_default in H. rewrite E, length_app in H. simpl in H. lia.
  - rewrite get_set_same.
    pose proof (total_pairs_set el k []) as H1.
    pose proof (total_pairs_set (set k [] el) k ([] ++ [l])) as H2.
    unfold get_default in H1, H2. rewrite E in H1.
    rewrite get_set_same in H2. simpl in *. lia.
Qed.

Lemma get_default_for_mp_keys l ks el k' :
  get_default k' [] (for_mp_keys l ks el)
  = get_default k' [] el ++ repeat l (occurrences k' ks).
Proof.
  revert el; induction ks as [|k ks IH]; intros el.
  - simpl. rewrite app_nil_r; reflexivity.
  - change (for_mp_keys l (k :: ks) el)
      with (for_mp_keys l ks (append_letter el k l)).
    rewrite IH, get_default_append_letter.
    rewrite occurrences_cons, <- app_assoc. f_equal.
    rewrite (eqb_sym k' k). destruct (eqb k k'); reflexivity.
Qed.

Lemma total_pairs_for_mp_keys l ks el :
  total_pairs (for_mp_keys l ks el) = total_pairs el + length ks.
Proof.
  revert el; induction ks as [|k ks IH]; intros el; [simpl; lia|].
  change (for_mp_keys l (k :: ks) el)
    with (for_mp_keys l ks (append_letter el k l)).
  rewrite IH, total_pairs_append_letter. simpl; lia.
Qed.

Variable mp_dict : dict mp_info.
Hypothesis mp_dict_keys : NoDup (keys mp_dict).

Lemma get_default_for_electorates letter ts el k' :
  get_default k' [] (for_electorates mp_dict letter ts el)
  = get_default k' [] el
    ++ repeat (letter_of letter)
              (match get k' mp_dict with
               | Some info => occurrences (Electorate info) ts
               | None => 0
               end).
Proof.
  revert el; induction ts as [|t ts IH]; intros el.
  - simpl. destruct (get k' mp_dict); rewrite app_nil_r; reflexivity.
  - change (for_electorates mp_dict letter (t :: ts) el)
      with (for_electorates mp_dict letter ts
              (for_mp_keys (letter_of letter) (matching_mps mp_dict t) el)).
    rewrite IH, get_default_for_mp_keys, occurrences_matching_mps by assumption.
    rewrite <- app_assoc, <- repeat_app. do 2 f_equal.
    destruct (get k' mp_dict) as [info|]; auto.
    rewrite occurrences_cons. reflexivity.
Qed.

(** A bucket holds, letter after letter, the copies made for its key. *)
Lemma get_default_for_letters rows el k' :
  get_default k' [] (for_letters mp_dict rows el)
  = get_default k' [] el
    ++ match get k' mp_dict with
       | Some info => flat_map (copies_for info) rows
       | None => []
       end.
Proof.
  revert el; induction rows as [|letter rows IH]; intros el.
  - simpl. destruct (get k' mp_dict); rewrite app_nil_r; reflexivity.
  - change (for_letters mp_dict (letter :: rows) el)
      with (for_letters mp_dict rows
              (for_electorates mp_dict letter (extract_electorates letter) el)).
    rewrite IH, get_default_for_electorates, <- app_assoc. f_equal.
    destruct (get k' mp_dict) as [info|]; reflexivity.
Qed.

Lemma total_pairs_for_electorates letter ts el :
  total_pairs (for_electorates mp_dict letter ts el)
  = total_pairs el
    + list_sum (map (fun t => length (matching_mps mp_dict t)) ts).
Proof.
  revert el; induction ts as [|t ts IH]; intros el; [simpl; lia|].
  change (for_electorates mp_dict letter (t :: ts) el)
    with (for_electorates mp_dict letter ts
            (for_mp_keys (letter_of letter) (matching_mps mp_dict t) el)).
  rewrite IH, total_pairs_for_mp_keys. simpl; lia.
Qed.

Lemma total_pairs_for_letters rows el :
  total_pairs (for_letters mp_dict rows el)
  = total_pairs el
    + list_sum (map (fun letter =>
                       list_sum (map (fun t => length (matching_mps mp_dict t))
                                     (extract_electorates letter)))
                    rows).
Proof.
  revert el; induction rows as [|letter rows IH]; intros el; [simpl; lia|].
  change (for_letters mp_dict (letter :: rows) el)
    with (for_letters mp_dict rows
            (for_electorates mp_dict letter (extract_electorates letter) el)).
  rewrite IH, total_pairs_for_electorates. simpl; lia.
Qed.

Lemma for_letters_inv (P : dict (list letter_copy) -> Prop) rows el :
  (forall el k l, P el -> P (append_letter el k l)) ->
  P el -> P (for_letters mp_dict rows el).
Proof.
  intros Hap. unfold for_letters, for_electorates, for_mp_keys.
  apply fold_left_inv. intros acc letter.
  apply fold_left_inv. intros acc' t.
  apply fold_left_inv. intros acc'' k. apply Hap.
Qed.

End Grouping.

(** ** The assignment map *)

Section AssignmentMap.
Import Spec.

Lemma distinct_NoDup (l : list str) : NoDup l -> distinct l = l.
Proof.
  induction 1 as [|x l Hx _ IH]; simpl; auto.
  rewrite IH. f_equal.
  clear IH. induction l as [|y l IH]; simpl; auto.
  destruct (eqb x y) eqn:E; simpl.
  - apply eqb_eq in E; subst. simpl in Hx; tauto.
  - rewrite IH; auto. simpl in Hx; tauto.
Qed.

Lemma NoDup_flat_map_matching (mp_dict : dict mp_info) (ts : list str) :
  NoDup (keys mp_dict) -> NoDup ts ->
  NoDup (flat_map (matching_mps mp_dict) ts).
Proof.
  intros Hd. induction 1 as [|t ts Ht _ IH]; simpl; [constructor|].
  apply NoDup_app; auto using NoDup_matching_mps.
  intros key H1 H2. apply in_flat_map in H2 as [t' [Hin H2]].
  apply In_matching_mps in H1 as [i1 [G1 E1]].
  apply In_matching_mps in H2 as [i2 [G2 E2]].
  rewrite G1 in G2. injection G2 as <-. congruence.
Qed.

Lemma occurrences_pos (x : str) (l : list str) :
  occurrences x l <> 0 <-> In x l.
Proof.
  split.
  - intros H. destruct (in_dec (list_eq_dec ascii_dec) x l); auto.
    exfalso; apply H, occurrences_absent; exact n.
  - intros H. induction l as [|y l IH]; [destruct H|].
    rewrite occurrences_cons. destruct H as [->|H].
    + rewrite eqb_refl. lia.
    + specialize (IH H). lia.
Qed.

Lemma flat_map_nil_iff {A B} (f : A -> list B) (l : list A) :
  flat_map f l = [] <-> forall x, In x l -> f x = [].
Proof.
  induction l as [|x l IH]; simpl; [tauto|]. split.
  - intros H. apply app_eq_nil in H as [H1 H2].
    intros y [<-|Hy]; auto. apply IH; auto.
  - intros H. rewrite (H x) by auto. apply IH. auto.
Qed.

Lemma group_letters_nonempty (mp_dict : dict mp_info) (letters_df : DataFrame)
      (key : str) :
  get key (group_letters mp_dict letters_df) <> Some [].
Proof.
  revert key. unfold group_letters.
  apply (for_letters_inv mp_dict (fun el => forall key, get key el <> Some [])).
  - intros el k l H. apply nonempty_append_letter; exact H.
  - intros key; discriminate.
Qed.

Lemma NoDup_keys_group_letters (mp_dict : dict mp_info) (letters_df : DataFrame) :
  NoDup (keys (group_letters mp_dict letters_df)).
Proof.
  unfold group_letters.
  apply (for_letters_inv mp_dict (fun el => NoDup (keys el))).
  - intros el k l H. apply NoDup_keys_append_letter; exact H.
  - constructor.
Qed.

(** What a bucket holds. *)
Lemma get_default_group_letters (mp_dict : dict mp_info) (letters_df : DataFrame)
      (key : str) :
  NoDup (keys mp_dict) ->
  get_default key [] (group_letters mp_dict letters_df)
  = match get key mp_dict with
    | Some info => flat_map (copies_for info) (iterrows letters_df)
    | None => []
    end.
Proof.
  intros H. unfold group_letters.
  rewrite get_default_for_letters by exact H. reflexivity.
Qed.

(** A key has a bucket exactly when some letter has its electorate among
    its tokens. *)
Lemma mem_group_letters (mp_dict : dict mp_info) (letters_df : DataFrame)
      (key : str) :
  NoDup (keys mp_dict) ->
  (mem key (group_letters mp_dict letters_df) = true
   <-> exists info, get key mp_dict = Some info
       /\ exists letter, In letter (iterrows letters_df)
          /\ In (Electorate info) (extract_electorates letter)).
Proof.
  intros Hd.
  pose proof (get_default_group_letters mp_dict letters_df key Hd) as Hg.
  pose proof (group_letters_nonempty mp_dict letters_df key) as Hne.
  unfold mem, get_default in *.
  destruct (get key (group_letters mp_dict letters_df)) as [b|] eqn:E.
  - split; auto. intros _.
    destruct (get key mp_dict) as [info|]; [|congruence].
    exists info; split; auto.
    destruct (flat_map_nil_iff (copies_for info) (iterrows letters_df)) as [_ Hnil].
    assert (Hex : ~ forall x, In x (iterrows letters_df) -> copies_for info x = [])
      by (intros Hall; apply Hnil in Hall; congruence).
    clear - Hex.
    induction (iterrows letters_df) as [|letter rows IH].
    + exfalso; apply Hex; intros x [].
    + destruct (in_dec (list_eq_dec ascii_dec) (Electorate info)
                       (extract_electorates letter)) as [Hin|Hnot].
      * exists letter; split; [left; reflexivity | exact Hin].
      * destruct IH as [l' [Hl' Hin']].
        { intros Hall. apply Hex. intros x [<-|Hx]; auto.
          unfold copies_for. rewrite occurrences_absent; auto. }
        exists l'; split; [right|]; assumption.
  - split; [discriminate|]. intros [info [Hi [letter [Hin Ht]]]].
    rewrite Hi in Hg. symmetry in Hg.
    rewrite flat_map_nil_iff in Hg. specialize (Hg letter Hin).
    unfold copies_for in Hg. apply occurrences_pos in Ht.
    destruct (occurrences _ _); [congruence | discriminate].
Qed.

End AssignmentMap.

(** ** The outcome of the rendering (app.py:28-73, 129-136) *)

Section Outcome.
Import Spec Docx.

Lemma Forall2_map_In {A B} (R : B -> A -> Prop) (f : A -> B) (l : list A) :
  (forall x, In x l -> R (f x) x) -> Forall2 R (map f l) l.
Proof.
  induction l as [|x l IH]; intros H; simpl; constructor.
  - apply H. left; reflexivity.
  - apply IH. intros y Hy. apply H. right; exact Hy.
Qed.

(** A loop whose body either updates the state or raises [e], depending
    on the element only. *)
Lemma for_each_cases {A B} (body : A -> B -> result A) (ok : B -> bool)
      (f : A -> B -> A) (e : exn) (l : list B) (a : A) :
  (forall a x, In x l -> body a x = if ok x then Ok (f a x) else Raise e) ->
  for_each body l a = if forallb ok l then Ok (fold_left f l a) else Raise e.
Proof.
  revert a; induction l as [|x l IH]; intros a H; [reflexivity|].
  cbn [for_each forallb fold_left]. rewrite (H a x (or_introl eq_refl)).
  destruct (ok x); cbn [bind andb]; [|reflexivity].
  apply IH. intros a' x' Hx. apply H. right; exact Hx.
Qed.

Lemma forallb_insert {A K} (key : A -> K) (lt : K -> K -> bool)
      (p : A -> bool) (x : A) (l : list A) :
  forallb p (PySort.insert key lt x l) = p x && forallb p l.
Proof.
  induction l as [|y l IH]; [reflexivity|]. cbn [PySort.insert].
  destruct (lt (key y) (key x)); cbn [forallb]; [|reflexivity].
  rewrite IH. destruct (p x), (p y); reflexivity.
Qed.

Lemma forallb_sorted {A K} (key : A -> K) (lt : K -> K -> bool)
      (p : A -> bool) (l : list A) :
  forallb p (PySort.sorted key lt l) = forallb p l.
Proof.
  induction l as [|x l IH]; [reflexivity|].
  cbn [PySort.sorted forallb]. rewrite forallb_insert, IH. reflexivity.
Qed.

(** One turn of the loop: the five paragraphs of the letter and, unless
    it is the last, the paragraph of a page break; or the exception of
    lxml. *)
Lemma add_letter_result (mp : mp_info) (n i : nat) (doc : Document)
      (l : letter_copy) :
  add_letter mp n doc (i, l)
  = if renderable mp l
    then Ok (mk_document
               (normal_font doc)
               (body doc ++ letter_blocks mp l
                ++ (if (Z.of_nat i <? Z.of_nat n - 1)%Z then [PageBreak]
                    else [])))
    else Raise xml_error.
Proof.
  unfold add_letter, renderable, add_bold_paragraph, add_paragraph.
  destruct (xml_compatible (lit "Date: " ++ Submission_Date l));
    cbn [bind andb]; [|reflexivity].
  destruct (xml_compatible (replace_mp_name_in_letter _ _ _));
    cbn [bind andb]; [|reflexivity].
  destruct (xml_compatible (POSTCODE l ++ lit ", " ++ STATE l));
    cbn [bind]; [|reflexivity].
  f_equal. unfold letter_blocks, add_page_break, add_empty_paragraph, add_block.
  destruct (Z.of_nat i <? Z.of_nat n - 1)%Z; cbn [normal_font body];
    repeat rewrite <- app_assoc; reflexivity.
Qed.

(** The loop over the letters from index [i] on, of [i + length ls]
    letters in all. *)
Lemma for_each_add_letter (mp : mp_info) (ls : list letter_copy) (i : nat)
      (doc : Document) :
  for_each (add_letter mp (i + length ls)) (combine (seq i (length ls)) ls) doc
  = if forallb (renderable mp) ls
    then Ok (mk_document
               (normal_font doc)
               (body doc ++ join [PageBreak] (map (letter_blocks mp) ls)))
    else Raise xml_error.
Proof.
  revert i doc; induction ls as [|l ls IH]; intros i doc.
  - cbn. rewrite app_nil_r. destruct doc; reflexivity.
  - cbn [length seq combine for_each forallb map].
    rewrite add_letter_result.
    destruct (renderable mp l); cbn [bind andb]; [|reflexivity].
    replace (i + S (length ls)) with (S i + length ls) by lia.
    rewrite IH. destruct (forallb (renderable mp) ls); [|reflexivity].
    f_equal. cbn [normal_font body]. f_equal.
    rewrite <- !app_assoc. f_equal.
    destruct ls as [|l' ls].
    + replace (Z.of_nat i <? Z.of_nat (S i + length []) - 1)%Z with false
        by (symmetry; apply Z.ltb_ge; cbn [length]; lia).
      simpl. reflexivity.
    + replace (Z.of_nat i <? Z.of_nat (S i + length (l' :: ls)) - 1)%Z with true
        by (symmetry; apply Z.ltb_lt; cbn [length]; lia).
      reflexivity.
Qed.

(** The document of a bucket, or the exception of lxml when a text of one
    of its letters has a character that XML does not allow. *)
Lemma create_docx_result (electorate : str) (mp : mp_info)
      (letters : list letter_copy) :
  create_docx_for_electorate electorate mp letters
  = if forallb (renderable mp) letters then Ok (rendered mp letters)
    else Raise xml_error.
Proof.
  unfold create_docx_for_electorate. cbv zeta.
  rewrite (for_each_add_letter mp (sorted_by_date letters) 0 _).
  unfold sorted_by_date at 1. rewrite forallb_sorted. reflexivity.
Qed.

(** What the final loop leaves under a key (app.py:129-136), when no
    document raises. *)
Lemma get_documents (mp_dict : dict mp_info)
      (electorate_letters : dict (list letter_copy)) (key : str) :
  get key (documents mp_dict electorate_letters)
  = match get key electorate_letters, get key mp_dict with
    | Some letters, Some info => Some (rendered info letters)
    | _, _ => None
    end.
Proof.
  unfold documents.
  pose (f := fun k : str =>
               match get k electorate_letters, get k mp_dict with
               | Some letters, Some info => Some (rendered info letters)
               | _, _ => None
               end).
  rewrite (fold_left_ext_eq _
             (fun r x => match f x with Some v => set x v r | None => r end)).
  - rewrite get_fold_set. fold (f key). simpl.
    destruct (existsb (eqb key) (keys mp_dict)) eqn:E.
    + destruct (f key); reflexivity.
    + unfold f. destruct (get key electorate_letters); auto.
      destruct (get key mp_dict) eqn:G; auto.
      assert (In key (keys mp_dict)) by (apply get_Some_keys; eauto).
      apply existsb_eqb_In in H. congruence.
  - intros acc x. unfold f.
    destruct (get x electorate_letters); auto.
    destruct (get x mp_dict); auto.
Qed.

Lemma NoDup_keys_documents (mp_dict : dict mp_info)
      (electorate_letters : dict (list letter_copy)) :
  NoDup (keys (documents mp_dict electorate_letters)).
Proof.
  unfold documents. apply fold_left_inv; [|constructor].
  intros acc x H.
  destruct (get x electorate_letters); auto.
  destruct (get x mp_dict); auto. apply NoDup_keys_set; exact H.
Qed.

Lemma all_renderable_spec (mp_dict : dict mp_info)
      (electorate_letters : dict (list letter_copy)) :
  all_renderable mp_dict electorate_letters = true
  <-> forall key info letters l,
        get key mp_dict = Some info ->
        get key electorate_letters = Some letters ->
        In l letters -> renderable info l = true.
Proof.
  unfold all_renderable. rewrite forallb_forall. split.
  - intros H key info letters l Hi Hl Hin.
    assert (Hk : In key (keys mp_dict)) by (apply get_Some_keys; eauto).
    specialize (H key Hk). rewrite Hl, Hi in H.
    rewrite forallb_forall in H. apply H; exact Hin.
  - intros H key _.
    destruct (get key electorate_letters) as [letters|] eqn:Hl; auto.
    destruct (get key mp_dict) as [info|] eqn:Hi; auto.
    apply forallb_forall. intros l Hin. eapply H; eauto.
Qed.

(** The final loop: the documents, or the exception of the first document
    that cannot be rendered. *)
Lemma generate_result (mp_dict : dict mp_info)
      (electorate_letters : dict (list letter_copy)) :
  generate mp_dict electorate_letters
  = if all_renderable mp_dict electorate_letters
    then Ok (documents mp_dict electorate_letters)
    else Raise xml_error.
Proof.
  unfold generate, all_renderable, documents.
  apply for_each_cases. intros results key _.
  destruct (get key electorate_letters) as [letters|]; [|reflexivity].
  destruct (get key mp_dict) as [info|]; [|reflexivity].
  rewrite create_docx_result.
  destruct (forallb (renderable info) letters); reflexivity.
Qed.

Lemma process_files_result (mps_df letters_df : DataFrame) :
  process_files mps_df letters_df
  = if all_renderable (build_mp_dict mps_df)
                      (group_letters (build_mp_dict mps_df) letters_df)
    then Ok (documents (build_mp_dict mps_df)
                       (group_letters (build_mp_dict mps_df) letters_df))
    else Raise xml_error.
Proof. unfold process_files. apply generate_result. Qed.

Lemma process_files_Ok (mps_df letters_df : DataFrame)
      (docx_files : dict Document) :
  process_files mps_df letters_df = Ok docx_files ->
  docx_files = documents (build_mp_dict mps_df)
                         (group_letters (build_mp_dict mps_df) letters_df)
  /\ all_renderable (build_mp_dict mps_df)
                    (group_letters (build_mp_dict mps_df) letters_df) = true.
Proof.
  rewrite process_files_result.
  destruct (all_renderable _ _); [|discriminate].
  intros [= <-]. split; reflexivity.
Qed.

Lemma process_files_Raise (mps_df letters_df : DataFrame) (e : exn) :
  process_files mps_df letters_df = Raise e ->
  e = xml_error
  /\ all_renderable (build_mp_dict mps_df)
                    (group_letters (build_mp_dict mps_df) letters_df) = false.
Proof.
  rewrite process_files_result.
  destruct (all_renderable _ _); [discriminate|].
  intros [= <-]. split; reflexivity.
Qed.

(** Whether [process_files] returns. *)
Lemma process_files_returns (mps_df letters_df : DataFrame) :
  (exists docx_files, process_files mps_df letters_df = Ok docx_files)
  <-> forall key info letters l,
        get key (build_mp_dict mps_df) = Some info ->
        get key (group_letters (build_mp_dict mps_df) letters_df)
        = Some letters ->
        In l letters -> renderable info l = true.
Proof.
  rewrite <- all_renderable_spec, process_files_result.
  destruct (all_renderable _ _); split; eauto; try discriminate.
  intros [d H]; discriminate H.
Qed.

(** The document under a key of the output is the one that
    [create_docx_for_electorate] returns for the bucket of the key. *)
Lemma get_process_files (mps_df letters_df : DataFrame)
      (docx_files : dict Document) (key : str) :
  process_files mps_df letters_df = Ok docx_files ->
  option_map Ok (get key docx_files)
  = match get key (group_letters (build_mp_dict mps_df) letters_df),
          get key (build_mp_dict mps_df) with
    | Some letters, Some info =>
        Some (create_docx_for_electorate (Electorate info) info letters)
    | _, _ => None
    end.
Proof.
  intros H. apply process_files_Ok in H as [-> Hall].
  rewrite get_documents.
  destruct (get key (group_letters _ _)) as [letters|] eqn:Hl; [|reflexivity].
  destruct (get key (build_mp_dict mps_df)) as [info|] eqn:Hi; [|reflexivity].
  rewrite create_docx_result.
  rewrite all_renderable_spec in Hall.
  replace (forallb (renderable info) letters) with true; [reflexivity|].
  symmetry. apply forallb_forall. intros l Hin. eapply Hall; eauto.
Qed.

Lemma mem_process_files (mps_df letters_df : DataFrame)
      (docx_files : dict Document) (key : str) :
  process_files mps_df letters_df = Ok docx_files ->
  mem key docx_files
  = mem key (group_letters (build_mp_dict mps_df) letters_df).
Proof.
  intros H. apply process_files_Ok in H as [-> _].
  pose proof (NoDup_keys_build_mp_dict mps_df) as Hd.
  pose proof (mem_group_letters (build_mp_dict mps_df) letters_df key Hd) as Hm.
  unfold mem at 1. rewrite get_documents.
  destruct (mem key (group_letters (build_mp_dict mps_df) letters_df)) eqn:E.
  - destruct Hm as [Hm _]. destruct (Hm eq_refl) as [info [Hi _]].
    unfold mem in E. rewrite Hi.
    destruct (get key (group_letters _ _)); [reflexivity | discriminate].
  - unfold mem in E.
    destruct (get key (group_letters _ _)); [discriminate | reflexivity].
Qed.

(** Each document of the output, with its representative and bucket. *)
Lemma In_process_files (mps_df letters_df : DataFrame)
      (docx_files : dict Document) (kd : str * Document) :
  process_files mps_df letters_df = Ok docx_files ->
  In kd docx_files ->
  exists info letters,
    get (fst kd) (build_mp_dict mps_df) = Some info
    /\ get (fst kd) (group_letters (build_mp_dict mps_df) letters_df)
       = Some letters
    /\ snd kd = rendered info letters
    /\ create_docx_for_electorate (Electorate info) info letters
       = Ok (snd kd).
Proof.
  intros H Hin. pose proof (get_process_files _ _ _ (fst kd) H) as Hg.
  apply process_files_Ok in H as [-> Hall].
  destruct kd as [key doc]. cbn [fst snd] in *.
  apply In_get in Hin; [|apply NoDup_keys_documents].
  rewrite Hin in Hg. rewrite get_documents in Hin.
  destruct (get key (group_letters _ _)) as [letters|]; [|discriminate].
  destruct (get key (build_mp_dict mps_df)) as [info|]; [|discriminate].
  injection Hin as Hin. cbn [option_map] in Hg. injection Hg as Hg.
  exists info, letters. repeat split; auto.
Qed.

End Outcome.


Section AssignmentClaims.
Import Spec.

(** C1, as stated, fails.  One senator for NSW and one letter whose
    ELECTORATE and STATE are both NSW: the tokens are NSW twice, the
    letter is twice in the senator's bucket, and the map has two pairs
    where the letter has one matching key. *)
Lemma fan_out_counterexample :
  let mp_dict := build_mp_dict Examples.nsw_senator in
  let buckets := group_letters mp_dict Examples.nsw_twice in
  map extract_electorates (iterrows Examples.nsw_twice)
    = [[lit "NSW"; lit "NSW"]]
  /\ map (fun kv => (fst kv, length (snd kv))) buckets
     = [(lit "NSW_Jennifer McAllister", 2)]
  /\ total_pairs buckets
     <> list_sum (map (fun letter => length (matching_keys mp_dict letter))
                      (iterrows Examples.nsw_twice)).
Proof.
  cbv zeta. split; [reflexivity|]. split; [reflexivity|].
  vm_compute. discriminate.
Qed.

(** C1, amended.  A bucket holds, letter after letter, one copy of the
    letter for each occurrence of the representative's electorate among
    the tokens of the letter, and the number of pairs of the map is the
    sum, over the letters and over the occurrences of their tokens, of the
    number of keys the token matches.  For letters whose tokens are
    pairwise different this is at most one copy for each letter and
    representative, and the sum over the letters of the number of distinct
    matching keys. *)
Theorem group_letters_fan_out (mps_df letters_df : DataFrame) :
  let mp_dict := build_mp_dict mps_df in
  let buckets := group_letters mp_dict letters_df in
  (forall key,
      get_default key [] buckets
      = match get key mp_dict with
        | Some info => flat_map (copies_for info) (iterrows letters_df)
        | None => []
        end)
  /\ total_pairs buckets
     = list_sum (map (fun letter =>
                        list_sum (map (fun t => length (matching_mps mp_dict t))
                                      (extract_electorates letter)))
                     (iterrows letters_df))
  /\ (Forall (fun letter => NoDup (extract_electorates letter))
             (iterrows letters_df) ->
      (forall info letter,
          In letter (iterrows letters_df) ->
          length (copies_for info letter) <= 1)
      /\ total_pairs buckets
         = list_sum (map (fun letter => length (matching_keys mp_dict letter))
                         (iterrows letters_df))).
Proof.
  cbv zeta.
  pose proof (NoDup_keys_build_mp_dict mps_df) as Hd.
  assert (Htotal :
    total_pairs (group_letters (build_mp_dict mps_df) letters_df)
    = list_sum (map (fun letter =>
                       list_sum (map (fun t => length (matching_mps
                                                         (build_mp_dict mps_df) t))
                                     (extract_electorates letter)))
                    (iterrows letters_df))).
  { unfold group_letters. rewrite total_pairs_for_letters. reflexivity. }
  split; [|split].
  - intros key. apply get_default_group_letters; exact Hd.
  - exact Htotal.
  - intros Hts. split.
    + intros info letter Hin. unfold copies_for. rewrite repeat_length.
      rewrite Forall_forall in Hts.
      rewrite (occurrences_NoDup _ _ (Hts letter Hin)).
      destruct (existsb _ _); lia.
    + rewrite Htotal. f_equal. apply map_ext_in. intros letter Hin.
      rewrite Forall_forall in Hts. unfold matching_keys.
      rewrite distinct_NoDup
        by (apply NoDup_flat_map_matching; auto).
      rewrite length_flat_map. reflexivity.
Qed.

Lemma group_letters_fan_out_witness :
  let mps_df := Examples.nsw_senator in
  let letters_df := Examples.one_letter (lit "NSW, Bean") in
  Forall (fun letter => NoDup (extract_electorates letter)) (iterrows letters_df)
  /\ total_pairs (group_letters (build_mp_dict mps_df) letters_df)
     = list_sum (map (fun letter =>
                        length (matching_keys (build_mp_dict mps_df) letter))
                     (iterrows letters_df)).
Proof.
  cbv zeta.
  assert (H : Forall (fun letter => NoDup (extract_electorates letter))
                     (iterrows (Examples.one_letter (lit "NSW, Bean")))).
  { repeat constructor; simpl; intuition discriminate. }
  split; [exact H|].
  apply (proj2 (proj2 (group_letters_fan_out Examples.nsw_senator
                         (Examples.one_letter (lit "NSW, Bean"))))).
  exact H.
Defined.

(** C5. When [process_files] returns its output, a key is in it if and
    only if the dictionary holds a representative under it and some letter
    has that representative's electorate among its tokens: the keys of the
    output are those of the assignment map, and no bucket of the
    assignment map is empty.  So a representative without a matching
    letter is absent from the output, not present with nothing.
    [process_files] returns unless a text of a letter in a bucket has a
    character that XML does not allow; then it raises the ValueError of
    lxml and there is no output. *)
Theorem process_files_only_matched (mps_df letters_df : DataFrame) (key : str) :
  let mp_dict := build_mp_dict mps_df in
  let buckets := group_letters mp_dict letters_df in
  (forall docx_files,
      process_files mps_df letters_df = Ok docx_files ->
      (mem key docx_files = true
       <-> exists info, get key mp_dict = Some info
           /\ exists letter, In letter (iterrows letters_df)
              /\ In (Electorate info) (extract_electorates letter))
      /\ mem key docx_files = mem key buckets)
  /\ get key buckets <> Some []
  /\ ((exists docx_files, process_files mps_df letters_df = Ok docx_files)
      <-> forall mp_key info letters l,
            get mp_key mp_dict = Some info ->
            get mp_key buckets = Some letters ->
            In l letters -> renderable info l = true)
  /\ (forall e, process_files mps_df letters_df = Raise e ->
                e = Docx.xml_error).
Proof.
  cbv zeta.
  pose proof (NoDup_keys_build_mp_dict mps_df) as Hd.
  pose proof (mem_group_letters (build_mp_dict mps_df) letters_df key Hd) as Hm.
  split; [|split; [apply group_letters_nonempty|split]].
  - intros docx_files H.
    pose proof (mem_process_files _ _ _ key H) as Heq.
    split; [rewrite Heq; exact Hm | exact Heq].
  - apply process_files_returns.
  - intros e H. apply process_files_Raise in H as [H _]. exact H.
Qed.

Lemma process_files_only_matched_witness :
  match process_files Examples.nsw_senator Examples.nsw_twice with
  | Ok docx_files =>
      mem (lit "NSW_Jennifer McAllister") docx_files
      = mem (lit "NSW_Jennifer McAllister")
            (group_letters (build_mp_dict Examples.nsw_senator)
                           Examples.nsw_twice)
  | Raise _ => False
  end.
Proof.
  destruct (process_files Examples.nsw_senator Examples.nsw_twice)
    as [docx_files|e] eqn:E.
  - apply (proj1 (process_files_only_matched
                    Examples.nsw_senator Examples.nsw_twice
                    (lit "NSW_Jennifer McAllister")) docx_files E).
  - vm_compute in E. discriminate E.
Defined.

End AssignmentClaims.

(** ** Identity of a representative (app.py:82-91) *)

Section Identity.

(** C10. The key of a representative is the electorate, an underscore, the
    first name, a space and the last name, as one string.  The dictionary
    keeps, under a key, the fields of the last row that has this key; it
    has one entry, the assignment map one bucket and the output, when
    [process_files] returns one, one document for a key, and the document
    is the one rendered with the fields of that last row.  Two rows with
    the same electorate and name but different salutations, and two rows
    whose strings collide around the underscore, leave one entry each:
    that of the later row. *)
Theorem mp_key_last_row_wins (mps_df letters_df : DataFrame) (key : str) :
  let mp_dict := build_mp_dict mps_df in
  (forall mp,
      mp_key_of mp
      = mp (lit "State/Electorate") ++ lit "_"
           ++ mp (lit "First name") ++ lit " " ++ mp (lit "Last name"))
  /\ get key mp_dict
     = option_map mp_info_of
         (find (fun mp => eqb (mp_key_of mp) key) (rev (iterrows mps_df)))
  /\ NoDup (keys mp_dict)
  /\ NoDup (keys (group_letters mp_dict letters_df))
  /\ (forall docx_files,
        process_files mps_df letters_df = Ok docx_files ->
        NoDup (keys docx_files)
        /\ option_map Ok (get key docx_files)
           = match get key (group_letters mp_dict letters_df),
                   get key mp_dict with
             | Some letters, Some info =>
                 Some (create_docx_for_electorate (Electorate info) info
                                                  letters)
             | _, _ => None
             end)
  /\ build_mp_dict Examples.same_name_twice
     = [(lit "Bean_Sam Lee",
         mk_mp_info (lit "Bean") (lit "Dr") (lit "Sam") (lit "Lee")
                    (lit "Sam Lee"))]
  /\ build_mp_dict Examples.colliding_keys
     = [(lit "A_B_C D",
         mk_mp_info (lit "A") (lit "Mr") (lit "B_C") (lit "D")
                    (lit "B_C D"))].
Proof.
  cbv zeta. split; [reflexivity|].
  split; [apply get_build_mp_dict|].
  split; [apply NoDup_keys_build_mp_dict|].
  split; [apply NoDup_keys_group_letters|].
  split; [|split; reflexivity].
  intros docx_files H. split; [|apply get_process_files; exact H].
  apply process_files_Ok in H as [-> _]. apply NoDup_keys_documents.
Qed.

Lemma mp_key_last_row_wins_witness :
  match process_files Examples.colliding_keys
                      (Examples.one_letter (lit "A")) with
  | Ok docx_files => NoDup (keys docx_files)
  | Raise _ => False
  end.
Proof.
  destruct (process_files Examples.colliding_keys
                          (Examples.one_letter (lit "A")))
    as [docx_files|e] eqn:E.
  - apply (proj2 (proj2 (proj2 (proj2
             (mp_key_last_row_wins Examples.colliding_keys
                (Examples.one_letter (lit "A")) (lit "A_B_C D")))))).
    exact E.
  - vm_compute in E. discriminate E.
Defined.

(** With colliding keys the letters of the overwritten electorate reach
    nobody, and those of the overwriting one are rendered with its
    salutation. *)
Example colliding_keys_letters :
  process_files Examples.colliding_keys (Examples.one_letter (lit "A_B"))
  = Ok []
  /\ exists docx_files,
       process_files Examples.colliding_keys (Examples.one_letter (lit "A"))
       = Ok docx_files
       /\ map (fun kd => (fst kd, nth 2 (Docx.body (snd kd)) Docx.PageBreak))
              docx_files
          = [(lit "A_B_C D", Docx.plain_paragraph (lit "Dear Mr D, ..."))].
Proof.
  split; [vm_compute; reflexivity|].
  eexists. split; vm_compute; reflexivity.
Qed.

End Identity.

(** ** Names of the archive entries (app.py:140-158) *)

Section Naming.

Lemma re_sub_class_filter (cls : ascii -> bool) (s : str) :
  re_sub_class cls s = filter (fun c => negb (cls c)) s.
Proof.
  induction s as [|c s IH]; simpl; auto.
  destruct (cls c); simpl; rewrite IH; reflexivity.
Qed.

Lemma forbidden_iff (c : ascii) :
  forbidden c = true
  <-> In c ["<"; ">"; ":"; dquote; "/"; "\"; "|"; "?"; "*"]%char.
Proof.
  unfold forbidden. rewrite existsb_exists. split.
  - intros [x [Hin E]]. apply Ascii.eqb_eq in E; subst x. exact Hin.
  - intros H. exists c. split; [exact H | apply Ascii.eqb_refl].
Qed.

Import Spec.

Lemma zip_name_free (s : str) :
  ~ In Zipfile.nul s -> Zipfile.zip_name s = s.
Proof.
  induction s as [|c s IH]; intros H; [reflexivity|]. cbn [Zipfile.zip_name].
  destruct (Ascii.eqb c Zipfile.nul) eqn:E.
  - apply Ascii.eqb_eq in E. exfalso. apply H. left; exact E.
  - rewrite IH; [reflexivity|]. intros Hin. apply H. right; exact Hin.
Qed.

Lemma zip_name_prefix (s : str) :
  exists rest, s = Zipfile.zip_name s ++ rest.
Proof.
  induction s as [|c s [rest IH]]; [exists []; reflexivity|].
  cbn [Zipfile.zip_name]. destruct (Ascii.eqb c Zipfile.nul).
  - exists (c :: s). reflexivity.
  - exists rest. cbn [app]. f_equal. exact IH.
Qed.

Lemma zip_name_no_nul (s : str) : ~ In Zipfile.nul (Zipfile.zip_name s).
Proof.
  induction s as [|c s IH]; [intros []|]. cbn [Zipfile.zip_name].
  destruct (Ascii.eqb c Zipfile.nul) eqn:E; [intros []|].
  intros [H|H]; [|exact (IH H)].
  subst c. rewrite Ascii.eqb_refl in E. discriminate.
Qed.

(** One call of [writestr]: the entry is added under the name cut at
    the first U+0000, unless that name is empty and is read by index. *)
Lemma writestr_result {D} (name_indexed : bool) (entries : list (str * D))
      (filename : str) (data : D) :
  Zipfile.writestr name_indexed entries filename data
  = if negb (name_indexed && negb (truthy (Zipfile.zip_name filename)))
    then Ok (entries ++ [(Zipfile.zip_name filename, data)])
    else Raise (IndexError (lit "string index out of range")).
Proof.
  unfold Zipfile.writestr.
  destruct (Zipfile.zip_name filename), name_indexed; reflexivity.
Qed.

(** The archive: an entry for each document, in order, or the IndexError
    of the first name that is empty and read by index. *)
Lemma create_zip_file_result (name_indexed : bool)
      (docx_files : dict Docx.Document) (mp_dict : dict mp_info) :
  create_zip_file name_indexed docx_files mp_dict
  = if forallb (fun kd =>
                  negb (name_indexed
                        && negb (truthy (Zipfile.zip_name
                                           (filename_of mp_dict (fst kd))))))
               docx_files
    then Ok (map (fun kd => (Zipfile.zip_name (filename_of mp_dict (fst kd)),
                             snd kd)) docx_files)
    else Raise (IndexError (lit "string index out of range")).
Proof.
  unfold create_zip_file.
  rewrite (for_each_cases _
             (fun kd => negb (name_indexed
                              && negb (truthy (Zipfile.zip_name
                                         (filename_of mp_dict (fst kd))))))
             (fun entries kd =>
                entries ++ [(Zipfile.zip_name (filename_of mp_dict (fst kd)),
                             snd kd)])
             (IndexError (lit "string index out of range"))).
  - destruct (forallb _ docx_files); [|reflexivity]. f_equal.
    assert (G : forall l acc,
               fold_left (fun entries (kd : str * Docx.Document) =>
                            entries
                            ++ [(Zipfile.zip_name (filename_of mp_dict (fst kd)),
                                 snd kd)]) l acc
               = acc ++ map (fun kd =>
                               (Zipfile.zip_name (filename_of mp_dict (fst kd)),
                                snd kd)) l).
    { induction l as [|x l IH]; intros acc; cbn [fold_left map].
      - rewrite app_nil_r; reflexivity.
      - rewrite IH, <- app_assoc. reflexivity. }
    apply (G docx_files []).
  - intros entries kd _. apply writestr_result.
Qed.

Lemma filename_of_entry_name (mp_dict : dict mp_info) (key : str)
      (info : mp_info) :
  get key mp_dict = Some info -> filename_of mp_dict key = entry_name info.
Proof.
  intros H. unfold filename_of, entry_name.
  rewrite H, !re_sub_class_filter. reflexivity.
Qed.

Lemma entry_name_nul_free (info : mp_info) :
  nul_free info -> ~ In Zipfile.nul (entry_name info).
Proof.
  intros [He Hf] H. unfold entry_name in H.
  apply in_app_or in H as [H|H].
  { apply filter_In in H as [H _]. exact (He H). }
  apply in_app_or in H as [H|H].
  { simpl in H. destruct H as [H|[H|[]]]; discriminate H. }
  apply in_app_or in H as [H|H].
  { apply filter_In in H as [H _]. exact (Hf H). }
  simpl in H. repeat (destruct H as [H|H]; [discriminate H|]). exact H.
Qed.

(** C7. When [process_files] returns its output and [create_zip_file] the
    archive, the archive has one entry for each document of the output,
    in the same order, with the same document, named after the
    representative of its key: the electorate and the full name, each
    without the characters less-than, greater-than, colon, double quote,
    slash, backslash, bar, question mark and star, and every other
    character kept, joined as "electorate, full name.docx", which
    [zipfile] ends before a character U+0000 if there is one.  When no
    electorate and no name of the output has a character U+0000, the
    archive is returned and every entry has this name in full.  For the
    electorate Ryan/Test and a name with a double quote, the slash and the
    quote go and nothing else. *)
Theorem create_zip_file_names (name_indexed : bool)
        (mps_df letters_df : DataFrame) :
  let mp_dict := build_mp_dict mps_df in
  (forall docx_files,
      process_files mps_df letters_df = Ok docx_files ->
      (forall zip_buffer,
          create_zip_file name_indexed docx_files mp_dict = Ok zip_buffer ->
          Forall2 (fun entry kd =>
                     snd entry = snd kd
                     /\ exists info,
                          get (fst kd) mp_dict = Some info
                          /\ fst entry
                             = Zipfile.zip_name
                                 (filter (fun c => negb (forbidden c))
                                         (Electorate info)
                                  ++ lit ", "
                                  ++ filter (fun c => negb (forbidden c))
                                            (Fullname info)
                                  ++ lit ".docx"))
                  zip_buffer docx_files)
      /\ ((forall kd info,
              In kd docx_files -> get (fst kd) mp_dict = Some info ->
              nul_free info) ->
          exists zip_buffer,
            create_zip_file name_indexed docx_files mp_dict = Ok zip_buffer
            /\ Forall2 (fun entry kd =>
                          snd entry = snd kd
                          /\ exists info,
                               get (fst kd) mp_dict = Some info
                               /\ fst entry
                                  = filter (fun c => negb (forbidden c))
                                           (Electorate info)
                                    ++ lit ", "
                                    ++ filter (fun c => negb (forbidden c))
                                              (Fullname info)
                                    ++ lit ".docx")
                       zip_buffer docx_files))
  /\ (forall c, forbidden c = true
                <-> In c ["<"; ">"; ":"; dquote; "/"; "\"; "|"; "?"; "*"]%char)
  /\ (exists docx_files zip_buffer,
        process_files Examples.ryan_test (Examples.one_letter (lit "Ryan/Test"))
        = Ok docx_files
        /\ create_zip_file name_indexed docx_files
                           (build_mp_dict Examples.ryan_test)
           = Ok zip_buffer
        /\ map fst zip_buffer = [lit "RyanTest, Pat OBrien.docx"]).
Proof.
  cbv zeta. split; [|split; [exact forbidden_iff|]].
  - intros docx_files Hp.
    assert (Hinfo : forall kd, In kd docx_files ->
                               exists info,
                                 get (fst kd) (build_mp_dict mps_df) = Some info).
    { intros kd Hin.
      destruct (In_process_files _ _ _ _ Hp Hin) as (info & _ & Hi & _).
      eauto. }
    split.
    + intros zip_buffer Hz. rewrite create_zip_file_result in Hz.
      destruct (forallb _ docx_files); [|discriminate]. injection Hz as <-.
      apply Forall2_map_In. intros kd Hin. cbn [fst snd].
      split; [reflexivity|]. destruct (Hinfo kd Hin) as [info Hi].
      exists info. split; [exact Hi|].
      rewrite (filename_of_entry_name _ _ _ Hi). reflexivity.
    + intros Hfree. rewrite create_zip_file_result.
      assert (Hname : forall kd, In kd docx_files ->
                 exists info,
                   get (fst kd) (build_mp_dict mps_df) = Some info
                   /\ Zipfile.zip_name (filename_of (build_mp_dict mps_df)
                                                    (fst kd))
                      = entry_name info).
      { intros kd Hin. destruct (Hinfo kd Hin) as [info Hi].
        exists info. split; [exact Hi|].
        rewrite (filename_of_entry_name _ _ _ Hi).
        apply zip_name_free, entry_name_nul_free. eapply Hfree; eauto. }
      replace (forallb _ docx_files) with true.
      * eexists. split; [reflexivity|].
        apply Forall2_map_In. intros kd Hin. cbn [fst snd].
        split; [reflexivity|]. destruct (Hname kd Hin) as (info & Hi & Hn).
        exists info. split; [exact Hi | exact Hn].
      * symmetry. apply forallb_forall. intros kd Hin.
        destruct (Hname kd Hin) as (info & _ & ->).
        unfold entry_name.
        destruct (filter _ (Electorate info)); cbn;
          rewrite andb_false_r; reflexivity.
  - destruct name_indexed; do 2 eexists;
      (split; [|split]); vm_compute; reflexivity.
Qed.

Lemma create_zip_file_names_witness :
  match process_files Examples.ryan_test
                      (Examples.one_letter (lit "Ryan/Test")) with
  | Ok docx_files =>
      exists zip_buffer,
        create_zip_file true docx_files (build_mp_dict Examples.ryan_test)
        = Ok zip_buffer
        /\ Forall2 (fun entry kd =>
                      snd entry = snd kd
                      /\ exists info,
                           get (fst kd) (build_mp_dict Examples.ryan_test)
                           = Some info
                           /\ fst entry
                              = filter (fun c => negb (forbidden c))
                                       (Electorate info)
                                ++ lit ", "
                                ++ filter (fun c => negb (forbidden c))
                                          (Fullname info)
                                ++ lit ".docx")
                   zip_buffer docx_files
  | Raise _ => False
  end.
Proof.
  destruct (process_files Examples.ryan_test
                          (Examples.one_letter (lit "Ryan/Test")))
    as [docx_files|e] eqn:E.
  - apply (proj2 (proj1 (create_zip_file_names true Examples.ryan_test
                           (Examples.one_letter (lit "Ryan/Test")))
                        docx_files E)).
    intros kd info Hin Hi. vm_compute in E. injection E as <-.
    destruct Hin as [<-|[]]. vm_compute in Hi. injection Hi as <-.
    split; intros H; vm_compute in H; intuition discriminate.
  - vm_compute in E. discriminate E.
Defined.

End Naming.

(** ** Sorting *)

Section SortLemmas.
Context {A K : Type} (key : A -> K) (lt : K -> K -> bool).
Hypothesis lt_asym : forall a b, lt a b = true -> lt b a = false.
Hypothesis lt_negtrans :
  forall a b c, lt a b = false -> lt b c = false -> lt a c = false.

Lemma insert_perm (x : A) (l : list A) :
  Permutation (PySort.insert key lt x l) (x :: l).
Proof.
  induction l as [|y l IH]; simpl; auto.
  destruct (lt (key y) (key x)); auto.
  rewrite IH. apply perm_swap.
Qed.

Lemma sorted_perm (l : list A) : Permutation (PySort.sorted key lt l) l.
Proof.
  induction l as [|x l IH]; simpl; auto.
  rewrite insert_perm. constructor; exact IH.
Qed.

Lemma insert_ascending (x : A) (l : list A) :
  PySort.ascending key lt l -> PySort.ascending key lt (PySort.insert key lt x l).
Proof.
  unfold PySort.ascending.
  induction 1 as [|y l Hl IH Hy]; simpl.
  - repeat constructor.
  - destruct (lt (key y) (key x)) eqn:E.
    + constructor; auto.
      apply Forall_forall. intros z Hz.
      apply (Permutation_in _ (insert_perm x l)) in Hz.
      destruct Hz as [<-|Hz]; [apply lt_asym; exact E|].
      rewrite Forall_forall in Hy; auto.
    + constructor; [constructor; auto|].
      constructor; auto.
      apply Forall_forall. intros z Hz.
      rewrite Forall_forall in Hy. specialize (Hy z Hz).
      apply lt_negtrans with (b := key y); assumption.
Qed.

Lemma sorted_ascending (l : list A) :
  PySort.ascending key lt (PySort.sorted key lt l).
Proof.
  induction l as [|x l IH]; simpl; [constructor|].
  apply insert_ascending; exact IH.
Qed.

(** The sort is stable: elements that are not below one another keep
    their order. *)
Lemma insert_stable (p : A -> bool) (x : A) (l : list A) :
  (forall a b, p a = true -> p b = true -> lt (key b) (key a) = false) ->
  filter p (PySort.insert key lt x l) = filter p (x :: l).
Proof.
  intros Hp. induction l as [|y l IH]; auto.
  simpl PySort.insert. destruct (lt (key y) (key x)) eqn:E; auto.
  simpl filter in *. rewrite IH.
  destruct (p y) eqn:Py; auto. destruct (p x) eqn:Px; auto.
  rewrite (Hp x y Px Py) in E. discriminate.
Qed.

Lemma sorted_stable (p : A -> bool) (l : list A) :
  (forall a b, p a = true -> p b = true -> lt (key b) (key a) = false) ->
  filter p (PySort.sorted key lt l) = filter p l.
Proof.
  intros Hp. induction l as [|x l IH]; auto.
  simpl PySort.sorted. rewrite insert_stable by exact Hp.
  simpl. rewrite IH. reflexivity.
Qed.

Lemma ascending_before (pre : list A) (a : A) (mid : list A) (b : A)
      (post : list A) :
  PySort.ascending key lt (pre ++ a :: mid ++ b :: post) ->
  lt (key b) (key a) = false.
Proof.
  unfold PySort.ascending. induction pre as [|x pre IH]; simpl; intros H.
  - apply StronglySorted_inv in H as [_ H].
    rewrite Forall_forall in H. apply H.
    apply in_or_app. right; left; reflexivity.
  - apply StronglySorted_inv in H as [H _]. auto.
Qed.

End SortLemmas.

(** ** Dates *)

Section DateLemmas.
Import Datetime.

Lemma lex_compare_refl (a : list Z) : lex_compare a a = Eq.
Proof. induction a as [|x a IH]; simpl; auto. rewrite Z.compare_refl; auto. Qed.

Lemma lex_compare_antisym (a b : list Z) :
  lex_compare b a = CompOpp (lex_compare a b).
Proof.
  revert b; induction a as [|x a IH]; intros [|y b]; simpl; auto.
  rewrite (Z.compare_antisym x y).
  destruct (x ?= y)%Z; simpl; auto.
Qed.

Lemma lex_compare_eq (a b : list Z) : lex_compare a b = Eq -> a = b.
Proof.
  revert b; induction a as [|x a IH]; intros [|y b]; simpl; auto;
    try discriminate.
  destruct (x ?= y)%Z eqn:E; try discriminate.
  apply Z.compare_eq in E. intros H; f_equal; auto.
Qed.

Lemma lex_compare_ge_trans (a b c : list Z) :
  lex_compare a b <> Lt -> lex_compare b c <> Lt -> lex_compare a c <> Lt.
Proof.
  revert b c; induction a as [|x a IH]; intros [|y b] [|z c]; simpl; auto;
    try congruence.
  destruct (Z.compare_spec x y), (Z.compare_spec y z), (Z.compare_spec x z);
    intros Hab Hbc; try congruence; try lia; subst; eauto.
Qed.

Lemma ltb_asym (a b : datetime) : ltb a b = true -> ltb b a = false.
Proof.
  unfold ltb, compare. rewrite (lex_compare_antisym (fields a) (fields b)).
  destruct (lex_compare (fields a) (fields b)); simpl; congruence.
Qed.

Lemma ltb_negtrans (a b c : datetime) :
  ltb a b = false -> ltb b c = false -> ltb a c = false.
Proof.
  unfold ltb, compare. intros H1 H2.
  pose proof (lex_compare_ge_trans (fields a) (fields b) (fields c)) as H.
  destruct (lex_compare (fields a) (fields b)),
           (lex_compare (fields b) (fields c)),
           (lex_compare (fields a) (fields c));
    try congruence; exfalso; apply H; congruence.
Qed.

Lemma eqb_eq_datetime (a b : datetime) : eqb a b = true <-> a = b.
Proof.
  unfold eqb, compare. split.
  - destruct (lex_compare (fields a) (fields b)) eqn:E; try discriminate.
    intros _. apply lex_compare_eq in E.
    destruct a, b; simpl in E. injection E; intros; subst; reflexivity.
  - intros ->. rewrite lex_compare_refl; reflexivity.
Qed.

Lemma ltb_irrefl (a : datetime) : ltb a a = false.
Proof. unfold ltb, compare. rewrite lex_compare_refl; reflexivity. Qed.

Lemma leb_antisym (a b : datetime) :
  leb a b = true -> leb b a = true -> a = b.
Proof.
  unfold leb, ltb. intros H1 H2. apply eqb_eq_datetime.
  unfold eqb, compare in *.
  rewrite (lex_compare_antisym (fields a) (fields b)) in H1.
  destruct (lex_compare (fields a) (fields b)); simpl in *; congruence.
Qed.

Lemma make_ge_min (y m d : Z) (dt : datetime) :
  make y m d = Some dt -> leb min dt = true.
Proof.
  unfold make. destruct (_ && _)%bool eqn:E; [|discriminate].
  intros [= <-].
  repeat (apply andb_true_iff in E as [E ?]).
  unfold leb, ltb, compare; simpl.
  destruct (Z.compare_spec y 1); try lia; auto. subst.
  destruct (Z.compare_spec m 1); try lia; auto. subst.
  destruct (Z.compare_spec d 1); try lia; auto.
Qed.

End DateLemmas.

(** ** The matcher *)

Section MatcherLemmas.
Import Regex.

Lemma plus_class_sound {R} (p : ascii -> bool) (k : str -> option R)
      (s : str) (x : R) :
  plus_class p k s = Some x ->
  exists c w s', s = c :: w ++ s' /\ forallb p (c :: w) = true /\ k s' = Some x.
Proof.
  induction s as [|c s IH]; simpl; [discriminate|].
  destruct (p c) eqn:Pc; [|discriminate].
  destruct (plus_class p k s) as [r|] eqn:E.
  - intros [= ->]. destruct (IH eq_refl) as (c' & w & s' & -> & Hw & Hk).
    exists c, (c' :: w), s'. repeat split; auto.
    change (forallb p (c :: c' :: w)) with (p c && forallb p (c' :: w)).
    rewrite Pc. exact Hw.
  - intros Hk. exists c, [], s. simpl. rewrite Pc. auto.
Qed.

(** Whatever the matcher finds is a match. *)
Lemma rmatch_sound {R} (r : regex) :
  forall (s : str) (g : groups) (k : str -> groups -> option R) (x : R),
    rmatch r s g k = Some x ->
    exists s' g', matches r s g s' g' /\ k s' g' = Some x.
Proof.
  induction r as [c|p|r1 IH1 r2 IH2|r1 IH1 r2 IH2| | |p|n r IH];
    intros s g k x H; simpl in H.
  - destruct s as [|a s]; [discriminate|].
    destruct (Ascii.eqb (lower a) c) eqn:E; [|discriminate].
    apply Ascii.eqb_eq in E. exists s, g. split; [constructor|]; assumption.
  - destruct s as [|a s]; [discriminate|].
    destruct (p a) eqn:E; [|discriminate].
    exists s, g. split; [constructor|]; assumption.
  - apply IH1 in H as (s1 & g1 & M1 & H).
    apply IH2 in H as (s2 & g2 & M2 & H).
    exists s2, g2. split; [econstructor; eassumption | assumption].
  - destruct (rmatch r1 s g k) as [y|] eqn:E.
    + injection H as ->. apply IH1 in E as (s' & g' & M & E).
      exists s', g'. split; [apply M_Alt_l|]; assumption.
    + apply IH2 in H as (s' & g' & M & H).
      exists s', g'. split; [apply M_Alt_r|]; assumption.
  - exists s, g. split; [constructor | assumption].
  - discriminate.
  - apply plus_class_sound in H as (c & w & s' & -> & Hw & Hk).
    exists s', g. split; [apply M_Plus|]; assumption.
  - apply IH in H as (s' & g' & M & H).
    eexists s', _. split; [apply M_Group; eassumption | exact H].
Qed.

Lemma rmatch_literal {R} (w u s : str) (g : groups)
      (k : str -> groups -> option R) :
  map lower u = map lower w -> rmatch (literal w) (u ++ s) g k = k s g.
Proof.
  revert u; induction w as [|c w IH]; intros [|a u] H; try discriminate.
  - reflexivity.
  - simpl in H. injection H as Ha Hu.
    change (literal (c :: w)) with (Seq (Lit (lower c)) (literal w)).
    simpl. rewrite Ha, Ascii.eqb_refl. apply IH; exact Hu.
Qed.

Lemma matches_literal (w : str) :
  forall s g s' g',
    matches (literal w) s g s' g' ->
    g' = g /\ exists u, s = u ++ s' /\ map lower u = map lower w.
Proof.
  induction w as [|c w IH]; intros s g s' g' H.
  - inversion H; subst. split; auto. exists []. auto.
  - change (literal (c :: w)) with (Seq (Lit (lower c)) (literal w)) in H.
    inversion H as [| |? ? ? ? s1 g1 ? ? M1 M2| | | | |]; subst.
    inversion M1; subst.
    apply IH in M2 as [-> (u & -> & Hu)].
    split; auto. exists (x :: u). simpl. split; congruence.
Qed.

Lemma matches_alts (l : list regex) :
  forall s g s' g',
    matches (alts l) s g s' g' -> exists r, In r l /\ matches r s g s' g'.
Proof.
  induction l as [|r l IH]; intros s g s' g' H.
  - inversion H.
  - change (alts (r :: l)) with (Alt r (alts l)) in H.
    inversion H as [| | |? ? ? ? ? ? M|? ? ? ? ? ? M| | |]; subst.
    + exists r. split; [left; reflexivity | assumption].
    + destruct (IH _ _ _ _ M) as (r' & Hin & M').
      exists r'. split; [right|]; assumption.
Qed.

Lemma rmatch_literal_None {R} (w s : str) (g : groups)
      (k : str -> groups -> option R) :
  (forall u s', s = u ++ s' -> map lower u <> map lower w) ->
  rmatch (literal w) s g k = None.
Proof.
  intros H. destruct (rmatch (literal w) s g k) as [x|] eqn:E; auto.
  apply rmatch_sound in E as (s' & g' & M & _).
  apply matches_literal in M as [_ (u & Hs & Hu)].
  exfalso. exact (H u s' Hs Hu).
Qed.

(** Among names none of which is the start of another, the one that the
    input starts with is the one that matches. *)
Lemma rmatch_alts_literals {R} (names : list str) (n u s : str) (g : groups)
      (k : str -> groups -> option R) :
  map lower u = map lower n ->
  In n names ->
  (forall n', In n' names -> n' <> n ->
              forall u' s', u ++ s = u' ++ s' -> map lower u' <> map lower n') ->
  rmatch (alts (map literal names)) (u ++ s) g k = k s g.
Proof.
  intros Hu. induction names as [|n0 names IH]; intros Hin Hother; [destruct Hin|].
  change (alts (map literal (n0 :: names)))
    with (Alt (literal n0) (alts (map literal names))).
  simpl rmatch.
  destruct (list_eq_dec ascii_dec n0 n) as [->|Hne].
  - rewrite (rmatch_literal n u s g k Hu).
    destruct (k s g) as [x|] eqn:Ek; auto.
    destruct (in_dec (list_eq_dec ascii_dec) n names) as [Hin'|Hnot].
    + apply IH; [exact Hin'|].
      intros n' Hn'. apply Hother. right; exact Hn'.
    + clear IH Hin. induction names as [|n1 names IH]; auto.
      change (alts (map literal (n1 :: names)))
        with (Alt (literal n1) (alts (map literal names))).
      simpl rmatch. rewrite rmatch_literal_None.
      * apply IH.
        -- intros n' [->|Hn'] Hne; [congruence|].
           apply Hother; auto. right; right; exact Hn'.
        -- intros Hn. apply Hnot. right; exact Hn.
      * apply Hother; [right; left; reflexivity|].
        intros ->. apply Hnot. left; reflexivity.
  - rewrite rmatch_literal_None.
    + apply IH.
      * destruct Hin as [->|Hin]; [congruence | exact Hin].
      * intros n' Hn'. apply Hother. right; exact Hn'.
    + apply Hother; [left; reflexivity | exact Hne].
Qed.

Lemma plus_class_greedy {R} (p : ascii -> bool) (k : str -> option R)
      (w s : str) (r : R) :
  w <> [] -> forallb p w = true ->
  match s with [] => True | c :: _ => p c = false end ->
  k s = Some r ->
  plus_class p k (w ++ s) = Some r.
Proof.
  intros Hw Hp Hs Hk. induction w as [|c w IH]; [congruence|].
  simpl in Hp. apply andb_true_iff in Hp as [Pc Pw].
  simpl. rewrite Pc. destruct w as [|c' w].
  - simpl. destruct s as [|a s]; simpl; [exact Hk|].
    rewrite Hs. exact Hk.
  - rewrite IH; auto. discriminate.
Qed.

Lemma firstn_app_sub {A} (u v : list A) :
  firstn (length (u ++ v) - length v) (u ++ v) = u.
Proof.
  rewrite length_app, Nat.add_sub, firstn_app, Nat.sub_diag, firstn_all.
  simpl. apply app_nil_r.
Qed.

Lemma matches_suffix (r : regex) (s : str) (g : groups) (s' : str) (g' : groups) :
  matches r s g s' g' -> exists u, s = u ++ s'.
Proof.
  induction 1 as [c x s g _|p x s g _|r1 r2 s g s1 g1 s2 g2 _ [u1 ->] _ [u2 ->]
                 |r1 r2 s g s' g' _ IH|r1 r2 s g s' g' _ IH|s g|p x w s g _
                 |n r s g s' g' _ IH].
  - exists [x]; reflexivity.
  - exists [x]; reflexivity.
  - exists (u1 ++ u2). rewrite app_assoc; reflexivity.
  - exact IH.
  - exact IH.
  - exists []; reflexivity.
  - exists (x :: w); reflexivity.
  - exact IH.
Qed.

Lemma matches_Lit_inv c s g s' g' :
  matches (Lit c) s g s' g' -> exists x, s = x :: s' /\ lower x = c /\ g' = g.
Proof. intros H; inversion H; subst; eauto. Qed.

Lemma matches_Class_inv p s g s' g' :
  matches (Class p) s g s' g' -> exists x, s = x :: s' /\ p x = true /\ g' = g.
Proof. intros H; inversion H; subst; eauto. Qed.

Lemma matches_Seq_inv r1 r2 s g s' g' :
  matches (Seq r1 r2) s g s' g' ->
  exists s1 g1, matches r1 s g s1 g1 /\ matches r2 s1 g1 s' g'.
Proof. intros H; inversion H; subst; eauto. Qed.

Lemma matches_Alt_inv r1 r2 s g s' g' :
  matches (Alt r1 r2) s g s' g' ->
  matches r1 s g s' g' \/ matches r2 s g s' g'.
Proof. intros H; inversion H; subst; auto. Qed.

Lemma matches_Eps_inv s g s' g' :
  matches Eps s g s' g' -> s' = s /\ g' = g.
Proof. intros H; inversion H; subst; auto. Qed.

Lemma matches_Plus_inv p s g s' g' :
  matches (Plus p) s g s' g' ->
  exists w, s = w ++ s' /\ w <> [] /\ forallb p w = true /\ g' = g.
Proof.
  intros H; inversion H; subst. exists (x :: w).
  repeat split; auto. discriminate.
Qed.

Lemma matches_Group_inv n r s g s' g' :
  matches (Group n r) s g s' g' ->
  exists g0, matches r s g s' g0
             /\ g' = (n, firstn (length s - length s') s) :: g0.
Proof. intros H; inversion H; subst; eauto. Qed.

End MatcherLemmas.

(** ** The two date formats *)

Section DateFormats.
Import Regex Strptime Spec.

Lemma digit_cases (a : ascii) :
  digit a = true -> In a (lit "0123456789").
Proof.
  destruct a as [[] [] [] [] [] [] [] []]; intros H; try discriminate H;
    simpl; tauto.
Qed.

Lemma digit_not_space (a : ascii) : digit a = true -> isspace a = false.
Proof.
  intros H. apply digit_cases in H. simpl in H.
  repeat (destruct H as [<-|H]; [reflexivity|]). destruct H.
Qed.

Lemma lower_comma (x : ascii) : lower x = ","%char -> x = ","%char.
Proof.
  destruct x as [[] [] [] [] [] [] [] []]; intros H; try discriminate H;
    reflexivity.
Qed.

Lemma range_digit (lo hi a : ascii) :
  digit lo = true -> digit hi = true -> range lo hi a = true -> digit a = true.
Proof.
  unfold digit, range. intros Hlo Hhi H.
  apply andb_true_iff in Hlo as [L1 L2], Hhi as [H1 H2], H as [A1 A2].
  apply Nat.leb_le in L1, L2, H1, H2, A1, A2.
  apply andb_true_iff; split; apply Nat.leb_le; lia.
Qed.

Lemma strip_no_space (s : str) :
  forallb (fun c => negb (isspace c)) s = true -> strip s = s.
Proof.
  intros H. unfold strip.
  assert (Hl : lstrip s = s).
  { apply lstrip_fixed. destruct s as [|c s]; auto.
    simpl in H. apply andb_true_iff in H as [H _].
    apply negb_true_iff; exact H. }
  rewrite Hl. clear Hl.
  induction s as [|c s IH]; auto.
  simpl in H. apply andb_true_iff in H as [Hc Hs].
  apply negb_true_iff in Hc.
  rewrite (rstrip_cons_nonspace c s Hc), IH; auto.
Qed.

Lemma digits_no_space (s : str) :
  forallb digit s = true -> forallb (fun c => negb (isspace c)) s = true.
Proof.
  induction s as [|c s IH]; simpl; auto.
  intros H. apply andb_true_iff in H as [Hc Hs].
  rewrite (digit_not_space c Hc), IH; auto.
Qed.

Lemma digits_value_total (s : str) (acc : Z) :
  forallb digit s = true -> exists v, digits_value acc s = Some v.
Proof.
  revert acc; induction s as [|c s IH]; intros acc H; simpl; eauto.
  simpl in H. apply andb_true_iff in H as [Hc Hs]. rewrite Hc. auto.
Qed.

Lemma py_int_digits (s : str) :
  s <> [] -> forallb digit s = true -> py_int s = digits_value 0 s.
Proof.
  intros Hne H. unfold py_int.
  rewrite (strip_no_space s (digits_no_space s H)).
  destruct s; [congruence | reflexivity].
Qed.

Lemma day_text_digits (d : str) :
  day_text d = true -> d <> [] /\ forallb digit d = true.
Proof.
  destruct d as [|a [|b [|c d]]]; simpl; try discriminate.
  - intros H. split; [discriminate|].
    rewrite (range_digit "1" "9" a); auto.
  - intros H. split; [discriminate|].
    apply orb_true_iff in H as [H|H]; [apply orb_true_iff in H as [H|H]|];
      apply andb_true_iff in H as [Ha Hb].
    + apply Ascii.eqb_eq in Ha; subst a.
      rewrite (range_digit "0" "1" b); auto.
    + rewrite (range_digit "1" "2" a), Hb; auto.
    + apply Ascii.eqb_eq in Ha; subst a.
      rewrite (range_digit "1" "9" b); auto.
Qed.

Lemma rmatch_year {R} (y s : str) (g : groups) (k : str -> groups -> option R) :
  year_text y = true -> rmatch year_re (y ++ s) g k = k s g.
Proof.
  unfold year_text. intros H. apply andb_true_iff in H as [Hl Hd].
  destruct y as [|a [|b [|c [|d [|e y]]]]]; try discriminate Hl.
  simpl in Hd. repeat (apply andb_true_iff in Hd as [? Hd]).
  simpl. repeat match goal with H : digit _ = true |- _ => rewrite H; clear H end.
  reflexivity.
Qed.

Lemma matches_year (s : str) (g : groups) (s' : str) (g' : groups) :
  matches year_re s g s' g' ->
  g' = g /\ exists y, s = y ++ s' /\ year_text y = true.
Proof.
  unfold year_re, seqs; simpl. intros H.
  repeat match goal with
         | M : matches (Seq _ _) _ _ _ _ |- _ => inversion M; subst; clear M
         | M : matches (Class _) _ _ _ _ |- _ => inversion M; subst; clear M
         | M : matches Eps _ _ _ _ |- _ => inversion M; subst; clear M
         end.
  split; auto. eexists [_; _; _; _]. split; [reflexivity|].
  unfold year_text. simpl.
  repeat match goal with H : digit _ = true |- _ => rewrite H; clear H end.
  reflexivity.
Qed.

Lemma rmatch_day {R} (d s : str) (g : groups) (k : str -> groups -> option R)
      (r : R) :
  day_text d = true ->
  k (","%char :: s) g = Some r ->
  rmatch day_re (d ++ ","%char :: s) g k = Some r.
Proof.
  intros Hd Hk.
  destruct d as [|a [|b [|c d]]]; try discriminate Hd.
  - simpl in Hd. pose proof (range_digit "1" "9" a eq_refl eq_refl Hd) as Ha.
    apply digit_cases in Ha. simpl in Ha.
    repeat (destruct Ha as [<-|Ha]; [try discriminate Hd; simpl; rewrite Hk; reflexivity|]).
    destruct Ha.
  - assert (Ha : digit a = true /\ digit b = true).
    { destruct (day_text_digits [a; b] Hd) as [_ H]. simpl in H.
      apply andb_true_iff in H as [H1 H2].
      apply andb_true_iff in H2 as [H2 _]. auto. }
    destruct Ha as [Ha Hb]. apply digit_cases in Ha, Hb. simpl in Ha, Hb.
    repeat (destruct Ha as [<-|Ha];
            [repeat (destruct Hb as [<-|Hb];
                     [try discriminate Hd; simpl; rewrite Hk; reflexivity|]);
             destruct Hb|]).
    destruct Ha.
Qed.

(** Lowering a character either leaves it or gives a letter. *)
Lemma lower_cases (x : ascii) :
  lower x = x
  \/ (97 <= nat_of_ascii (lower x) <= 122)
  \/ (224 <= nat_of_ascii (lower x) <= 254).
Proof.
  unfold lower.
  destruct (_ || _) eqn:E; [|left; reflexivity]. right.
  rewrite nat_ascii_embedding.
  - apply orb_true_iff in E as [E|E].
    + apply andb_true_iff in E as [E1 E2]. apply Nat.leb_le in E1, E2. lia.
    + apply andb_true_iff in E as [E _].
      apply andb_true_iff in E as [E1 E2]. apply Nat.leb_le in E1, E2. lia.
  - pose proof (nat_ascii_bounded x). apply orb_true_iff in E as [E|E].
    + apply andb_true_iff in E as [E1 E2]. apply Nat.leb_le in E1, E2. lia.
    + apply andb_true_iff in E as [E _].
      apply andb_true_iff in E as [E1 E2]. apply Nat.leb_le in E1, E2. lia.
Qed.

Lemma lower_is (c x : ascii) :
  In c [","; "3"; "0"; " "]%char -> lower x = c -> x = c.
Proof.
  intros Hc H. destruct (lower_cases x) as [E|E]; [congruence|].
  exfalso. rewrite H in E. simpl in Hc.
  repeat (destruct Hc as [<-|Hc]; [vm_compute in E; lia|]). destruct Hc.
Qed.

Lemma matches_day (s : str) (g : groups) (s' : str) (g' : groups) :
  matches day_re s g s' g' ->
  g' = g
  /\ exists d, s = d ++ s'
              /\ (day_text d = true
                  \/ exists a, d = [" "%char; a] /\ range "1" "9" a = true).
Proof.
  unfold day_re, alts; simpl. intros H.
  apply matches_Alt_inv in H as [H|H].
  { apply matches_Seq_inv in H as (s1 & g1 & H1 & H2).
    apply matches_Lit_inv in H1 as (x & -> & Hx & ->).
    apply matches_Class_inv in H2 as (y & -> & Hy & ->).
    apply lower_is in Hx; [subst x | simpl; tauto].
    split; auto. exists ["3"%char; y]. split; [reflexivity|]. left.
    simpl; rewrite ?Hx, ?Hy; simpl; rewrite ?orb_true_r; simpl; reflexivity. }
  apply matches_Alt_inv in H as [H|H].
  { apply matches_Seq_inv in H as (s1 & g1 & H1 & H2).
    apply matches_Class_inv in H1 as (x & -> & Hx & ->).
    apply matches_Class_inv in H2 as (y & -> & Hy & ->).
    split; auto. exists [x; y]. split; [reflexivity|]. left.
    simpl; rewrite ?Hx, ?Hy; simpl; rewrite ?orb_true_r; simpl; reflexivity. }
  apply matches_Alt_inv in H as [H|H].
  { apply matches_Seq_inv in H as (s1 & g1 & H1 & H2).
    apply matches_Lit_inv in H1 as (x & -> & Hx & ->).
    apply matches_Class_inv in H2 as (y & -> & Hy & ->).
    apply lower_is in Hx; [subst x | simpl; tauto].
    split; auto. exists ["0"%char; y]. split; [reflexivity|]. left.
    simpl; rewrite ?Hx, ?Hy; simpl; rewrite ?orb_true_r; simpl; reflexivity. }
  apply matches_Alt_inv in H as [H|H].
  { apply matches_Class_inv in H as (x & -> & Hx & ->).
    split; auto. exists [x]. split; [reflexivity|]. left. exact Hx. }
  apply matches_Alt_inv in H as [H|H]; [|inversion H].
  apply matches_Seq_inv in H as (s1 & g1 & H1 & H2).
  apply matches_Lit_inv in H1 as (x & -> & Hx & ->).
  apply matches_Class_inv in H2 as (y & -> & Hy & ->).
  apply lower_is in Hx; [subst x | simpl; tauto].
  split; auto. exists [" "%char; y]. split; [reflexivity|]. right. eauto.
Qed.

(** *** The names of the months *)

Lemma index_In (x : str) (l : list str) (i : Z) :
  index x l = Some i -> In x l.
Proof.
  revert i; induction l as [|y l IH]; intros i; simpl; [discriminate|].
  destruct (eqb y x) eqn:E.
  - apply eqb_eq in E; auto.
  - destruct (index x l); [|discriminate]. intros _. right. eapply IH; eauto.
Qed.

Lemma In_index (x : str) (l : list str) :
  In x l -> exists i, index x l = Some i.
Proof.
  induction l as [|y l IH]; [intros []|]. simpl.
  destruct (eqb y x) eqn:E; [eauto|].
  intros [->|H]; [rewrite eqb_refl in E; discriminate|].
  destruct (IH H) as [i ->]. simpl. eauto.
Qed.

Lemma prefix_free_spec (l : list str) (a b : str) :
  prefix_free l = true -> In a l -> In b l -> startswith a b = true -> a = b.
Proof.
  unfold prefix_free. rewrite forallb_forall. intros H Ha Hb Hs.
  specialize (H a Ha). rewrite forallb_forall in H. specialize (H b Hb).
  rewrite Hs in H. apply eqb_eq. exact H.
Qed.

Lemma lower_case_spec (l : list str) (n : str) :
  lower_case l = true -> In n l -> n <> [] /\ map lower n = n.
Proof.
  unfold lower_case. rewrite forallb_forall. intros H Hn.
  specialize (H n Hn). apply andb_true_iff in H as [H1 H2].
  apply eqb_eq in H2. split; auto. destruct n; [discriminate H1 | discriminate].
Qed.

(** The group of the month: the text that is, in lower case, one of the
    names. *)
Lemma rmatch_month {R} (c : ascii) (l : list str) (u s : str) (g : groups)
      (k : str -> groups -> option R) :
  prefix_free l = true -> lower_case l = true ->
  In (map lower u) l ->
  rmatch (Group c (alts (map literal l))) (u ++ s) g k = k s ((c, u) :: g).
Proof.
  intros Hpf Hlc Hin.
  destruct (lower_case_spec l _ Hlc Hin) as [_ Hn].
  simpl rmatch.
  rewrite (rmatch_alts_literals l (map lower u) u s g); auto.
  - rewrite firstn_app_sub. reflexivity.
  - intros n' Hn' Hne u' s' Heq Hu'.
    destruct (lower_case_spec l _ Hlc Hn') as [_ Hn'l].
    rewrite Hn'l in Hu'. apply Hne.
    apply app_eq_app in Heq as [t [[Hu _]|[Hu _]]].
    + apply (prefix_free_spec l n' (map lower u)); auto.
      rewrite Hu, map_app, Hu'. apply startswith_app.
    + symmetry. apply (prefix_free_spec l (map lower u) n'); auto.
      rewrite <- Hu', Hu, map_app. apply startswith_app.
Qed.

(** *** A whole date *)

Lemma blank_spec (w : str) :
  blank w = true <-> w <> [] /\ forallb isspace w = true.
Proof.
  unfold blank. rewrite andb_true_iff.
  destruct w; simpl; intuition (discriminate || congruence).
Qed.

Lemma head_not_space (d rest : str) :
  d <> [] -> forallb digit d = true ->
  match d ++ rest with [] => True | c :: _ => isspace c = false end.
Proof.
  destruct d as [|a d]; [congruence|]. simpl. intros _ H.
  apply andb_true_iff in H as [H _]. apply digit_not_space; exact H.
Qed.

(** A text of the form "month day, year" is matched entirely, at the first
    attempt, and its three parts are the groups. *)
Lemma re_match_date (c : ascii) (l : list str) (u w1 d w2 y : str) :
  prefix_free l = true -> lower_case l = true ->
  In (map lower u) l ->
  blank w1 = true -> day_text d = true ->
  blank w2 = true -> year_text y = true ->
  re_match (date_re c l) (u ++ w1 ++ d ++ [","%char] ++ w2 ++ y)
  = Some ([], [("Y"%char, y); ("d"%char, d); (c, u)]).
Proof.
  intros Hpf Hlc Hu Hw1 Hd Hw2 Hy.
  apply blank_spec in Hw1 as [Hw1 Hs1], Hw2 as [Hw2 Hs2].
  destruct (day_text_digits d Hd) as [Hdne Hdd].
  assert (Hyd : y <> [] /\ forallb digit y = true).
  { unfold year_text in Hy. apply andb_true_iff in Hy as [Hl Hy].
    split; auto. intros ->. discriminate Hl. }
  destruct Hyd as [Hyne Hyd].
  unfold re_match, date_re.
  change (rmatch (Seq ?a ?b) ?s ?g ?k)
    with (rmatch a s g (fun s' g' => rmatch b s' g' k)).
  rewrite rmatch_month by assumption.
  change (rmatch (Seq (Plus ?p) ?b) ?s ?g ?k)
    with (plus_class p (fun s' => rmatch b s' g k) s).
  apply plus_class_greedy; auto.
  { apply head_not_space; assumption. }
  change (rmatch (Seq (Group ?n ?a) ?b) ?s ?g ?k)
    with (rmatch a s g
            (fun s' g' => rmatch b s' ((n, firstn (length s - length s') s) :: g') k)).
  apply rmatch_day; [exact Hd|].
  rewrite (firstn_app_sub d).
  change (rmatch (Seq (Lit ?x) ?b) (?x :: ?s) ?g ?k) with (rmatch b s g k).
  change (rmatch (Seq (Plus ?p) ?b) ?s ?g ?k)
    with (plus_class p (fun s' => rmatch b s' g k) s).
  apply plus_class_greedy; auto.
  { rewrite <- (app_nil_r y). apply head_not_space; assumption. }
  change (rmatch (Seq (Group ?n ?a) ?b) ?s ?g ?k)
    with (rmatch a s g
            (fun s' g' => rmatch b s' ((n, firstn (length s - length s') s) :: g') k)).
  pose proof (fun g k => @rmatch_year (str * groups) y [] g k Hy) as Hyear.
  rewrite app_nil_r in Hyear. rewrite Hyear.
  simpl. rewrite Nat.sub_0_r, firstn_all. reflexivity.
Qed.

(** Conversely, whatever the expression matches entirely has this form; a
    day that was matched with a leading space is read without it. *)
Lemma re_match_date_inv (c : ascii) (l : list str) (s : str) (found : groups) :
  lower_case l = true ->
  re_match (date_re c l) s = Some ([], found) ->
  exists u w1 d w2 y dcap,
    s = u ++ w1 ++ d ++ [","%char] ++ w2 ++ y
    /\ In (map lower u) l /\ u <> []
    /\ blank w1 = true /\ day_text d = true
    /\ blank w2 = true /\ year_text y = true
    /\ (dcap = d \/ dcap = " "%char :: d)
    /\ found = [("Y"%char, y); ("d"%char, dcap); (c, u)].
Proof.
  intros Hlc H. unfold re_match in H.
  apply rmatch_sound in H as (s' & g' & M & Hk).
  injection Hk as -> ->. unfold date_re in M.
  apply matches_Seq_inv in M as (s1 & g1 & Mb & M).
  apply matches_Group_inv in Mb as (g0 & Mb & ->).
  apply matches_alts in Mb as (r & Hr & Mb).
  apply in_map_iff in Hr as (n & <- & Hn).
  apply matches_literal in Mb as [-> (u & -> & Hu)].
  destruct (lower_case_spec l n Hlc Hn) as [Hne Hnl].
  rewrite Hnl in Hu. rewrite firstn_app_sub in M.
  apply matches_Seq_inv in M as (s2 & g2 & Mw & M).
  apply matches_Plus_inv in Mw as (w1 & -> & Hw1 & Hs1 & ->).
  apply matches_Seq_inv in M as (s3 & g3 & Md & M).
  apply matches_Group_inv in Md as (g0 & Md & ->).
  apply matches_day in Md as [-> (d & -> & Hd)].
  rewrite firstn_app_sub in M.
  apply matches_Seq_inv in M as (s4 & g4 & Mc & M).
  apply matches_Lit_inv in Mc as (x & -> & Hx & ->).
  apply lower_is in Hx; [subst x | simpl; tauto].
  apply matches_Seq_inv in M as (s5 & g5 & Mw & M).
  apply matches_Plus_inv in Mw as (w2 & -> & Hw2 & Hs2 & ->).
  apply matches_Seq_inv in M as (s6 & g6 & My & M).
  apply matches_Group_inv in My as (g0 & My & ->).
  apply matches_year in My as [-> (y & -> & Hy)].
  apply matches_Eps_inv in M as [Es E]. subst s6.
  rewrite app_nil_r in E. simpl length in E.
  rewrite Nat.sub_0_r, firstn_all in E. subst found.
  assert (Hune : u <> []).
  { intros ->. simpl in Hu. congruence. }
  rewrite app_nil_r.
  destruct Hd as [Hd|(a & -> & Ha)].
  - exists u, w1, d, w2, y, d. repeat split; auto.
    + rewrite Hu; exact Hn.
    + apply blank_spec; auto.
    + apply blank_spec; auto.
  - exists u, (w1 ++ [" "%char]), [a], w2, y, [" "%char; a].
    repeat split; auto.
    + rewrite <- !app_assoc. reflexivity.
    + rewrite Hu; exact Hn.
    + apply blank_spec. split.
      * destruct w1; discriminate.
      * rewrite forallb_app, Hs1. reflexivity.
    + apply blank_spec; auto.
Qed.

Section OneFormat.

Variables (c : ascii) (rest l : list str) (format : str).
Hypothesis format_pattern : pattern format = Some (date_re c l).
Hypothesis names_sorted : forall x, In x l <-> In x rest.
Hypothesis names_free : prefix_free l = true.
Hypothesis names_lower : lower_case l = true.
Hypothesis convert_groups :
  forall y dcap u,
    convert [("Y"%char, y); ("d"%char, dcap); (c, u)]
    = match py_int y, index (map lower u) ([] :: rest), py_int dcap with
      | Some yv, Some m, Some dv => Datetime.make yv m dv
      | _, _, _ => None
      end.

Lemma month_of_In (u : str) (m : Z) :
  month_of ([] :: rest) u = Some m -> In (map lower u) l.
Proof.
  unfold month_of. destruct u as [|a u]; [discriminate|].
  intros H. apply index_In in H. destruct H as [H|H]; [discriminate H|].
  apply names_sorted; exact H.
Qed.

(** A date text is accepted, and gives its date. *)
Lemma strptime_accepts (s : str) (dt : Datetime.datetime) :
  date_text ([] :: rest) s dt -> strptime s format = Some dt.
Proof.
  intros (u & w1 & d & w2 & y & m & dv & yv
          & -> & Hm & Hw1 & Hd & Hw2 & Hy & Hdv & Hyv & Hdt).
  unfold strptime. rewrite format_pattern.
  rewrite (re_match_date c l u w1 d w2 y); auto.
  - rewrite convert_groups.
    destruct (day_text_digits d Hd) as [Hdne Hdd].
    unfold year_text in Hy. apply andb_true_iff in Hy as [Hl Hyd].
    rewrite (py_int_digits y), (py_int_digits d), Hyv, Hdv; auto.
    + unfold month_of in Hm. destruct u; [discriminate|]. rewrite Hm. exact Hdt.
    + intros ->. discriminate Hl.
  - eapply month_of_In; eassumption.
Qed.

(** What is accepted is a date text, and the result is its date. *)
Lemma strptime_accepted (s : str) (dt : Datetime.datetime) :
  strptime s format = Some dt -> date_text ([] :: rest) s dt.
Proof.
  unfold strptime. rewrite format_pattern.
  destruct (re_match (date_re c l) s) as [[[|a r] found]|] eqn:E;
    try discriminate.
  intros Hc.
  apply re_match_date_inv in E; [|exact names_lower].
  destruct E as (u & w1 & d & w2 & y & dcap
                 & -> & Hu & Hune & Hw1 & Hd & Hw2 & Hy & Hdcap & ->).
  rewrite convert_groups in Hc.
  destruct (day_text_digits d Hd) as [Hdne Hdd].
  assert (Hyd : y <> [] /\ forallb digit y = true).
  { unfold year_text in Hy. apply andb_true_iff in Hy as [Hl Hy].
    split; auto. intros ->. discriminate Hl. }
  destruct Hyd as [Hyne Hyd].
  assert (Hpd : py_int dcap = digits_value 0 d).
  { destruct Hdcap as [->| ->]; [apply py_int_digits; auto|].
    unfold py_int.
    assert (Hs : strip (" "%char :: d) = d).
    { unfold strip. simpl lstrip.
      change (strip d = d). apply strip_no_space, digits_no_space, Hdd. }
    rewrite Hs. destruct d; [congruence | reflexivity]. }
  rewrite Hpd, (py_int_digits y) in Hc by auto.
  destruct (digits_value 0 y) as [yv|] eqn:Hyv; [|discriminate].
  destruct (index (map lower u) ([] :: rest)) as [m|] eqn:Hm; [|discriminate].
  destruct (digits_value 0 d) as [dv|] eqn:Hdv; [|discriminate].
  exists u, w1, d, w2, y, m, dv, yv. repeat split; auto.
  unfold month_of. destruct u; [congruence | exact Hm].
Qed.

End OneFormat.

Lemma In_sorted_names (names : list str) (x : str) :
  In x (PySort.sorted (@length ascii) (fun a b => b <? a) names) <-> In x names.
Proof.
  pose proof (sorted_perm (@length ascii) (fun a b => b <? a) names) as P.
  split; apply Permutation_in; [exact P | symmetry; exact P].
Qed.

(** The format "%b %d, %Y" accepts the date texts with an abbreviated
    month name, and nothing else. *)
Lemma strptime_abbreviated (s : str) (dt : Datetime.datetime) :
  strptime s (lit "%b %d, %Y") = Some dt <-> date_text a_month s dt.
Proof.
  pose (l := PySort.sorted (@length ascii) (fun a b => b <? a) (tl a_month)).
  assert (Hp : pattern (lit "%b %d, %Y") = Some (date_re "b" l)) by reflexivity.
  assert (Hf : prefix_free l = true) by (vm_compute; reflexivity).
  assert (Hl : lower_case l = true) by (vm_compute; reflexivity).
  assert (Hc : forall y dcap u,
             convert [("Y"%char, y); ("d"%char, dcap); ("b"%char, u)]
             = match py_int y, index (map lower u) ([] :: tl a_month),
                     py_int dcap with
               | Some yv, Some m, Some dv => Datetime.make yv m dv
               | _, _, _ => None
               end).
  { intros y dcap u. unfold convert, field.
    change (group "Y" [("Y"%char, y); ("d"%char, dcap); ("b"%char, u)])
      with (Some y).
    change (group "d" [("Y"%char, y); ("d"%char, dcap); ("b"%char, u)])
      with (Some dcap).
    change (group "b" [("Y"%char, y); ("d"%char, dcap); ("b"%char, u)])
      with (Some u).
    change (group "B" [("Y"%char, y); ("d"%char, dcap); ("b"%char, u)])
      with (@None str).
    change ([] :: tl a_month) with a_month. cbv beta iota.
    destruct (py_int y), (index (map lower u) a_month), (py_int dcap);
      reflexivity. }
  change (date_text a_month s dt) with (date_text ([] :: tl a_month) s dt).
  split.
  - apply (strptime_accepted "b" (tl a_month) l _ Hp Hl Hc).
  - apply (strptime_accepts "b" (tl a_month) l _ Hp
             (In_sorted_names (tl a_month)) Hf Hl Hc).
Qed.

(** The format "%B %d, %Y" accepts the date texts with a full month name,
    and nothing else. *)
Lemma strptime_full (s : str) (dt : Datetime.datetime) :
  strptime s (lit "%B %d, %Y") = Some dt <-> date_text f_month s dt.
Proof.
  pose (l := PySort.sorted (@length ascii) (fun a b => b <? a) (tl f_month)).
  assert (Hp : pattern (lit "%B %d, %Y") = Some (date_re "B" l)) by reflexivity.
  assert (Hf : prefix_free l = true) by (vm_compute; reflexivity).
  assert (Hl : lower_case l = true) by (vm_compute; reflexivity).
  assert (Hc : forall y dcap u,
             convert [("Y"%char, y); ("d"%char, dcap); ("B"%char, u)]
             = match py_int y, index (map lower u) ([] :: tl f_month),
                     py_int dcap with
               | Some yv, Some m, Some dv => Datetime.make yv m dv
               | _, _, _ => None
               end).
  { intros y dcap u. unfold convert, field.
    change (group "Y" [("Y"%char, y); ("d"%char, dcap); ("B"%char, u)])
      with (Some y).
    change (group "d" [("Y"%char, y); ("d"%char, dcap); ("B"%char, u)])
      with (Some dcap).
    change (group "B" [("Y"%char, y); ("d"%char, dcap); ("B"%char, u)])
      with (Some u).
    change (group "b" [("Y"%char, y); ("d"%char, dcap); ("B"%char, u)])
      with (@None str).
    change ([] :: tl f_month) with f_month. cbv beta iota.
    destruct (py_int y), (index (map lower u) f_month), (py_int dcap);
      reflexivity. }
  change (date_text f_month s dt) with (date_text ([] :: tl f_month) s dt).
  split.
  - apply (strptime_accepted "B" (tl f_month) l _ Hp Hl Hc).
  - apply (strptime_accepts "B" (tl f_month) l _ Hp
             (In_sorted_names (tl f_month)) Hf Hl Hc).
Qed.

End DateFormats.

(** ** Parsing of the submission date (app.py:11-21) *)

Section ParseDate.
Import Spec.

Lemma convert_ge_min (g : Regex.groups) (dt : Datetime.datetime) :
  Strptime.convert g = Some dt -> Datetime.leb Datetime.min dt = true.
Proof.
  unfold Strptime.convert.
  destruct (Strptime.field g "Y" _ _) as [year|]; [|discriminate].
  destruct (Strptime.field g "B" _ _) as [[mB|]|]; try discriminate.
  destruct (Strptime.field g "b" _ _) as [[m|]|]; try discriminate.
  destruct (Strptime.field g "d" _ _) as [[d|]|]; try discriminate.
  apply make_ge_min.
Qed.

Lemma strptime_ge_min (s format : str) (dt : Datetime.datetime) :
  Strptime.strptime s format = Some dt -> Datetime.leb Datetime.min dt = true.
Proof.
  unfold Strptime.strptime.
  destruct (Strptime.pattern format) as [re|]; [|discriminate].
  destruct (Regex.re_match re s) as [[[|c rest] found]|]; try discriminate.
  apply convert_ge_min.
Qed.

(** No parsed date is before the sentinel. *)
Lemma parse_date_ge_min (s : str) :
  Datetime.leb Datetime.min (parse_date s) = true.
Proof.
  unfold parse_date.
  destruct (Strptime.strptime s (lit "%b %d, %Y")) as [d|] eqn:E1;
    [exact (strptime_ge_min _ _ _ E1)|].
  destruct (Strptime.strptime s (lit "%B %d, %Y")) as [d|] eqn:E2;
    [exact (strptime_ge_min _ _ _ E2)|].
  reflexivity.
Qed.

Lemma parse_date_unparseable (s : str) :
  parseable s = false -> parse_date s = Datetime.min.
Proof.
  unfold parseable, parse_date.
  destruct (Strptime.strptime s (lit "%b %d, %Y")); [discriminate|].
  destruct (Strptime.strptime s (lit "%B %d, %Y")); [discriminate|].
  reflexivity.
Qed.

(** The parseable date strings are the date texts with an abbreviated or a
    full month name. *)
Lemma parseable_date_text (s : str) :
  parseable s = true
  <-> exists dt, date_text Strptime.a_month s dt
                 \/ date_text Strptime.f_month s dt.
Proof.
  unfold parseable. split.
  - destruct (Strptime.strptime s (lit "%b %d, %Y")) as [d|] eqn:E1.
    + intros _. exists d. left. apply strptime_abbreviated; exact E1.
    + destruct (Strptime.strptime s (lit "%B %d, %Y")) as [d|] eqn:E2;
        [|discriminate].
      intros _. exists d. right. apply strptime_full; exact E2.
  - intros [dt [H|H]].
    + apply strptime_abbreviated in H. rewrite H. reflexivity.
    + apply strptime_full in H. rewrite H.
      destruct (Strptime.strptime s (lit "%b %d, %Y")); reflexivity.
Qed.

Lemma sorted_by_date_ascending (letters : list letter_copy) :
  StronglySorted (fun a b => Datetime.leb (date_of a) (date_of b) = true)
                 (sorted_by_date letters).
Proof.
  pose proof (sorted_ascending (fun x => parse_date (Submission_Date x))
                Datetime.ltb ltb_asym ltb_negtrans letters) as H.
  unfold PySort.ascending in H. fold (sorted_by_date letters) in H.
  induction H as [|x l Hl IH Hx]; constructor; auto.
  eapply Forall_impl; [|exact Hx].
  intros y Hy. unfold Datetime.leb, date_of. rewrite Hy. reflexivity.
Qed.

Lemma sorted_by_date_perm (letters : list letter_copy) :
  Permutation (sorted_by_date letters) letters.
Proof. apply sorted_perm. Qed.

Lemma sorted_by_date_stable (d : Datetime.datetime) (letters : list letter_copy) :
  filter (fun l => Datetime.eqb (date_of l) d) (sorted_by_date letters)
  = filter (fun l => Datetime.eqb (date_of l) d) letters.
Proof.
  apply sorted_stable. intros a b Ha Hb.
  apply eqb_eq_datetime in Ha, Hb. unfold date_of in *.
  rewrite Ha, Hb. apply ltb_irrefl.
Qed.

(** Whatever comes before a letter without a parseable date has the
    sentinel as its date. *)
Lemma before_unparseable (letters pre : list letter_copy) (a : letter_copy)
      (mid : list letter_copy) (b : letter_copy) (post : list letter_copy) :
  sorted_by_date letters = pre ++ a :: mid ++ b :: post ->
  parseable (Submission_Date b) = false ->
  date_of a = Datetime.min.
Proof.
  intros Hs Hb.
  pose proof (sorted_ascending (fun x => parse_date (Submission_Date x))
                Datetime.ltb ltb_asym ltb_negtrans letters) as H.
  fold (sorted_by_date letters) in H. rewrite Hs in H.
  apply ascending_before in H.
  rewrite (parse_date_unparseable _ Hb) in H.
  apply leb_antisym.
  - unfold Datetime.leb, date_of. rewrite H. reflexivity.
  - apply parse_date_ge_min.
Qed.

End ParseDate.

(** ** Rendering of a document (app.py:28-73) *)

Section Rendering.
Import Spec Docx.

Lemma xml_char_spec (c : ascii) :
  xml_char c = true
  <-> nat_of_ascii c = 9 \/ nat_of_ascii c = 10 \/ nat_of_ascii c = 13
      \/ 32 <= nat_of_ascii c.
Proof.
  unfold xml_char. cbv zeta.
  rewrite !orb_true_iff, !Nat.eqb_eq, Nat.leb_le. tauto.
Qed.

Lemma last_app_nonempty {A} (a b : list A) (x : A) :
  b <> [] -> last (a ++ b) x = last b x.
Proof.
  intros Hb. induction a as [|y a IH]; auto.
  simpl. destruct (a ++ b) eqn:E; auto.
  apply app_eq_nil in E as [_ E]. congruence.
Qed.

Lemma join_last_not_sep {A} (sep : list A) (l : list (list A)) (d x : A) :
  d <> x ->
  Forall (fun part => part <> [] /\ last part d <> x) l ->
  last (join sep l) d <> x.
Proof.
  intros Hd. induction 1 as [|p l [Hp Hlast] Hrest IH]; [exact Hd|].
  destruct l as [|q l]; [exact Hlast|].
  change (join sep (p :: q :: l)) with (p ++ sep ++ join sep (q :: l)).
  assert (Hj : join sep (q :: l) <> []).
  { inversion Hrest as [|? ? [Hq _] _]; subst.
    destruct l; simpl; [exact Hq|]. destruct q; [congruence | discriminate]. }
  rewrite app_assoc, last_app_nonempty by exact Hj.
  exact IH.
Qed.

End Rendering.

Section DocumentClaims.
Import Spec Docx.

(** C3, as stated, fails.  "Jan 1, 0001" is accepted by the first format
    and parses to the sentinel itself; a letter so dated, followed in the
    bucket by a letter whose date matches neither format, stays before
    it: the unparseable date does not sort before every parseable one. *)
Lemma unparseable_not_first_counterexample :
  parseable (lit "Jan 1, 0001") = true
  /\ parseable (lit "not a date") = false
  /\ parse_date (lit "Jan 1, 0001") = Datetime.min
  /\ sorted_by_date Examples.year_one_first = Examples.year_one_first
  /\ ~ (forall pre a mid b post,
           sorted_by_date Examples.year_one_first = pre ++ a :: mid ++ b :: post ->
           parseable (Submission_Date b) = false ->
           parseable (Submission_Date a) = false).
Proof.
  assert (H1 : parseable (lit "Jan 1, 0001") = true) by (vm_compute; reflexivity).
  assert (H2 : parseable (lit "not a date") = false) by (vm_compute; reflexivity).
  assert (H3 : sorted_by_date Examples.year_one_first = Examples.year_one_first)
    by (vm_compute; reflexivity).
  split; [exact H1|]. split; [exact H2|].
  split; [vm_compute; reflexivity|]. split; [exact H3|].
  intros H.
  specialize (H [] (Examples.dated (lit "Jan 1, 0001")) []
                (Examples.dated (lit "not a date")) [] H3 H2).
  change (parseable (lit "Jan 1, 0001") = false) in H. congruence.
Qed.

(** C3, amended.  The letters of a document are those of the bucket,
    sorted ascending by parsed submission date, letters with the same
    parsed date in the order of the bucket; the document is made unless a
    text of a letter has a character that XML does not allow, which
    raises the ValueError of lxml.  A date string is parsed with
    the format "%b %d, %Y" and, failing that, with "%B %d, %Y"; the first
    accepts exactly the texts "month day, year" with an abbreviated month
    name in any case, a day of one or two digits, a year of four digits
    and whitespace where the format has a space, that name a date which
    exists, and the second the same with the full month name; "Jun 28,
    2025" and "June 28, 2025" both give 28 June 2025.  A string that
    matches neither format gets the sentinel minimum date.  No parsed date
    is before the sentinel, so whatever precedes such a letter in the
    document has the sentinel as its date too: either its date matches
    neither format, or it is the first day of year 1. *)
Theorem sorted_by_date_spec (letters : list letter_copy) :
  Permutation (sorted_by_date letters) letters
  /\ StronglySorted (fun a b => Datetime.leb (date_of a) (date_of b) = true)
                    (sorted_by_date letters)
  /\ (forall d,
         filter (fun l => Datetime.eqb (date_of l) d) (sorted_by_date letters)
         = filter (fun l => Datetime.eqb (date_of l) d) letters)
  /\ (forall electorate mp,
         create_docx_for_electorate electorate mp letters
         = if forallb (renderable mp) letters
           then Ok (mk_document
                      (Some (lit "Roboto"))
                      (join [PageBreak]
                            (map (letter_blocks mp) (sorted_by_date letters))))
           else Raise xml_error)
  /\ (forall s,
         parse_date s
         = match Strptime.strptime s (lit "%b %d, %Y") with
           | Some d => d
           | None => match Strptime.strptime s (lit "%B %d, %Y") with
                     | Some d => d
                     | None => Datetime.min
                     end
           end)
  /\ (forall s dt, Strptime.strptime s (lit "%b %d, %Y") = Some dt
                   <-> date_text Strptime.a_month s dt)
  /\ (forall s dt, Strptime.strptime s (lit "%B %d, %Y") = Some dt
                   <-> date_text Strptime.f_month s dt)
  /\ parse_date (lit "Jun 28, 2025") = Datetime.mk_datetime 2025 6 28 0 0 0 0
  /\ parse_date (lit "June 28, 2025") = Datetime.mk_datetime 2025 6 28 0 0 0 0
  /\ (forall s, parseable s = true
                <-> exists dt, date_text Strptime.a_month s dt
                               \/ date_text Strptime.f_month s dt)
  /\ (forall s, parseable s = false -> parse_date s = Datetime.min)
  /\ (forall s, Datetime.leb Datetime.min (parse_date s) = true)
  /\ (forall pre a mid b post,
         sorted_by_date letters = pre ++ a :: mid ++ b :: post ->
         parseable (Submission_Date b) = false ->
         date_of a = Datetime.min)
  /\ map Submission_Date (sorted_by_date Examples.three_dates)
     = [lit "not a date"; lit "Jun 28, 2025"; lit "Jul 10, 2025"].
Proof.
  split; [apply sorted_by_date_perm|].
  split; [apply sorted_by_date_ascending|].
  split; [intros d; apply sorted_by_date_stable|].
  split; [intros e mp; apply create_docx_result|].
  split; [reflexivity|].
  split; [exact strptime_abbreviated|].
  split; [exact strptime_full|].
  split; [vm_compute; reflexivity|].
  split; [vm_compute; reflexivity|].
  split; [exact parseable_date_text|].
  split; [exact parse_date_unparseable|].
  split; [exact parse_date_ge_min|].
  split; [apply before_unparseable|].
  vm_compute; reflexivity.
Qed.

Lemma sorted_by_date_spec_witness :
  sorted_by_date Examples.year_one_first
    = [] ++ Examples.dated (lit "Jan 1, 0001")
         :: [] ++ Examples.dated (lit "not a date") :: []
  /\ parseable (lit "not a date") = false
  /\ date_of (Examples.dated (lit "Jan 1, 0001")) = Datetime.min.
Proof.
  assert (H : sorted_by_date Examples.year_one_first
              = [] ++ Examples.dated (lit "Jan 1, 0001")
                   :: [] ++ Examples.dated (lit "not a date") :: [])
    by (vm_compute; reflexivity).
  assert (Hb : parseable (Submission_Date (Examples.dated (lit "not a date")))
               = false) by (vm_compute; reflexivity).
  split; [exact H|]. split; [exact Hb|].
  destruct (sorted_by_date_spec Examples.year_one_first)
    as (_ & _ & _ & _ & _ & _ & _ & _ & _ & _ & _ & _ & Hbefore & _).
  exact (Hbefore _ _ _ _ _ H Hb).
Defined.

(** C9. The document of a representative has the font Roboto and
    consists, for each letter of the bucket in ascending order of date, of
    a paragraph with the bold run "Date: " and the submission date, an
    empty paragraph, the paragraph of the letter body with "[MP Name]"
    substituted, an empty paragraph, and a paragraph with the bold run
    "postcode, state"; the paragraph of a page break stands between two
    consecutive letters and none after the last.  It is made when the
    three texts of every letter have only characters that XML allows (TAB,
    LF, CR and those from U+0020 on); otherwise the ValueError of lxml is
    raised.  When [process_files] returns its output, every document of
    it is such a document, of a bucket that is not empty; it returns when
    every letter of every bucket can be rendered for the representative
    of the bucket, and raises that ValueError otherwise. *)
Theorem create_docx_layout (mps_df letters_df : DataFrame) :
  let mp_dict := build_mp_dict mps_df in
  let buckets := group_letters mp_dict letters_df in
  let blocks := fun (info : mp_info) (l : letter_copy) =>
                  [Paragraph [mk_run (lit "Date: " ++ Submission_Date l)
                                     (Some true)];
                   Paragraph [];
                   plain_paragraph
                     (replace_mp_name_in_letter (Your_letter l)
                        (Salutation info) (Last_name info));
                   Paragraph [];
                   Paragraph [mk_run (POSTCODE l ++ lit ", " ++ STATE l)
                                     (Some true)]] in
  (forall electorate info letters,
      create_docx_for_electorate electorate info letters
      = if forallb (renderable info) letters
        then Ok (mk_document
                   (Some (lit "Roboto"))
                   (join [PageBreak]
                         (map (blocks info) (sorted_by_date letters))))
        else Raise xml_error)
  /\ (forall info l,
         renderable info l
         = xml_compatible (lit "Date: " ++ Submission_Date l)
           && xml_compatible
                (replace_mp_name_in_letter (Your_letter l) (Salutation info)
                                           (Last_name info))
           && xml_compatible (POSTCODE l ++ lit ", " ++ STATE l))
  /\ (forall text, xml_compatible text = true
                   <-> forall c, In c text ->
                         nat_of_ascii c = 9 \/ nat_of_ascii c = 10
                         \/ nat_of_ascii c = 13 \/ 32 <= nat_of_ascii c)
  /\ (forall docx_files key doc,
         process_files mps_df letters_df = Ok docx_files ->
         get key docx_files = Some doc ->
         exists info letters,
           get key mp_dict = Some info
           /\ get key buckets = Some letters
           /\ letters <> []
           /\ Forall (fun l => renderable info l = true) letters
           /\ Permutation (sorted_by_date letters) letters
           /\ StronglySorted
                (fun a b => Datetime.leb (date_of a) (date_of b) = true)
                (sorted_by_date letters)
           /\ normal_font doc = Some (lit "Roboto")
           /\ body doc
              = join [PageBreak] (map (blocks info) (sorted_by_date letters))
           /\ last (body doc) (Paragraph []) <> PageBreak)
  /\ ((exists docx_files, process_files mps_df letters_df = Ok docx_files)
      <-> forall key info letters l,
            get key mp_dict = Some info ->
            get key buckets = Some letters ->
            In l letters -> renderable info l = true)
  /\ (forall e, process_files mps_df letters_df = Raise e -> e = xml_error).
Proof.
  cbv zeta. split; [intros e info letters; apply create_docx_result|].
  split; [reflexivity|].
  split.
  { intros text. unfold xml_compatible. rewrite forallb_forall.
    split; intros H c Hc; apply xml_char_spec; apply H; exact Hc. }
  split; [|split; [apply process_files_returns|]].
  - intros docx_files key doc Hp Hdoc.
    pose proof (proj2 (process_files_Ok _ _ _ Hp)) as Hall.
    rewrite all_renderable_spec in Hall.
    apply get_In in Hdoc.
    destruct (In_process_files _ _ _ _ Hp Hdoc)
      as (info & letters & Hi & Hl & Hd & _).
    cbn [fst snd] in *. subst doc. exists info, letters.
    split; [exact Hi|]. split; [exact Hl|].
    split.
    { intros ->. exact (group_letters_nonempty _ _ _ Hl). }
    split.
    { apply Forall_forall. intros l Hin. eapply Hall; eauto. }
    split; [apply sorted_by_date_perm|].
    split; [apply sorted_by_date_ascending|].
    split; [reflexivity|]. split; [reflexivity|].
    unfold rendered. cbn [body].
    apply join_last_not_sep; [discriminate|].
    apply Forall_forall. intros part Hin.
    apply in_map_iff in Hin as [l [<- _]].
    split; discriminate.
  - intros e H. apply process_files_Raise in H as [H _]. exact H.
Qed.

Lemma create_docx_layout_witness :
  match process_files Examples.nsw_senator Examples.nsw_twice with
  | Ok docx_files =>
      match get (lit "NSW_Jennifer McAllister") docx_files with
      | Some doc =>
          normal_font doc = Some (lit "Roboto")
          /\ last (body doc) (Paragraph []) <> PageBreak
      | None => False
      end
  | Raise _ => False
  end.
Proof.
  destruct (process_files Examples.nsw_senator Examples.nsw_twice)
    as [docx_files|e] eqn:E; [|vm_compute in E; discriminate E].
  destruct (get (lit "NSW_Jennifer McAllister") docx_files) as [doc|] eqn:G.
  - destruct (proj1 (proj2 (proj2 (proj2
                (create_docx_layout Examples.nsw_senator Examples.nsw_twice))))
              docx_files (lit "NSW_Jennifer McAllister") doc E G)
      as (info & letters & _ & _ & _ & _ & _ & _ & Hf & _ & Hlast).
    split; [exact Hf | exact Hlast].
  - vm_compute in E. injection E as <-. vm_compute in G. discriminate G.
Defined.

(** A form feed in the body of a matched letter: no document is made,
    [process_files] raises and [main] reports the error. *)
Example form_feed_raises (name_indexed : bool) :
  process_files Examples.nsw_senator MoreExamples.form_feed_letter
  = Raise xml_error
  /\ main name_indexed (Some Examples.nsw_senator)
          (Some MoreExamples.form_feed_letter) true
     = [st_success (lit "Files uploaded successfully!");
        st_info (lit "**MPs loaded:** 1 records");
        st_info (lit "**Letters loaded:** 1 records");
        st_error (lit "Error processing files: All strings must be XML compatible: Unicode or ASCII, no NULL bytes or control characters")].
Proof. split; vm_compute; reflexivity. Qed.

End DocumentClaims.

(** ** The check of the columns (app.py:193-206) *)

Section Schema.

Lemma contains_prefix (p b : str) : contains p (p ++ b) = true.
Proof.
  destruct (p ++ b) eqn:E; simpl.
  - apply app_eq_nil in E as [-> _]. reflexivity.
  - rewrite <- E, startswith_app. reflexivity.
Qed.

Lemma contains_app_l (p a s : str) :
  contains p s = true -> contains p (a ++ s) = true.
Proof.
  intros H. induction a as [|c a IH]; auto.
  simpl. rewrite IH. apply orb_true_r.
Qed.

Lemma In_join (sep x : str) (l : list str) :
  In x l -> exists a b, join sep l = a ++ x ++ b.
Proof.
  induction l as [|y l IH]; [intros []|].
  intros [->|Hin].
  - exists []. destruct (join_cons_prefix sep x l) as [r Hr].
    exists r. exact Hr.
  - destruct (IH Hin) as [a [b Hab]].
    destruct l as [|z l]; [destruct Hin|].
    change (join sep (y :: z :: l)) with (y ++ sep ++ join sep (z :: l)).
    rewrite Hab. exists (y ++ sep ++ a), b.
    rewrite <- !app_assoc. reflexivity.
Qed.

(** A message that ends with the joined names contains each of them. *)
Lemma contains_joined (intro sep col : str) (l : list str) :
  In col l -> contains col (intro ++ join sep l) = true.
Proof.
  intros H. destruct (In_join sep col l H) as [a [b Hab]].
  rewrite Hab. apply contains_app_l, contains_app_l, contains_prefix.
Qed.

Lemma In_missing_cols (required : list str) (df : DataFrame) (col : str) :
  In col (missing_cols required df)
  <-> In col required /\ ~ In col (columns df).
Proof.
  unfold missing_cols. rewrite filter_In, negb_true_iff.
  rewrite <- (existsb_eqb_In col (columns df)).
  destruct (existsb (eqb col) (columns df)); intuition congruence.
Qed.

(** C8, as stated, fails.  With Salutation absent from the representative
    table and STATE absent from the letter table, the one error shown
    names Salutation only, whichever way the interpreter reads the names
    of archive entries. *)
Lemma schema_error_counterexample :
  let shown :=
    main true (Some Examples.no_salutation) (Some Examples.no_state) true in
  In (lit "STATE") (missing_cols required_letter_columns Examples.no_state)
  /\ shown = [st_error (lit "MPs CSV is missing required columns: Salutation")]
  /\ main false (Some Examples.no_salutation) (Some Examples.no_state) true
     = shown
  /\ ~ (forall col,
           In col (missing_cols required_mp_columns Examples.no_salutation
                   ++ missing_cols required_letter_columns Examples.no_state) ->
           exists msg, In (st_error msg) shown /\ contains col msg = true).
Proof.
  cbv zeta.
  assert (Hs : main true (Some Examples.no_salutation)
                    (Some Examples.no_state) true
               = [st_error (lit "MPs CSV is missing required columns: Salutation")])
    by (vm_compute; reflexivity).
  split; [vm_compute; auto|]. split; [exact Hs|].
  split; [vm_compute; reflexivity|].
  intros H. destruct (H (lit "STATE")) as [msg [Hin Hc]].
  - vm_compute; auto.
  - rewrite Hs in Hin. destruct Hin as [[= <-]|[]].
    vm_compute in Hc. discriminate.
Qed.

(** C8, amended.  The missing columns of a table are the required ones
    that are not among its columns.  If the representative table misses
    any, the only thing shown is an error that names every missing column
    of the representative table (and none of the letter table); otherwise,
    if the letter table misses any, the only thing shown is an error that
    names every missing column of the letter table; in both cases nothing
    is grouped or generated.  When no required column is missing, the
    upload is acknowledged and, once the generate button is pressed,
    processing runs.  None of this depends on the way the interpreter
    reads the names of archive entries. *)
Theorem main_schema_check (name_indexed : bool)
        (mps_df letters_df : DataFrame) (clicked : bool) :
  let missing_mp_cols := missing_cols required_mp_columns mps_df in
  let missing_letter_cols := missing_cols required_letter_columns letters_df in
  let mp_error :=
    lit "MPs CSV is missing required columns: "
    ++ join (lit ", ") missing_mp_cols in
  let letter_error :=
    lit "Letters CSV is missing required columns: "
    ++ join (lit ", ") missing_letter_cols in
  (forall col, In col missing_mp_cols
               <-> In col required_mp_columns /\ ~ In col (columns mps_df))
  /\ (forall col, In col missing_letter_cols
                  <-> In col required_letter_columns
                      /\ ~ In col (columns letters_df))
  /\ main name_indexed (Some mps_df) (Some letters_df) clicked
     = match missing_mp_cols, missing_letter_cols with
       | _ :: _, _ => [st_error mp_error]
       | [], _ :: _ => [st_error letter_error]
       | [], [] =>
           [st_success (lit "Files uploaded successfully!");
            st_info (lit "**MPs loaded:** "
                         ++ decimal (length (iterrows mps_df))
                         ++ lit " records");
            st_info (lit "**Letters loaded:** "
                         ++ decimal (length (iterrows letters_df))
                         ++ lit " records")]
           ++ (if clicked then on_generate name_indexed mps_df letters_df
               else [])
       end
  /\ (forall col, In col missing_mp_cols -> contains col mp_error = true)
  /\ (forall col, In col missing_letter_cols ->
                  contains col letter_error = true).
Proof.
  cbv zeta.
  split; [intros col; apply In_missing_cols|].
  split; [intros col; apply In_missing_cols|].
  split.
  - unfold main.
    destruct (missing_cols required_mp_columns mps_df); [|reflexivity].
    destruct (missing_cols required_letter_columns letters_df); reflexivity.
  - split; intros col H; apply contains_joined; exact H.
Qed.

Lemma main_schema_check_witness :
  In (lit "Salutation") (missing_cols required_mp_columns Examples.no_salutation)
  /\ contains (lit "Salutation")
              (lit "MPs CSV is missing required columns: "
               ++ join (lit ", ")
                    (missing_cols required_mp_columns Examples.no_salutation))
     = true.
Proof.
  assert (H : In (lit "Salutation")
                 (missing_cols required_mp_columns Examples.no_salutation))
    by (vm_compute; auto).
  split; [exact H|].
  destruct (main_schema_check true Examples.no_salutation Examples.no_state
                              true)
    as (_ & _ & _ & Hmp & _).
  exact (Hmp _ H).
Defined.

(** With every required column present and the button pressed, the
    output of [process_files] is what is offered for download. *)
Example main_generates (name_indexed : bool) :
  map (fun e => match e with
                | st_download_button name _ => name
                | st_download_archive name _ => name
                | st_error m | st_success m | st_warning m | st_info m => m
                end)
      (main name_indexed (Some Examples.nsw_senator)
            (Some Examples.nsw_twice) true)
  = [lit "Files uploaded successfully!";
     lit "**MPs loaded:** 1 records";
     lit "**Letters loaded:** 1 records";
     lit "Generated 1 DOCX files!";
     lit "NSW, Jennifer McAllister.docx";
     lit "all_electorate_letters.zip"].
Proof. destruct name_indexed; vm_compute; reflexivity. Qed.

End Schema.


(** * Further properties *)

(** ** The summary table (app.py:250-288) *)

Section SummaryTable.
Import Spec Summary.

Lemma get_default_count_electorate (letter_counts : dict nat) (t e : str) :
  get_default e 0 (count_electorate letter_counts t)
  = get_default e 0 letter_counts + (if eqb e t then 1 else 0).
Proof.
  unfold count_electorate, get_default.
  destruct (get t letter_counts) as [n|] eqn:E; rewrite get_set;
    rewrite (eqb_sym e t); destruct (eqb t e) eqn:Et; try lia.
  - apply eqb_eq in Et; subst. rewrite E. reflexivity.
  - apply eqb_eq in Et; subst. rewrite E. reflexivity.
Qed.

Lemma get_default_count_tokens (ts : list str) (letter_counts : dict nat)
      (e : str) :
  get_default e 0 (fold_left count_electorate ts letter_counts)
  = get_default e 0 letter_counts + occurrences e ts.
Proof.
  revert letter_counts; induction ts as [|t ts IH]; intros lc; simpl.
  - unfold occurrences; simpl; lia.
  - rewrite IH, get_default_count_electorate, occurrences_cons. lia.
Qed.

Lemma get_default_count_letters (rows : list Series) (letter_counts : dict nat)
      (e : str) :
  get_default e 0
    (fold_left (fun lc letter =>
                  fold_left count_electorate (extract_electorates letter) lc)
               rows letter_counts)
  = get_default e 0 letter_counts
    + list_sum (map (fun letter => occurrences e (extract_electorates letter))
                    rows).
Proof.
  revert letter_counts; induction rows as [|letter rows IH]; intros lc; simpl.
  - lia.
  - rewrite IH, get_default_count_tokens. lia.
Qed.

(** The count kept for a token is the number of times the letters have it. *)
Lemma get_default_letter_counts_of (letters_df : DataFrame) (e : str) :
  get_default e 0 (letter_counts_of letters_df)
  = list_sum (map (fun letter => occurrences e (extract_electorates letter))
                  (iterrows letters_df)).
Proof.
  unfold letter_counts_of. rewrite get_default_count_letters. reflexivity.
Qed.

Lemma length_copies (info : mp_info) (rows : list Series) :
  length (flat_map (copies_for info) rows)
  = list_sum (map (fun letter =>
                     occurrences (Electorate info) (extract_electorates letter))
                  rows).
Proof.
  rewrite length_flat_map. f_equal. apply map_ext. intros letter.
  unfold copies_for. apply repeat_length.
Qed.

(** X1. When [process_files] returns its output, the summary has one row
    for each document of it, in the same order, with the electorate and
    the full name of the representative, and the number it shows is the
    number of letters in that document. *)
Theorem summary_counts_letters (mps_df letters_df : DataFrame)
        (docx_files : dict Docx.Document) :
  process_files mps_df letters_df = Ok docx_files ->
  Forall2 (fun row kd =>
             exists info letters,
               get (fst kd) (build_mp_dict mps_df) = Some info
               /\ get (fst kd) (group_letters (build_mp_dict mps_df) letters_df)
                  = Some letters
               /\ create_docx_for_electorate (Electorate info) info letters
                  = Ok (snd kd)
               /\ row_Electorate row = Electorate info
               /\ row_MP row = Fullname info
               /\ row_Letters row = length letters)
          (summary_data docx_files (build_mp_dict mps_df)
                        (letter_counts_of letters_df))
          docx_files.
Proof.
  intros Hp. unfold summary_data. apply Forall2_map_In.
  intros kd Hin.
  destruct (In_process_files _ _ _ _ Hp Hin)
    as (info & letters & Hi & Hl & _ & Hd).
  exists info, letters. rewrite Hi. simpl.
  repeat split; auto.
  rewrite get_default_letter_counts_of, <- length_copies.
  pose proof (get_default_group_letters (build_mp_dict mps_df) letters_df
                (fst kd) (NoDup_keys_build_mp_dict mps_df)) as Hg.
  unfold get_default in Hg. rewrite Hl, Hi in Hg. rewrite Hg. reflexivity.
Qed.

Lemma summary_counts_letters_witness :
  match process_files Examples.nsw_senator Examples.nsw_twice with
  | Ok docx_files =>
      Forall2 (fun row kd =>
                 exists info letters,
                   get (fst kd) (build_mp_dict Examples.nsw_senator)
                   = Some info
                   /\ get (fst kd)
                          (group_letters (build_mp_dict Examples.nsw_senator)
                                         Examples.nsw_twice)
                      = Some letters
                   /\ create_docx_for_electorate (Electorate info) info letters
                      = Ok (snd kd)
                   /\ row_Electorate row = Electorate info
                   /\ row_MP row = Fullname info
                   /\ row_Letters row = length letters)
              (summary_data docx_files (build_mp_dict Examples.nsw_senator)
                            (letter_counts_of Examples.nsw_twice))
              docx_files
  | Raise _ => False
  end.
Proof.
  destruct (process_files Examples.nsw_senator Examples.nsw_twice)
    as [docx_files|e] eqn:E.
  - apply (summary_counts_letters Examples.nsw_senator Examples.nsw_twice).
    exact E.
  - vm_compute in E. discriminate E.
Defined.

End SummaryTable.

(** ** Order and content of the dictionaries (app.py:79-91, 129-136) *)

Section DictionaryOrder.
Import Spec.

Lemma set_new {V} (k : str) (v : V) (d : dict V) :
  get k d = None -> set k v d = d ++ [(k, v)].
Proof.
  induction d as [|[k' v'] d IH]; simpl; auto.
  destruct (eqb k' k); [discriminate|]. intros H. rewrite IH; auto.
Qed.

Lemma filter_filter_comm {A} (p q : A -> bool) (l : list A) :
  filter p (filter q l) = filter q (filter p l).
Proof.
  induction l as [|x l IH]; simpl; auto.
  destruct (p x) eqn:P, (q x) eqn:Q; simpl; rewrite ?P, ?Q, IH; reflexivity.
Qed.

Lemma distinct_filter (p : str -> bool) (l : list str) :
  distinct (filter p l) = filter p (distinct l).
Proof.
  induction l as [|y l IH]; simpl; auto.
  destruct (p y) eqn:P; simpl.
  - rewrite IH, filter_filter_comm. reflexivity.
  - rewrite IH, filter_filter_comm. symmetry. 
    rewrite <- IH. 
    assert (H : forall m, filter (fun z => negb (eqb y z)) (filter p m) = filter p m).
    { induction m as [|z m IHm]; simpl; auto.
      destruct (p z) eqn:Pz; simpl; auto.
      destruct (eqb y z) eqn:E; simpl; [|rewrite IHm; reflexivity].
      apply eqb_eq in E; subst. congruence. }
    rewrite IH. apply H.
Qed.

Lemma distinct_app_In (k : str) (l ks : list str) :
  In k l -> distinct (l ++ k :: ks) = distinct (l ++ ks).
Proof.
  induction l as [|x l IH]; [intros []|]. intros Hin. simpl. f_equal.
  destruct (eqb x k) eqn:E.
  - apply eqb_eq in E; subst k.
    rewrite <- !distinct_filter, !filter_app. simpl.
    rewrite eqb_refl. reflexivity.
  - destruct Hin as [->|Hin]; [rewrite eqb_refl in E; discriminate|].
    rewrite IH; auto.
Qed.

Lemma keys_fold_rows (rows : list Series) (d : dict mp_info) :
  NoDup (keys d) ->
  keys (fold_left (fun mp_dict mp => set (mp_key_of mp) (mp_info_of mp) mp_dict)
                  rows d)
  = distinct (keys d ++ map mp_key_of rows).
Proof.
  revert d; induction rows as [|mp rows IH]; intros d Hd; simpl.
  - rewrite app_nil_r, distinct_NoDup; auto.
  - rewrite IH by (apply NoDup_keys_set; exact Hd).
    rewrite keys_set. destruct (mem (mp_key_of mp) d) eqn:E.
    + apply mem_true in E. rewrite distinct_app_In; auto.
    + rewrite <- app_assoc. reflexivity.
Qed.

Lemma keys_fold_set {V} (f : str -> option V) (ks : list str) (r0 : dict V) :
  NoDup ks -> (forall k, In k ks -> ~ In k (keys r0)) ->
  keys (fold_left (fun r x => match f x with
                              | Some v => set x v r
                              | None => r
                              end) ks r0)
  = keys r0 ++ filter (fun x => match f x with Some _ => true | None => false end)
                      ks.
Proof.
  revert r0; induction ks as [|x ks IH]; intros r0 Hnd Hdis; simpl.
  - rewrite app_nil_r; reflexivity.
  - inversion Hnd as [|? ? Hx Hks]; subst.
    destruct (f x) as [v|] eqn:E.
    + rewrite IH; auto.
      * rewrite keys_set.
        assert (Hm : mem x r0 = false).
        { destruct (mem x r0) eqn:M; auto. apply mem_true in M.
          exfalso. apply (Hdis x); [left; reflexivity | exact M]. }
        rewrite Hm, <- app_assoc. reflexivity.
      * intros k Hk. rewrite keys_set.
        destruct (mem x r0).
        -- apply Hdis. right; exact Hk.
        -- intros Hin. apply in_app_or in Hin as [Hin|[->|[]]].
           ++ apply (Hdis k); [right|]; assumption.
           ++ contradiction.
    + apply IH; auto. intros k Hk. apply Hdis. right; exact Hk.
Qed.

(** X2. The dictionary lists the keys of the rows in the order in which
    they first occur; every row's key is in it; and the output, when
    [process_files] returns one, has the keys of the representatives with
    a bucket, in the order of the dictionary, whatever the order in which
    the letters filled the buckets. *)
Theorem keys_in_table_order (mps_df letters_df : DataFrame) :
  let mp_dict := build_mp_dict mps_df in
  keys mp_dict = distinct (map mp_key_of (iterrows mps_df))
  /\ (forall mp, In mp (iterrows mps_df) -> In (mp_key_of mp) (keys mp_dict))
  /\ (forall docx_files,
        process_files mps_df letters_df = Ok docx_files ->
        keys docx_files
        = filter (fun key => mem key (group_letters mp_dict letters_df))
                 (keys mp_dict)).
Proof.
  cbv zeta.
  assert (Hk : keys (build_mp_dict mps_df)
               = distinct (map mp_key_of (iterrows mps_df))).
  { unfold build_mp_dict. rewrite keys_fold_rows by constructor. reflexivity. }
  split; [exact Hk|]. split.
  - intros mp Hin. apply get_Some_keys. rewrite get_build_mp_dict.
    destruct (find (fun mp0 => eqb (mp_key_of mp0) (mp_key_of mp))
                   (rev (iterrows mps_df))) as [mp'|] eqn:E; [simpl; eauto|].
    apply in_rev in Hin. pose proof (find_none _ _ E mp Hin) as Hf.
    simpl in Hf. rewrite eqb_refl in Hf. discriminate.
  - intros docx_files Hp. apply process_files_Ok in Hp as [-> _].
    unfold documents.
    pose (f := fun k : str =>
                 match get k (group_letters (build_mp_dict mps_df) letters_df),
                       get k (build_mp_dict mps_df) with
                 | Some letters, Some info => Some (rendered info letters)
                 | _, _ => None
                 end).
    rewrite (fold_left_ext_eq _
               (fun r x => match f x with Some v => set x v r | None => r end)).
    + rewrite keys_fold_set; auto using NoDup_keys_build_mp_dict.
      simpl. apply filter_ext_in. intros k Hin.
      apply get_Some_keys in Hin as [info Hi]. unfold f, mem. rewrite Hi.
      destruct (get k (group_letters _ _)); reflexivity.
    + intros acc x. unfold f.
      destruct (get x (group_letters _ _)); auto.
      destruct (get x (build_mp_dict mps_df)); auto.
Qed.

Lemma keys_in_table_order_witness :
  match process_files MoreExamples.bruce_and_hotham
                      (Examples.one_letter (lit "Hotham, Bruce")) with
  | Ok docx_files => keys docx_files = [lit "Bruce_Ann Lee"; lit "Hotham_Bob Ray"]
  | Raise _ => False
  end.
Proof.
  destruct (process_files MoreExamples.bruce_and_hotham
                          (Examples.one_letter (lit "Hotham, Bruce")))
    as [docx_files|e] eqn:E.
  - rewrite (proj2 (proj2 (keys_in_table_order MoreExamples.bruce_and_hotham
                             (Examples.one_letter (lit "Hotham, Bruce"))))
                   docx_files E).
    vm_compute. reflexivity.
  - vm_compute in E. discriminate E.
Defined.

Lemma fold_rows_fresh (rows : list Series) (d : dict mp_info) :
  NoDup (keys d ++ map mp_key_of rows) ->
  fold_left (fun mp_dict mp => set (mp_key_of mp) (mp_info_of mp) mp_dict) rows d
  = d ++ map (fun mp => (mp_key_of mp, mp_info_of mp)) rows.
Proof.
  revert d; induction rows as [|mp rows IH]; intros d H; simpl.
  - rewrite app_nil_r; reflexivity.
  - rewrite set_new.
    + rewrite IH.
      * rewrite <- app_assoc. reflexivity.
      * unfold keys in *. rewrite map_app, <- app_assoc. exact H.
    + apply get_None_keys. apply NoDup_remove_2 in H.
      intros Hin. apply H. apply in_or_app. left; exact Hin.
Qed.

(** X3. When no two rows have the same key, the dictionary is the rows
    themselves, in order, and looking a row up by its key gives back its own
    fields. *)
Theorem build_mp_dict_distinct_keys (mps_df : DataFrame) :
  NoDup (map mp_key_of (iterrows mps_df)) ->
  build_mp_dict mps_df
  = map (fun mp => (mp_key_of mp, mp_info_of mp)) (iterrows mps_df)
  /\ forall mp, In mp (iterrows mps_df) ->
                get (mp_key_of mp) (build_mp_dict mps_df) = Some (mp_info_of mp).
Proof.
  intros Hnd.
  assert (Hb : build_mp_dict mps_df
               = map (fun mp => (mp_key_of mp, mp_info_of mp)) (iterrows mps_df)).
  { unfold build_mp_dict. rewrite fold_rows_fresh; auto. }
  split; [exact Hb|].
  intros mp Hin. apply In_get; [apply NoDup_keys_build_mp_dict|].
  rewrite Hb. apply (in_map (fun mp => (mp_key_of mp, mp_info_of mp))). exact Hin.
Qed.

Lemma build_mp_dict_distinct_keys_witness :
  build_mp_dict MoreExamples.bruce_and_hotham
  = map (fun mp => (mp_key_of mp, mp_info_of mp))
        (iterrows MoreExamples.bruce_and_hotham)
  /\ forall mp, In mp (iterrows MoreExamples.bruce_and_hotham) ->
                get (mp_key_of mp) (build_mp_dict MoreExamples.bruce_and_hotham)
                = Some (mp_info_of mp).
Proof.
  apply (build_mp_dict_distinct_keys MoreExamples.bruce_and_hotham).
  vm_compute. repeat constructor.
  - intros [H|[]]. discriminate H.
  - intros [].
Defined.

End DictionaryOrder.

(** ** The outcome without a match (app.py:228-230) and letters that match
    nobody (app.py:113-127) *)

Section Unmatched.
Import Spec Shape.

Lemma for_electorates_unmatched (mp_dict : dict mp_info) (letter : Series)
      (electorates : list str) (el : dict (list letter_copy)) :
  (forall e, In e electorates -> matching_mps mp_dict e = []) ->
  for_electorates mp_dict letter electorates el = el.
Proof.
  revert el; induction electorates as [|e es IH]; intros el H; [reflexivity|].
  unfold for_electorates in *. cbn [fold_left].
  rewrite (H e (or_introl eq_refl)). cbn [for_mp_keys fold_left].
  apply IH. intros e' He'. apply H. right; exact He'.
Qed.

Lemma no_match_buckets (mps_df letters_df : DataFrame) :
  (forall letter e,
      In letter (iterrows letters_df) ->
      In e (extract_electorates letter) ->
      matching_mps (build_mp_dict mps_df) e = [])
  <-> forall key,
        get key (build_mp_dict mps_df) = None
        \/ get key (group_letters (build_mp_dict mps_df) letters_df) = None.
Proof.
  pose proof (NoDup_keys_build_mp_dict mps_df) as Hd. split.
  - intros H key.
    destruct (get key (build_mp_dict mps_df)) as [info|] eqn:Hi; [right|auto].
    destruct (get key (group_letters _ _)) as [letters|] eqn:Hl; [|reflexivity].
    exfalso.
    assert (Hm : mem key (group_letters (build_mp_dict mps_df) letters_df)
                 = true) by (unfold mem; rewrite Hl; reflexivity).
    apply mem_group_letters in Hm; [|exact Hd].
    destruct Hm as (info' & Hi' & letter & Hin & He).
    assert (Hk : In key (matching_mps (build_mp_dict mps_df) (Electorate info')))
      by (apply In_matching_mps; eauto).
    rewrite (H letter _ Hin He) in Hk. exact Hk.
  - intros H letter e Hl He.
    destruct (matching_mps (build_mp_dict mps_df) e) as [|key ks] eqn:E; auto.
    exfalso.
    assert (Hk : In key (matching_mps (build_mp_dict mps_df) e))
      by (rewrite E; left; reflexivity).
    apply In_matching_mps in Hk as (info & Hi & Hel).
    assert (Hm : mem key (group_letters (build_mp_dict mps_df) letters_df)
                 = true).
    { apply mem_group_letters; [exact Hd|].
      exists info. split; auto. exists letter. rewrite Hel. auto. }
    unfold mem in Hm. destruct (H key) as [Hn|Hn]; rewrite Hn in *; discriminate.
Qed.

(** An empty output: no token of any letter matches a representative. *)
Lemma process_files_empty (mps_df letters_df : DataFrame) :
  process_files mps_df letters_df = Ok []
  <-> forall letter e,
        In letter (iterrows letters_df) ->
        In e (extract_electorates letter) ->
        matching_mps (build_mp_dict mps_df) e = [].
Proof.
  rewrite no_match_buckets. split.
  - intros Hp key. apply process_files_Ok in Hp as [Hdocs _].
    pose proof (get_documents (build_mp_dict mps_df)
                  (group_letters (build_mp_dict mps_df) letters_df) key) as Hg.
    rewrite <- Hdocs in Hg. cbn [get] in Hg.
    destruct (get key (group_letters _ _)); [|auto].
    destruct (get key (build_mp_dict mps_df)); [discriminate | auto].
  - intros H. rewrite process_files_result.
    replace (all_renderable _ _) with true.
    + f_equal.
      destruct (documents _ _) as [|[key doc] rest] eqn:E; [reflexivity|].
      exfalso.
      assert (Hin : In (key, doc)
                       (documents (build_mp_dict mps_df)
                          (group_letters (build_mp_dict mps_df) letters_df)))
        by (rewrite E; left; reflexivity).
      apply In_get in Hin; [|apply NoDup_keys_documents].
      rewrite get_documents in Hin.
      destruct (H key) as [Hn|Hn]; rewrite Hn in Hin;
        [destruct (get key (group_letters _ _))|]; discriminate.
    + symmetry. apply all_renderable_spec.
      intros key info letters l Hi Hl _.
      destruct (H key) as [Hn|Hn]; congruence.
Qed.

(** An output that is not empty: every letter of every bucket can be
    rendered, and some token matches a representative. *)
Lemma process_files_nonempty (mps_df letters_df : DataFrame) :
  (exists docx_files,
      process_files mps_df letters_df = Ok docx_files /\ docx_files <> [])
  <-> (forall key info letters l,
          get key (build_mp_dict mps_df) = Some info ->
          get key (group_letters (build_mp_dict mps_df) letters_df)
          = Some letters ->
          In l letters -> renderable info l = true)
      /\ exists letter e,
           In letter (iterrows letters_df)
           /\ In e (extract_electorates letter)
           /\ matching_mps (build_mp_dict mps_df) e <> [].
Proof.
  split.
  - intros (docx_files & Hp & Hne). split.
    + apply process_files_returns. eauto.
    + destruct docx_files as [|kd rest]; [congruence|].
      destruct (In_process_files _ _ _ kd Hp (or_introl eq_refl))
        as (info & letters & Hi & Hl & _).
      assert (Hm : mem (fst kd)
                       (group_letters (build_mp_dict mps_df) letters_df)
                   = true) by (unfold mem; rewrite Hl; reflexivity).
      apply mem_group_letters in Hm; [|apply NoDup_keys_build_mp_dict].
      destruct Hm as (info' & Hi' & letter & Hin & He).
      exists letter, (Electorate info'). split; [exact Hin|].
      split; [exact He|]. intros Hn.
      assert (Hk : In (fst kd)
                      (matching_mps (build_mp_dict mps_df) (Electorate info')))
        by (apply In_matching_mps; eauto).
      rewrite Hn in Hk. exact Hk.
  - intros (Hall & letter & e & Hin & He & Hm).
    apply process_files_returns in Hall as [docx_files Hp].
    exists docx_files. split; [exact Hp|]. intros ->.
    apply Hm. exact (proj1 (process_files_empty _ _) Hp letter e Hin He).
Qed.

(** X4. [process_files] returns an empty output exactly when no token of
    any letter matches a representative, whatever characters the letters
    have; and this is exactly when all that a press of the button shows
    is the warning that no matching electorates were found. *)
Theorem no_match_outcome (name_indexed : bool) (mps_df letters_df : DataFrame) :
  let no_match :=
    forall letter e,
      In letter (iterrows letters_df) ->
      In e (extract_electorates letter) ->
      matching_mps (build_mp_dict mps_df) e = [] in
  (process_files mps_df letters_df = Ok [] <-> no_match)
  /\ (on_generate name_indexed mps_df letters_df
      = [st_warning
           (lit "No matching electorates found between MPs and Letters files.")]
      <-> no_match).
Proof.
  cbv zeta.
  pose proof (process_files_empty mps_df letters_df) as H1.
  split; [exact H1|]. rewrite <- H1. unfold on_generate.
  destruct (process_files mps_df letters_df) as [[|kd rest]|e].
  - split; reflexivity.
  - split; intros H; discriminate H.
  - split; intros H; discriminate H.
Qed.

(** X5. A letter none of whose tokens matches a representative is dropped
    without a trace: the assignment map and the output are what they are
    without that row. *)
Theorem unmatched_letter_dropped (mps_df like : DataFrame)
        (before : list Series) (letter : Series) (after : list Series) :
  (forall e, In e (extract_electorates letter) ->
             matching_mps (build_mp_dict mps_df) e = []) ->
  group_letters (build_mp_dict mps_df)
                (letters_with like (before ++ letter :: after))
  = group_letters (build_mp_dict mps_df) (letters_with like (before ++ after))
  /\ process_files mps_df (letters_with like (before ++ letter :: after))
     = process_files mps_df (letters_with like (before ++ after)).
Proof.
  intros H.
  assert (Hg : group_letters (build_mp_dict mps_df)
                 (letters_with like (before ++ letter :: after))
               = group_letters (build_mp_dict mps_df)
                   (letters_with like (before ++ after))).
  { unfold group_letters, letters_with, for_letters. cbn [iterrows].
    rewrite !fold_left_app. cbn [fold_left].
    rewrite for_electorates_unmatched by exact H. reflexivity. }
  split; [exact Hg|]. unfold process_files. rewrite Hg. reflexivity.
Qed.

Lemma unmatched_letter_dropped_witness :
  group_letters (build_mp_dict Examples.nsw_senator)
                (Shape.letters_with Examples.nsw_twice
                   (iterrows Examples.nsw_twice
                    ++ MoreExamples.bruce_letter :: []))
  = group_letters (build_mp_dict Examples.nsw_senator)
                  (Shape.letters_with Examples.nsw_twice
                     (iterrows Examples.nsw_twice ++ []))
  /\ process_files Examples.nsw_senator
                   (Shape.letters_with Examples.nsw_twice
                      (iterrows Examples.nsw_twice
                       ++ MoreExamples.bruce_letter :: []))
     = process_files Examples.nsw_senator
                     (Shape.letters_with Examples.nsw_twice
                        (iterrows Examples.nsw_twice ++ [])).
Proof.
  apply (unmatched_letter_dropped Examples.nsw_senator Examples.nsw_twice).
  intros e H. vm_compute in H. destruct H as [<-|[]]. reflexivity.
Defined.

End Unmatched.

(** ** Names of archive entries, whatever the dictionary (app.py:140-158) *)

Section SafeNames.

Lemma forallb_app_true {A} (p : A -> bool) (l1 l2 : list A) :
  forallb p l1 = true -> forallb p l2 = true -> forallb p (l1 ++ l2) = true.
Proof. intros H1 H2. rewrite forallb_app, H1, H2. reflexivity. Qed.

Lemma re_sub_class_clean (cls : ascii -> bool) (s : str) :
  forallb (fun c => negb (cls c)) (re_sub_class cls s) = true.
Proof.
  induction s as [|c s IH]; simpl; auto.
  destruct (cls c) eqn:E; simpl; auto. rewrite E, IH. reflexivity.
Qed.

Lemma filename_of_clean (mp_dict : dict mp_info) (mp_key : str) :
  forallb (fun c => negb (forbidden c)) (filename_of mp_dict mp_key) = true.
Proof.
  unfold filename_of. repeat apply forallb_app_true;
    try apply re_sub_class_clean; reflexivity.
Qed.

Lemma forallb_app_l {A} (p : A -> bool) (l1 l2 : list A) :
  forallb p (l1 ++ l2) = true -> forallb p l1 = true.
Proof.
  rewrite forallb_app. intros H. apply andb_true_iff in H as [H _]. exact H.
Qed.

(** Where [zipfile] cuts a name: before the first U+0000. *)
Lemma zip_name_cut (s : str) :
  exists rest,
    s = Zipfile.zip_name s ++ rest
    /\ (rest = [] \/ exists rest', rest = Zipfile.nul :: rest').
Proof.
  induction s as [|c s (rest & IH & Hrest)].
  - exists []. split; [reflexivity | left; reflexivity].
  - cbn [Zipfile.zip_name]. destruct (Ascii.eqb c Zipfile.nul) eqn:E.
    + apply Ascii.eqb_eq in E; subst c. exists (Zipfile.nul :: s).
      split; [reflexivity | right; eauto].
    + exists rest. split; [cbn [app]; f_equal; exact IH | exact Hrest].
Qed.

Lemma filename_of_not_nil (mp_dict : dict mp_info) (mp_key : str) :
  filename_of mp_dict mp_key <> [].
Proof.
  unfold filename_of. intros H.
  apply app_eq_nil in H as [_ H]. discriminate H.
Qed.

(** X6. Whatever documents and dictionary it is given, and whichever way
    the interpreter reads the names, the archive that [create_zip_file]
    returns has one entry for each document, in order and with that
    document; the name of an entry is the file name of the download
    button of the document as far as its first character U+0000, if it
    has one; so no entry name contains U+0000 or one of the nine
    characters that are removed.  The archive is returned unless a file
    name starts with U+0000 and the interpreter reads the last character
    of the then empty name; in that case the call raises IndexError. *)
Theorem create_zip_file_safe_names (name_indexed : bool)
        (docx_files : dict Docx.Document) (mp_dict : dict mp_info) :
  (forall zip_buffer,
      create_zip_file name_indexed docx_files mp_dict = Ok zip_buffer ->
      map snd zip_buffer = map snd docx_files
      /\ Forall (fun entry =>
                   forallb (fun c => negb (forbidden c)) (fst entry) = true
                   /\ ~ In Zipfile.nul (fst entry))
                zip_buffer
      /\ Forall2 (fun entry kd =>
                    exists rest,
                      filename_of mp_dict (fst kd) = fst entry ++ rest
                      /\ (rest = [] \/ exists rest', rest = Zipfile.nul :: rest'))
                 zip_buffer docx_files)
  /\ ((exists zip_buffer,
          create_zip_file name_indexed docx_files mp_dict = Ok zip_buffer)
      <-> name_indexed = false
          \/ forall kd rest,
               In kd docx_files ->
               filename_of mp_dict (fst kd) <> Zipfile.nul :: rest)
  /\ (forall e, create_zip_file name_indexed docx_files mp_dict = Raise e ->
                e = IndexError (lit "string index out of range")).
Proof.
  rewrite create_zip_file_result. split; [|split].
  - intros zip_buffer H.
    destruct (forallb _ docx_files); [|discriminate]. injection H as <-.
    split; [rewrite map_map; reflexivity|]. split.
    + apply Forall_forall. intros entry Hin.
      apply in_map_iff in Hin as (kd & <- & _). cbn [fst]. split.
      * destruct (zip_name_prefix (filename_of mp_dict (fst kd))) as [rest Hr].
        apply (forallb_app_l _ _ rest). rewrite <- Hr. apply filename_of_clean.
      * apply zip_name_no_nul.
    + apply Forall2_map_In. intros kd _. cbn [fst]. apply zip_name_cut.
  - split.
    + intros [zip_buffer H].
      destruct (forallb _ docx_files) eqn:F; [|discriminate].
      destruct name_indexed; [right | left; reflexivity].
      intros kd rest Hin Hn. rewrite forallb_forall in F.
      specialize (F kd Hin). rewrite Hn in F. cbn in F. discriminate F.
    + intros H. replace (forallb _ docx_files) with true; [eauto|].
      symmetry. apply forallb_forall. intros kd Hin.
      destruct H as [->|H]; [reflexivity|].
      destruct (filename_of mp_dict (fst kd)) as [|c s] eqn:E.
      { exfalso. exact (filename_of_not_nil _ _ E). }
      cbn [Zipfile.zip_name]. destruct (Ascii.eqb c Zipfile.nul) eqn:Ec.
      * apply Ascii.eqb_eq in Ec; subst c. exfalso. exact (H kd s Hin E).
      * cbn. rewrite andb_false_r. reflexivity.
  - intros e H. destruct (forallb _ docx_files); [discriminate|].
    injection H as <-. reflexivity.
Qed.

Lemma create_zip_file_safe_names_witness :
  exists zip_buffer,
    create_zip_file true [(lit "A_B C", Docx.new)]
                    [(lit "A_B C",
                      mk_mp_info (lit "A") (lit "Dr") (lit "B") (lit "C")
                                 (lit "B C"))]
    = Ok zip_buffer.
Proof.
  apply (proj1 (proj2 (create_zip_file_safe_names true _ _))).
  right. intros kd rest Hin. destruct Hin as [<-|[]].
  vm_compute. discriminate.
Defined.

(** A character U+0000 in the electorate ends the entry name; at the
    start of the electorate it leaves an empty name, which an interpreter
    that reads the last character of the name refuses after the
    individual downloads have been offered. *)
Example nul_in_electorate :
  (exists docx_files,
      process_files MoreExamples.nul_inside
                    (Examples.one_letter (lit "A" ++ [Zipfile.nul] ++ lit "B"))
      = Ok docx_files
      /\ option_map (map fst)
           (match create_zip_file true docx_files
                                  (build_mp_dict MoreExamples.nul_inside) with
            | Ok zip_buffer => Some zip_buffer
            | Raise _ => None
            end)
         = Some [lit "A"])
  /\ map (fun e => match e with
                   | st_download_button name _ => name
                   | st_download_archive name _ => name
                   | st_error m | st_success m | st_warning m | st_info m => m
                   end)
         (on_generate true MoreExamples.nul_first
                      (Examples.one_letter (Zipfile.nul :: lit "B")))
     = [lit "Generated 1 DOCX files!";
        Zipfile.nul :: lit "B, X Y.docx";
        lit "Error processing files: string index out of range"].
Proof.
  split; [eexists; split|]; vm_compute; reflexivity.
Qed.

End SafeNames.

(** ** The shape of the tokens (app.py:97-111) *)

Section TokenShape.
Import Spec Shape.

Lemma within_refl (s : str) : within s s.
Proof. exists [], []. rewrite app_nil_r. reflexivity. Qed.

Lemma within_trans (a b c : str) : within a b -> within b c -> within a c.
Proof.
  intros (p1 & q1 & ->) (p2 & q2 & ->).
  exists (p2 ++ p1), (q1 ++ q2). rewrite <- !app_assoc. reflexivity.
Qed.

Lemma within_In (t s : str) (c : ascii) : within t s -> In c t -> In c s.
Proof.
  intros (p & q & ->) H. apply in_or_app. right. apply in_or_app. left; exact H.
Qed.

Lemma lstrip_suffix (s : str) : exists pre, s = pre ++ lstrip s.
Proof.
  induction s as [|c s [pre IH]]; simpl.
  - exists []. reflexivity.
  - destruct (isspace c).
    + exists (c :: pre). simpl. f_equal. exact IH.
    + exists []. reflexivity.
Qed.

Lemma rstrip_prefix (s : str) : exists post, s = rstrip s ++ post.
Proof.
  unfold rstrip. destruct (lstrip_suffix (rev s)) as [pre H].
  exists (rev pre). rewrite <- rev_app_distr, <- H, rev_involutive. reflexivity.
Qed.

Lemma strip_within (s : str) : within (strip s) s.
Proof.
  unfold strip. destruct (lstrip_suffix s) as [pre H].
  destruct (rstrip_prefix (lstrip s)) as [post H'].
  exists pre, post. rewrite <- H'. exact H.
Qed.

Lemma split_within (sep : ascii) (s piece : str) :
  In piece (split sep s) -> within piece s.
Proof.
  intros H. destruct (In_join [sep] piece (split sep s) H) as (a & b & E).
  rewrite join_split in E. exists a, b. exact E.
Qed.

Lemma In_electorate_tokens (raw t : str) :
  In t (electorate_tokens raw) -> plain_token t /\ within t raw.
Proof.
  unfold electorate_tokens. intros H.
  apply filter_In in H as [H Ht].
  apply in_map_iff in H as (piece & <- & H).
  apply in_flat_map in H as (segment & Hs & Hp).
  pose proof (split_no_sep newline raw) as N1.
  pose proof (split_no_sep "," segment) as N2.
  rewrite Forall_forall in N1, N2.
  pose proof (split_within _ _ _ Hs) as W1.
  pose proof (split_within _ _ _ Hp) as W2.
  pose proof (strip_within piece) as W3.
  split; [split; [|split; [|split]]|].
  - destruct (strip piece); [discriminate Ht | discriminate].
  - apply strip_idem.
  - intros Hc. apply (N2 piece Hp). eapply within_In; eauto.
  - intros Hc. apply (N1 segment Hs).
    eapply within_In; [exact W2|]. eapply within_In; eauto.
  - eapply within_trans; [exact W3|]. eapply within_trans; eauto.
Qed.

(** X7. Every candidate token of a letter is not empty and has no
    whitespace at either end.  A token is either a run of consecutive
    characters of the ELECTORATE field without a comma and without a
    newline, or the trimmed STATE field, which is never split. *)
Theorem extract_electorates_shape (letter : Series) :
  Forall (fun t =>
            t <> [] /\ strip t = t
            /\ ((within t (letter (lit "ELECTORATE"))
                 /\ ~ In ","%char t /\ ~ In newline t)
                \/ t = strip (letter (lit "STATE"))))
         (extract_electorates letter).
Proof.
  rewrite extract_electorates_eq. apply Forall_app. split.
  - apply Forall_forall. intros t Ht.
    apply In_electorate_tokens in Ht as [(H1 & H2 & H3 & H4) W]. auto 6.
  - destruct (strip (letter (lit "STATE"))) as [|c s] eqn:E; simpl; constructor;
      [|constructor].
    split; [discriminate|]. split; [|right; reflexivity].
    rewrite <- E. apply strip_idem.
Qed.

Lemma split_app_sep (sep : ascii) (a s : str) :
  ~ In sep a -> split sep (a ++ sep :: s) = a :: split sep s.
Proof.
  induction a as [|c a IH]; intros H; simpl.
  - rewrite Ascii.eqb_refl. reflexivity.
  - destruct (Ascii.eqb c sep) eqn:E.
    + apply Ascii.eqb_eq in E. exfalso. apply H. left; exact E.
    + rewrite IH; [reflexivity|]. intros Hin. apply H. right; exact Hin.
Qed.

Lemma split_free (sep : ascii) (a : str) : ~ In sep a -> split sep a = [a].
Proof.
  induction a as [|c a IH]; intros H; simpl; [reflexivity|].
  destruct (Ascii.eqb c sep) eqn:E.
  - apply Ascii.eqb_eq in E. exfalso. apply H. left; exact E.
  - rewrite IH; [reflexivity|]. intros Hin. apply H. right; exact Hin.
Qed.

Lemma split_join_tokens (t : str) (ts : list str) :
  Forall plain_token (t :: ts) ->
  split "," (join (lit ", ") (t :: ts)) = t :: map (cons " "%char) ts.
Proof.
  revert t; induction ts as [|t' ts IH]; intros t H.
  - simpl. apply split_free. inversion H as [|? ? (_ & _ & Hc & _) _]; exact Hc.
  - inversion H as [|? ? (_ & _ & Hc & _) H']; subst.
    change (join (lit ", ") (t :: t' :: ts))
      with (t ++ ","%char :: " "%char :: join (lit ", ") (t' :: ts)).
    rewrite split_app_sep by exact Hc. f_equal.
    change (" "%char :: join (lit ", ") (t' :: ts))
      with ([" "%char] ++ join (lit ", ") (t' :: ts)).
    assert (Hs : forall s, split "," ([" "%char] ++ s)
                           = match split "," s with
                             | hd :: tl => (" "%char :: hd) :: tl
                             | [] => [[" "%char]]
                             end) by reflexivity.
    rewrite Hs, IH by exact H'. reflexivity.
Qed.

Lemma join_tokens_no_newline (ts : list str) :
  Forall plain_token ts -> ~ In newline (join (lit ", ") ts).
Proof.
  induction ts as [|t ts IH]; intros H; [intros []|].
  inversion H as [|? ? (_ & _ & _ & Hn) H']; subst.
  destruct ts as [|t' ts]; [exact Hn|].
  change (join (lit ", ") (t :: t' :: ts))
    with (t ++ lit ", " ++ join (lit ", ") (t' :: ts)).
  intros Hin. apply in_app_or in Hin as [Hin|Hin]; [exact (Hn Hin)|].
  apply in_app_or in Hin as [Hin|Hin]; [|exact (IH H' Hin)].
  simpl in Hin. destruct Hin as [Hin|[Hin|[]]]; discriminate Hin.
Qed.

Lemma electorate_tokens_join (ts : list str) :
  Forall plain_token ts -> electorate_tokens (join (lit ", ") ts) = ts.
Proof.
  intros H. unfold electorate_tokens.
  rewrite (split_free newline) by (apply join_tokens_no_newline; exact H).
  cbn [flat_map]. rewrite app_nil_r.
  destruct ts as [|t ts]; [reflexivity|].
  rewrite split_join_tokens by exact H.
  assert (G : forall l, Forall plain_token l ->
                        filter truthy (map strip (map (cons " "%char) l)) = l).
  { induction l as [|x l IH]; intros Hl; [reflexivity|].
    inversion Hl as [|? ? (Hne & Hst & _) Hl']; subst.
    cbn [map filter].
    change (strip (" "%char :: x)) with (strip x). rewrite Hst.
    destruct x as [|c x]; [congruence|]. cbn [truthy]. f_equal. apply IH; auto. }
  inversion H as [|? ? (Hne & Hst & _) H']; subst.
  cbn [map filter]. rewrite Hst.
  destruct t as [|c t]; [congruence|]. cbn [truthy]. f_equal. apply G; auto.
Qed.

(** X8. Round trip: when the ELECTORATE field is a list of names joined with
    a comma and a space, each name not empty, without whitespace at its ends
    and without a comma or a newline inside, and the STATE field is blank,
    the candidate tokens are exactly these names, in order. *)
Theorem extract_electorates_join (letter : Series) (names : list str) :
  Forall plain_token names ->
  letter (lit "ELECTORATE") = join (lit ", ") names ->
  forallb isspace (letter (lit "STATE")) = true ->
  extract_electorates letter = names.
Proof.
  intros Hn He Hs. rewrite extract_electorates_eq, He, electorate_tokens_join by exact Hn.
  rewrite strip_all_space by exact Hs. apply app_nil_r.
Qed.

Lemma extract_electorates_join_witness :
  extract_electorates
    (Examples.letter_row (lit "Bruce, Hotham") (lit "Jun 28, 2025")
                         (lit "Dear [MP Name], ...") (lit "3175") (lit " "))
  = [lit "Bruce"; lit "Hotham"].
Proof.
  apply (extract_electorates_join _ [lit "Bruce"; lit "Hotham"]).
  - repeat constructor; try discriminate;
      intros H; vm_compute in H; intuition discriminate.
  - reflexivity.
  - reflexivity.
Defined.

End TokenShape.

(** ** The document as a whole (app.py:28-73) *)

Section DocumentShape.
Import Spec Shape Docx.

Lemma letter_blocks_count (mp : mp_info) (l : letter_copy) :
  length (letter_blocks mp l) = 5
  /\ filter is_page_break (letter_blocks mp l) = [].
Proof.
  unfold letter_blocks, plain_paragraph, bold_paragraph.
  destruct (replace_mp_name_in_letter _ _ _); split; reflexivity.
Qed.

Lemma count_join_letter_blocks (mp : mp_info) (ls : list letter_copy) :
  length (join [PageBreak] (map (letter_blocks mp) ls)) = 6 * length ls - 1
  /\ length (filter is_page_break
                    (join [PageBreak] (map (letter_blocks mp) ls)))
     = length ls - 1.
Proof.
  induction ls as [|l ls [IH1 IH2]]; [split; reflexivity|].
  destruct (letter_blocks_count mp l) as [H5 H0].
  destruct ls as [|l' ls].
  - cbn [map join]. rewrite H5, H0. split; reflexivity.
  - change (join [PageBreak] (map (letter_blocks mp) (l :: l' :: ls)))
      with (letter_blocks mp l ++ [PageBreak]
            ++ join [PageBreak] (map (letter_blocks mp) (l' :: ls))).
    rewrite !filter_app, !length_app, IH1, IH2, H5, H0. cbn [length].
    split; simpl; lia.
Qed.

(** X9. A document that [create_docx_for_electorate] returns has Roboto as
    the font of its Normal style and, for a bucket of n letters, 6n - 1
    paragraphs (none for an empty bucket): five for each letter and, for
    each letter but the last, the paragraph of a page break. *)
Theorem create_docx_counts (electorate : str) (mp : mp_info)
        (letters : list letter_copy) (doc : Document) :
  create_docx_for_electorate electorate mp letters = Ok doc ->
  normal_font doc = Some (lit "Roboto")
  /\ length (body doc) = 6 * length letters - 1
  /\ length (filter is_page_break (body doc)) = length letters - 1.
Proof.
  rewrite create_docx_result.
  destruct (forallb (renderable mp) letters); [|discriminate].
  intros [= <-]. unfold rendered. cbn [normal_font body].
  destruct (count_join_letter_blocks mp (sorted_by_date letters)) as [H1 H2].
  rewrite H1, H2, (Permutation_length (sorted_by_date_perm letters)). auto.
Qed.

Lemma create_docx_counts_witness :
  match create_docx_for_electorate
          (lit "NSW")
          (mk_mp_info (lit "NSW") (lit "Senator") (lit "Jennifer")
                      (lit "McAllister") (lit "Jennifer McAllister"))
          [Examples.dated (lit "Jul 10, 2025");
           Examples.dated (lit "Jun 28, 2025")] with
  | Ok doc => length (body doc) = 11
  | Raise _ => False
  end.
Proof.
  destruct (create_docx_for_electorate _ _ _) as [doc|e] eqn:E.
  - apply (create_docx_counts _ _ _ _ E).
  - vm_compute in E. discriminate E.
Defined.

End DocumentShape.

(** ** Buckets that are already in order (app.py:37) *)

Section AlreadySorted.
Import Spec.

Lemma sorted_fixed {A K} (key : A -> K) (lt : K -> K -> bool) (l : list A) :
  PySort.ascending key lt l -> PySort.sorted key lt l = l.
Proof.
  induction 1 as [|x l Hl IH Hx]; [reflexivity|].
  cbn [PySort.sorted]. rewrite IH.
  destruct l as [|y l]; [reflexivity|]. cbn [PySort.insert].
  inversion Hx as [|? ? Hy _]; subst. rewrite Hy. reflexivity.
Qed.

(** X10. Sorting leaves a bucket as it is exactly when no letter of the
    bucket has a parsed date later than that of a letter after it; so the
    letters of such a bucket are rendered in the order of the rows, and a
    bucket without a parseable date always is. *)
Theorem sorted_by_date_fixed (letters : list letter_copy) :
  (sorted_by_date letters = letters
   <-> StronglySorted (fun a b => Datetime.leb (date_of a) (date_of b) = true)
                      letters)
  /\ (Forall (fun l => parseable (Submission_Date l) = false) letters ->
      sorted_by_date letters = letters).
Proof.
  assert (Hfix : StronglySorted
                   (fun a b => Datetime.leb (date_of a) (date_of b) = true)
                   letters -> sorted_by_date letters = letters).
  { intros H. apply sorted_fixed. unfold PySort.ascending.
    induction H as [|x l Hl IH Hx]; constructor; auto.
    eapply Forall_impl; [|exact Hx]. cbv beta. intros y Hy.
    unfold Datetime.leb in Hy. apply negb_true_iff in Hy. exact Hy. }
  split; [split|].
  - intros <-. apply sorted_by_date_ascending.
  - exact Hfix.
  - intros H. apply Hfix. clear Hfix.
    induction H as [|x l Hx Hl IH]; constructor; auto.
    apply Forall_forall. intros y _. unfold date_of.
    rewrite (parse_date_unparseable _ Hx). apply parse_date_ge_min.
Qed.

Lemma sorted_by_date_fixed_witness :
  sorted_by_date MoreExamples.undated = MoreExamples.undated.
Proof.
  apply (proj2 (sorted_by_date_fixed _)).
  repeat constructor; vm_compute; reflexivity.
Defined.

End AlreadySorted.

(** ** What [parse_date] returns (app.py:11-21) *)

Section ParsedDates.
Import Regex Strptime Spec Shape.





Lemma lower_space (c : ascii) : isspace c = true -> lower c = c.
Proof.
  destruct c as [[] [] [] [] [] [] [] []]; intros H; try discriminate H;
    reflexivity.
Qed.

Lemma date_text_ends (names : list str) (c : ascii) (s : str)
      (dt : Datetime.datetime) :
  forallb (fun n => match n with
                    | [] => true
                    | x :: _ => negb (isspace x)
                    end) names = true ->
  isspace c = true ->
  ~ date_text names (c :: s) dt /\ ~ date_text names (s ++ [c]) dt.
Proof.
  intros Hnames Hc. split.
  - intros (u & w1 & d & w2 & y & m & dv & yv & E & Hm & _).
    unfold month_of in Hm. destruct u as [|a u]; [discriminate|].
    apply index_In in Hm. rewrite forallb_forall in Hnames.
    specialize (Hnames _ Hm). cbn [map] in Hnames.
    simpl in E. injection E as <- _.
    rewrite (lower_space _ Hc), Hc in Hnames. discriminate.
  - intros (u & w1 & d & w2 & y & m & dv & yv & E & _ & _ & _ & _ & Hy & _).
    unfold year_text in Hy. apply andb_true_iff in Hy as [Hl Hd].
    apply Nat.eqb_eq in Hl.
    destruct y as [|y1 [|y2 [|y3 [|y4 [|y5 y]]]]]; try discriminate Hl.
    change [y1; y2; y3; y4] with ([y1; y2; y3] ++ [y4]) in E.
    rewrite !app_assoc in E. apply app_inj_tail in E as [_ ->].
    simpl in Hd. repeat (apply andb_true_iff in Hd as [? Hd]).
    rewrite (digit_not_space y4) in Hc by assumption. discriminate.
Qed.

(** X12. A date string is not trimmed before it is parsed: with a
    whitespace character before or after it, also a well-formed date gets
    the sentinel minimum date. *)
Theorem parse_date_not_trimmed (c : ascii) (s : str) :
  isspace c = true ->
  parse_date (c :: s) = Datetime.min /\ parse_date (s ++ [c]) = Datetime.min.
Proof.
  intros Hc.
  assert (H : forall s', (forall names dt,
                             In names [a_month; f_month] ->
                             ~ date_text names s' dt) ->
                         parse_date s' = Datetime.min).
  { intros s' Hno. unfold parse_date.
    destruct (strptime s' (lit "%b %d, %Y")) as [dt|] eqn:E1.
    { apply strptime_abbreviated in E1. exfalso.
      apply (Hno a_month dt); simpl; auto. }
    destruct (strptime s' (lit "%B %d, %Y")) as [dt|] eqn:E2.
    { apply strptime_full in E2. exfalso.
      apply (Hno f_month dt); simpl; auto. }
    reflexivity. }
  split; apply H; intros names dt [<-|[<-|[]]];
    apply (date_text_ends _ c s dt); auto.
Qed.

Lemma parse_date_not_trimmed_witness :
  parse_date (" "%char :: lit "Jun 28, 2025") = Datetime.min
  /\ parse_date (lit "Jun 28, 2025" ++ [" "%char]) = Datetime.min.
Proof. apply (parse_date_not_trimmed " " (lit "Jun 28, 2025")). reflexivity. Defined.

(** *** The parts of a date text are determined by the text *)











End ParsedDates.

(** ** Case of the letters in a date (app.py:11-21) *)

Section DateCase.
Import Regex Strptime Spec.

Lemma caseless_code (c : ascii) :
  isspace c = true \/ digit c = true \/ c = ","%char ->
  nat_of_ascii c < 65 \/ 122 < nat_of_ascii c < 192.
Proof.
  intros [H|[H| ->]].
  - unfold isspace in H. cbv zeta in H.
    repeat (apply orb_true_iff in H as [H|H]);
      try (apply andb_true_iff in H as [H1 H2]; apply Nat.leb_le in H1, H2);
      try apply Nat.eqb_eq in H; lia.
  - unfold digit, range in H. apply andb_true_iff in H as [_ H].
    apply Nat.leb_le in H. change (nat_of_ascii "9") with 57 in H. lia.
  - change (nat_of_ascii ",") with 44. lia.
Qed.

Lemma lower_stable (c x : ascii) :
  isspace c = true \/ digit c = true \/ c = ","%char ->
  lower x = lower c -> x = c.
Proof.
  intros Hc E. apply caseless_code in Hc.
  assert (Hl : lower c = c).
  { unfold lower. destruct (_ || _) eqn:B; [|reflexivity]. exfalso.
    apply orb_true_iff in B as [B|B].
    - apply andb_true_iff in B as [B1 B2]. apply Nat.leb_le in B1, B2. lia.
    - apply andb_true_iff in B as [B _].
      apply andb_true_iff in B as [B1 B2]. apply Nat.leb_le in B1, B2. lia. }
  rewrite Hl in E. destruct (lower_cases x) as [E'|E']; [congruence|].
  rewrite E in E'. lia.
Qed.

Lemma map_lower_stable (w w' : str) :
  (forall c, In c w -> isspace c = true \/ digit c = true \/ c = ","%char) ->
  map lower w' = map lower w -> w' = w.
Proof.
  revert w'; induction w as [|c w IH]; intros [|c' w'] H E;
    try discriminate E; [reflexivity|].
  injection E as E1 E2. f_equal.
  - apply lower_stable; [apply H; left; reflexivity | exact E1].
  - apply IH; [intros a Ha; apply H; right; exact Ha | exact E2].
Qed.

Lemma forallb_In {A} (p : A -> bool) (l : list A) (x : A) :
  forallb p l = true -> In x l -> p x = true.
Proof. intros H. apply (proj1 (forallb_forall p l) H). Qed.

Lemma date_text_caseless (names : list str) (s s' : str)
      (dt : Datetime.datetime) :
  map lower s' = map lower s -> date_text names s dt -> date_text names s' dt.
Proof.
  intros E (u & w1 & d & w2 & y & m & dv & yv & -> & Hm & Hw1 & Hd & Hw2 & Hy
            & Hdv & Hyv & Hmk).
  rewrite !map_app in E.
  apply map_eq_app in E as (u' & r1 & -> & Eu & E).
  apply map_eq_app in E as (w1' & r2 & -> & Ew1 & E).
  apply map_eq_app in E as (d' & r3 & -> & Ed & E).
  apply map_eq_app in E as (c' & r4 & -> & Ec & E).
  apply map_eq_app in E as (w2' & y' & -> & Ew2 & Ey).
  pose proof (proj1 (blank_spec _) Hw1) as [_ S1].
  pose proof (proj1 (blank_spec _) Hw2) as [_ S2].
  pose proof (day_text_digits _ Hd) as [_ Dd].
  assert (Dy : forallb digit y = true)
    by (unfold year_text in Hy; apply andb_true_iff in Hy as [_ Hy]; exact Hy).
  apply map_lower_stable in Ew1;
    [|intros c Hc; left; exact (forallb_In _ _ _ S1 Hc)].
  apply map_lower_stable in Ew2;
    [|intros c Hc; left; exact (forallb_In _ _ _ S2 Hc)].
  apply map_lower_stable in Ed;
    [|intros c Hc; right; left; exact (forallb_In _ _ _ Dd Hc)].
  apply map_lower_stable in Ey;
    [|intros c Hc; right; left; exact (forallb_In _ _ _ Dy Hc)].
  apply (map_lower_stable [","%char]) in Ec;
    [|intros c [<-|[]]; right; right; reflexivity].
  subst. exists u', w1, d, w2, y, m, dv, yv.
  repeat split; auto.
  unfold month_of in *. destruct u as [|a u]; [discriminate|].
  destruct u' as [|a' u']; [discriminate Eu|]. rewrite Eu. exact Hm.
Qed.

Lemma strptime_caseless (names : list str) (format : str) (s s' : str) :
  (forall t dt, strptime t format = Some dt <-> date_text names t dt) ->
  map lower s = map lower s' -> strptime s format = strptime s' format.
Proof.
  intros H E.
  destruct (strptime s format) as [dt|] eqn:E1.
  - symmetry. apply H. apply (date_text_caseless names s s'); auto.
    apply H; exact E1.
  - destruct (strptime s' format) as [dt|] eqn:E2; [|reflexivity].
    rewrite <- E1. apply H. apply (date_text_caseless names s' s); auto.
    apply H; exact E2.
Qed.

(** X13. The case of the letters of a date string does not matter: two
    strings that are equal up to case get the same parsed date. *)
Theorem parse_date_ignores_case (s s' : str) :
  map lower s = map lower s' -> parse_date s = parse_date s'.
Proof.
  intros E. unfold parse_date.
  rewrite (strptime_caseless a_month (lit "%b %d, %Y") s s'
             strptime_abbreviated E).
  rewrite (strptime_caseless f_month (lit "%B %d, %Y") s s'
             strptime_full E).
  reflexivity.
Qed.

Lemma parse_date_ignores_case_witness :
  parse_date (lit "JUNE 28, 2025") = parse_date (lit "june 28, 2025").
Proof. apply parse_date_ignores_case. reflexivity. Defined.

End DateCase.

(** ** When [main] offers a download (app.py:160-351) *)

Section Downloads.
Import Shape.

Lemma existsb_download_on_generate (name_indexed : bool)
      (mps_df letters_df : DataFrame) :
  existsb is_download (on_generate name_indexed mps_df letters_df)
  = match process_files mps_df letters_df with
    | Ok (_ :: _) => true
    | _ => false
    end.
Proof.
  unfold on_generate.
  destruct (process_files mps_df letters_df) as [[|kd rest]|e]; reflexivity.
Qed.

Lemma filter_download_buttons (name : str * Docx.Document -> str)
      (l : list (str * Docx.Document)) :
  filter is_download (map (fun kd => st_download_button (name kd) (snd kd)) l)
  = map (fun kd => st_download_button (name kd) (snd kd)) l.
Proof.
  induction l as [|x l IH]; [reflexivity|].
  cbn [map filter is_download]. f_equal. exact IH.
Qed.

(** X14. Something is offered for download exactly when both tables are
    uploaded, neither misses a required column, the button was pressed,
    every letter of every bucket can be rendered and some token matches a
    representative.  What is offered then is one download for each
    document of the output, in order, and after them the archive
    "all_electorate_letters.zip", if [create_zip_file] returns it.  When
    [process_files] raises, the error "Error processing files: " with the
    message of the exception follows the acknowledgement of the upload,
    and nothing is offered. *)
Theorem main_offers_downloads (name_indexed : bool)
        (mps_file letters_file : option DataFrame) (clicked : bool) :
  (existsb is_download (main name_indexed mps_file letters_file clicked) = true
   <-> clicked = true
       /\ exists mps_df letters_df,
            mps_file = Some mps_df /\ letters_file = Some letters_df
            /\ missing_cols required_mp_columns mps_df = []
            /\ missing_cols required_letter_columns letters_df = []
            /\ (forall key info letters l,
                   get key (build_mp_dict mps_df) = Some info ->
                   get key (group_letters (build_mp_dict mps_df) letters_df)
                   = Some letters ->
                   In l letters -> Spec.renderable info l = true)
            /\ exists letter e,
                 In letter (iterrows letters_df)
                 /\ In e (extract_electorates letter)
                 /\ matching_mps (build_mp_dict mps_df) e <> [])
  /\ (forall mps_df letters_df docx_files,
        mps_file = Some mps_df -> letters_file = Some letters_df ->
        existsb is_download (main name_indexed mps_file letters_file clicked)
        = true ->
        process_files mps_df letters_df = Ok docx_files ->
        filter is_download (main name_indexed mps_file letters_file clicked)
        = map (fun kd => st_download_button
                           (filename_of (build_mp_dict mps_df) (fst kd))
                           (snd kd))
              docx_files
          ++ match create_zip_file name_indexed docx_files
                                   (build_mp_dict mps_df) with
             | Ok zip_buffer =>
                 [st_download_archive (lit "all_electorate_letters.zip")
                                      zip_buffer]
             | Raise _ => []
             end)
  /\ (forall mps_df letters_df e,
        mps_file = Some mps_df -> letters_file = Some letters_df ->
        missing_cols required_mp_columns mps_df = [] ->
        missing_cols required_letter_columns letters_df = [] ->
        clicked = true ->
        process_files mps_df letters_df = Raise e ->
        main name_indexed mps_file letters_file clicked
        = [st_success (lit "Files uploaded successfully!");
           st_info (lit "**MPs loaded:** "
                        ++ decimal (length (iterrows mps_df))
                        ++ lit " records");
           st_info (lit "**Letters loaded:** "
                        ++ decimal (length (iterrows letters_df))
                        ++ lit " records");
           st_error (lit "Error processing files: " ++ message e)]).
Proof.
  split; [|split].
  - destruct mps_file as [mps_df|], letters_file as [letters_df|];
      try (split; [discriminate | intros (_ & ? & ? & ? & ? & _); discriminate]).
    unfold main.
    destruct (missing_cols required_mp_columns mps_df) as [|c1 m1] eqn:M1.
    2:{ cbn [truthy]. split; [discriminate|].
        intros (_ & ? & ? & [= <-] & _ & ? & _). congruence. }
    destruct (missing_cols required_letter_columns letters_df) as [|c2 m2] eqn:M2.
    2:{ cbn [truthy]. split; [discriminate|].
        intros (_ & ? & ? & _ & [= <-] & _ & ? & _). congruence. }
    cbn [truthy]. rewrite existsb_app. cbn [existsb is_download orb].
    destruct clicked.
    + rewrite existsb_download_on_generate.
      pose proof (process_files_nonempty mps_df letters_df) as Hne. split.
      * intros H. split; [reflexivity|]. exists mps_df, letters_df.
        split; [reflexivity|]. split; [reflexivity|].
        split; [exact M1|]. split; [exact M2|].
        apply Hne.
        destruct (process_files mps_df letters_df) as [[|kd rest]|e];
          try discriminate H.
        eexists. split; [reflexivity | discriminate].
      * intros (_ & ? & ? & [= <-] & [= <-] & _ & _ & Hall & Hmatch).
        destruct (proj2 Hne (conj Hall Hmatch)) as (docx_files & -> & Hd).
        destruct docx_files; [congruence | reflexivity].
    + split; [discriminate | intros [? _]; discriminate].
  - intros mps_df letters_df docx_files -> ->. unfold main.
    destruct (truthy (missing_cols required_mp_columns mps_df));
      [discriminate|].
    destruct (truthy (missing_cols required_letter_columns letters_df));
      [discriminate|].
    rewrite existsb_app, filter_app. cbn [existsb filter is_download orb app].
    destruct clicked; [|discriminate].
    rewrite existsb_download_on_generate. unfold on_generate.
    intros H Hp. rewrite Hp in *.
    destruct docx_files as [|kd rest]; [discriminate|].
    rewrite !filter_app. cbn [filter is_download app].
    rewrite (filter_download_buttons
               (fun kd => filename_of (build_mp_dict mps_df) (fst kd))).
    f_equal.
    destruct (create_zip_file name_indexed (kd :: rest) (build_mp_dict mps_df));
      reflexivity.
  - intros mps_df letters_df e -> -> M1 M2 -> Hp. unfold main.
    rewrite M1, M2. cbn [truthy]. unfold on_generate. rewrite Hp. reflexivity.
Qed.

Lemma main_offers_downloads_witness :
  match process_files Examples.nsw_senator Examples.nsw_twice with
  | Ok docx_files =>
      filter Shape.is_download
             (main true (Some Examples.nsw_senator) (Some Examples.nsw_twice)
                   true)
      = map (fun kd => st_download_button
                         (filename_of (build_mp_dict Examples.nsw_senator)
                                      (fst kd))
                         (snd kd))
            docx_files
        ++ match create_zip_file true docx_files
                                 (build_mp_dict Examples.nsw_senator) with
           | Ok zip_buffer =>
               [st_download_archive (lit "all_electorate_letters.zip")
                                    zip_buffer]
           | Raise _ => []
           end
  | Raise _ => False
  end.
Proof.
  destruct (process_files Examples.nsw_senator Examples.nsw_twice)
    as [docx_files|e] eqn:E.
  - apply (proj1 (proj2 (main_offers_downloads true
                           (Some Examples.nsw_senator)
                           (Some Examples.nsw_twice) true))
                 Examples.nsw_senator Examples.nsw_twice docx_files
                 eq_refl eq_refl).
    + vm_compute. reflexivity.
    + exact E.
  - vm_compute in E. discriminate E.
Defined.

End Downloads.
